(** * Question generator: allocation, sequence building, response parsing
      and result aggregation

    A shallow embedding of the counting and parsing core of the question
    generation service:

    - [main/app.py]: [calculate_question_distribution], the grouping and
      re-normalisation done by [generate_questions], and its processing of
      the gathered job results;
    - [src/utils/utils_mcq.py], [utils_tf.py], [utils_fib.py]:
      [create_question_sequence], the three response parsers and the
      per-type breakdown computed by [generate_mcqs] and its siblings.

    The file names of [src/utils/helpers.py] ([generate_file_name]) and of
    the jobs, and [get_settings] of [src/services/settings.py], are
    embedded as well.

    The products, the quotient and the sums of the allocators are float
    operations in the code.  [App], [Utils] and [Orchestrator] take them
    exact; [Generic] has the same loops with these operations as
    parameters, so that what is proved there holds whatever they round to,
    and [Double] instantiates them with the IEEE 754 doubles of Python,
    where a tie of the exact product can fall the other way
    ([double_products], [twelve_questions_in_doubles]).

    Python values are modelled as follows.  A [str] is a list of code
    points below 256 ([list ascii]); an [int] is a [Z]; a [float] proportion
    is an exact rational ([Q]), so every product and quotient is the exact
    one; a [dict] is an association list in insertion order with unique
    keys; an exception is a value of [exn] carried by the [result] monad.
    What the parsers write to their file is the list they return here; the
    generation backend, the files and the thread pool stay outside.

    [utils_mcq.py] and [utils_tf.py] are stored with a backslash before
    each double quote; they are read with the quotes unescaped, which makes
    them the same text as [utils_fib.py] wherever the three agree. *)

From Stdlib Require Import ZArith QArith Qround List Ascii String Bool Lia Arith.
Import ListNotations.

Set Implicit Arguments.

Local Open Scope Z_scope.

(** ** Exceptions *)

Inductive exn : Type :=
| IndexError
| KeyError
| ValueError
| ZeroDivisionError
| Exception (msg : list ascii).

Inductive result (A : Type) : Type :=
| Ok (a : A)
| Raise (e : exn).

Arguments Ok {A} a.
Arguments Raise {A} e.

Definition bind {A B} (m : result A) (k : A -> result B) : result B :=
  match m with
  | Ok a => k a
  | Raise e => Raise e
  end.

Notation "x <- m ;; k" := (bind m (fun x => k))
  (at level 61, m at next level, right associativity).

Notation "' p <- m ;; k" := (bind m (fun p => k))
  (at level 61, p pattern, m at next level, right associativity).

Definition returns {A} (m : result A) : Prop := exists a, m = Ok a.

(** ** Strings *)

Definition str := list ascii.

Definition lit (s : string) : str := list_ascii_of_string s.

Definition str_eqb (a b : str) : bool :=
  if list_eq_dec ascii_dec a b then true else false.

(** [s.startswith(p)] *)
Fixpoint startswith (p s : str) : bool :=
  match p, s with
  | [], _ => true
  | _ :: _, [] => false
  | a :: p', b :: s' => if ascii_dec a b then startswith p' s' else false
  end.

(** [needle in s] *)
Fixpoint contains (needle s : str) : bool :=
  match s with
  | [] => startswith needle []
  | _ :: s' => startswith needle s || contains needle s'
  end.

(** [x] occurs in [s] *)
Definition substring (x s : str) : Prop := exists p q, s = p ++ x ++ q.

(** [s.split(sep, maxsplit)] for a non-empty separator, scanning from the
    left for non-overlapping occurrences.  [budget] is the number of splits
    still allowed ([None]: no limit), [skip] the number of characters of a
    matched separator still to be consumed, [cur] the piece being read, in
    reverse. *)
Fixpoint split_go (sep : str) (budget : option nat) (skip : nat)
         (cur : str) (s : str) : list str :=
  match s with
  | [] => [rev cur]
  | c :: s' =>
      match skip with
      | S k => split_go sep budget k cur s'
      | O =>
          match budget with
          | Some O => split_go sep budget O (c :: cur) s'
          | _ =>
              if startswith sep s
              then rev cur ::
                   split_go sep (option_map Nat.pred budget)
                            (Nat.pred (List.length sep)) [] s'
              else split_go sep budget O (c :: cur) s'
          end
      end
  end.

Definition split (sep s : str) : list str := split_go sep None O [] s.

Definition split_max (sep : str) (maxsplit : nat) (s : str) : list str :=
  split_go sep (Some maxsplit) O [] s.

(** [sep.join(pieces)] *)
Fixpoint join (sep : str) (pieces : list str) : str :=
  match pieces with
  | [] => []
  | [p] => p
  | p :: ps => p ++ sep ++ join sep ps
  end.

(** [c.isspace()] on the code points below 256: tab, line feed, vertical
    tab, form feed, carriage return, the four separators 28..31, space,
    next line (133) and no-break space (160). *)
Definition isspace (c : ascii) : bool :=
  let n := nat_of_ascii c in
  ((9 <=? n) && (n <=? 13) || (28 <=? n) && (n <=? 32)
   || (n =? 133) || (n =? 160))%nat.

(** [c.isdigit()] on the code points below 256: the decimal digits and the
    superscripts two, three and one. *)
Definition isdigit (c : ascii) : bool :=
  let n := nat_of_ascii c in
  ((48 <=? n) && (n <=? 57) || (n =? 178) || (n =? 179) || (n =? 185))%nat.

Fixpoint lstrip (s : str) : str :=
  match s with
  | [] => []
  | c :: s' => if isspace c then lstrip s' else s
  end.

Definition rstrip (s : str) : str := rev (lstrip (rev s)).

(** [s.strip()] *)
Definition strip (s : str) : str := rstrip (lstrip s).

(** Truth value of a string: non-empty. *)
Definition truthy (s : str) : bool :=
  match s with [] => false | _ => true end.

(** [l[i]] *)
Definition index {A} (l : list A) (i : nat) : result A :=
  match nth_error l i with
  | Some x => Ok x
  | None => Raise IndexError
  end.

(** ** Numbers *)

(** [round(x)] on a float: to the nearest integer, ties to the even one. *)
Definition pyround (x : Q) : Z :=
  let f := Qfloor x in
  match Qcompare (x - inject_Z f) (1 # 2) with
  | Lt => f
  | Gt => f + 1
  | Eq => if Z.even f then f else f + 1
  end.

(** [sum(l)] on integers *)
Definition zsum (l : list Z) : Z := fold_left Z.add l 0.

(** [sum] / accumulation of proportions *)
Definition qsum (l : list Q) : Q := fold_right Qplus 0%Q l.

(** ** Dictionaries

    Insertion-ordered: assigning to a key that is present replaces the value
    in place, assigning to a new key appends. *)

Section Dict.
Variable V : Type.

Definition dict := list (str * V).

Fixpoint dict_get (d : dict) (k : str) : option V :=
  match d with
  | [] => None
  | (k', v) :: d' => if str_eqb k' k then Some v else dict_get d' k
  end.

Fixpoint dict_set (d : dict) (k : str) (v : V) : dict :=
  match d with
  | [] => [(k, v)]
  | (k', v') :: d' =>
      if str_eqb k' k then (k', v) :: d' else (k', v') :: dict_set d' k v
  end.

Definition keys (d : dict) : list str := map fst d.
Definition values (d : dict) : list V := map snd d.
Definition items (d : dict) : list (str * V) := d.

(** [d[k]] *)
Definition dict_lookup (d : dict) (k : str) : result V :=
  match dict_get d k with
  | Some v => Ok v
  | None => Raise KeyError
  end.

(** [max(d.keys(), key=f)] where [f k] reads [d[k]]: the first key whose
    measure is the largest; [ValueError] on an empty dictionary. *)
Fixpoint max_from (f : V -> Z) (best : str * V) (d : dict) : str * V :=
  match d with
  | [] => best
  | (k, v) :: d' =>
      if f (snd best) <? f v then max_from f (k, v) d' else max_from f best d'
  end.

Definition max_key (f : V -> Z) (d : dict) : result str :=
  match d with
  | [] => Raise ValueError
  | kv :: d' => Ok (fst (max_from f kv d'))
  end.

(** The adjustment shared by all allocators of the repository:
    [largest_key = max(d.keys(), key=lambda k: d[k]['count'])] and
    [d[largest_key]['count'] += delta], for the reading [cnt] and the
    in-place update [add] of the count of an entry. *)
Definition adjust_largest_by (cnt : V -> Z) (add : V -> Z -> V)
           (d : dict) (delta : Z) : result dict :=
  largest_key <- max_key cnt d ;;
  entry <- dict_lookup d largest_key ;;
  Ok (dict_set d largest_key (add entry delta)).
End Dict.

Arguments dict_get {V} d k.
Arguments dict_set {V} d k v.
Arguments keys {V} d.
Arguments values {V} d.
Arguments items {V} d.
Arguments dict_lookup {V} d k.
Arguments max_key {V} f d.
Arguments max_from {V} f best d.
Arguments adjust_largest_by {V} cnt add d delta.

(** ** The per-type allocation and sequence of the utility modules

    [utils_mcq.py], [utils_tf.py] and [utils_fib.py] carry the same
    [create_question_sequence] and the same breakdown computation inside
    [generate_mcqs], [generate_true_false] and [generate_fill_in_blank]. *)

Module Utils.

Record specs : Type := mk_specs {
  difficulty : str;
  blooms_level : str;
  count : Z
}.

Definition add_count (s : specs) (delta : Z) : specs :=
  {| difficulty := difficulty s;
     blooms_level := blooms_level s;
     count := count s + delta |}.

(** [f"{difficulty}_{blooms}"] *)
Definition combo_key (difficulty blooms : str) : str :=
  difficulty ++ lit "_" ++ blooms.

(** [for _ in range(count): sequence.append((difficulty, blooms_level))] *)
Fixpoint append_times (n : nat) (x : str * str) (sequence : list (str * str))
  : list (str * str) :=
  match n with
  | O => sequence
  | S n' => append_times n' x (sequence ++ [x])
  end.

Definition create_question_sequence (question_breakdown : dict specs)
  : list (str * str) :=
  fold_left
    (fun sequence '(combo_key, specs) =>
       append_times (Z.to_nat (count specs))
                    (difficulty specs, blooms_level specs) sequence)
    (items question_breakdown) [].

(** [int(round(num_questions * diff_ratio * blooms_ratio))], with the
    product taken exact; [Double.leaf] rounds it as the doubles of the code
    do, and [Generic.blooms_loop] leaves it open. *)
Definition leaf_count (num_questions : Z) (diff_ratio blooms_ratio : Q) : Z :=
  pyround (inject_Z num_questions * diff_ratio * blooms_ratio).

Definition blooms_loop (num_questions : Z) (difficulty : str) (diff_ratio : Q)
           (blooms_taxonomy_distribution : dict Q)
           (question_breakdown : dict specs) : dict specs :=
  fold_left
    (fun question_breakdown '(blooms, blooms_ratio) =>
       let count := leaf_count num_questions diff_ratio blooms_ratio in
       if 0 <? count
       then dict_set question_breakdown (combo_key difficulty blooms)
                     (mk_specs difficulty blooms count)
       else question_breakdown)
    (items blooms_taxonomy_distribution) question_breakdown.

Definition difficulty_loop (num_questions : Z)
           (difficulty_distribution blooms_taxonomy_distribution : dict Q)
           (question_breakdown : dict specs) : dict specs :=
  fold_left
    (fun question_breakdown '(difficulty, diff_ratio) =>
       blooms_loop num_questions difficulty diff_ratio
                   blooms_taxonomy_distribution question_breakdown)
    (items difficulty_distribution) question_breakdown.

(** Add/subtract from the largest group *)
Definition adjust_largest (question_breakdown : dict specs) (delta : Z)
  : result (dict specs) :=
  adjust_largest_by count add_count question_breakdown delta.

(** The breakdown computed by [generate_mcqs] (and its two siblings)
    before the prompt is built. *)
Definition question_breakdown (num_questions : Z)
           (difficulty_distribution blooms_taxonomy_distribution : dict Q)
  : result (dict specs) :=
  let question_breakdown :=
    difficulty_loop num_questions difficulty_distribution
                    blooms_taxonomy_distribution [] in
  let total_calculated := zsum (map count (values question_breakdown)) in
  if negb (total_calculated =? num_questions)
  then adjust_largest question_breakdown (num_questions - total_calculated)
  else Ok question_breakdown.

Definition total (question_breakdown : dict specs) : Z :=
  zsum (map count (values question_breakdown)).

(** The allocation [{(basic, remember): 2, (advanced, analyze): 3}] *)
Definition two_cells : dict specs :=
  [(combo_key (lit "basic") (lit "remember"),
    mk_specs (lit "basic") (lit "remember") 2);
   (combo_key (lit "advanced") (lit "analyze"),
    mk_specs (lit "advanced") (lit "analyze") 3)].

(** An allocation of three units over two cells *)
Definition three_units : dict specs :=
  [(combo_key (lit "basic") (lit "remember"),
    mk_specs (lit "basic") (lit "remember") 1);
   (combo_key (lit "advanced") (lit "analyze"),
    mk_specs (lit "advanced") (lit "analyze") 2)].

(** The pair a cell contributes to the sequence *)
Definition labels (s : specs) : str * str := (difficulty s, blooms_level s).

(** Some combination of labels has a positive leaf count. *)
Definition survives (num_questions : Z)
           (difficulty_distribution blooms_taxonomy_distribution : dict Q)
  : Prop :=
  exists d b,
    In d (items difficulty_distribution) /\
    In b (items blooms_taxonomy_distribution) /\
    0 < leaf_count num_questions (snd d) (snd b).

End Utils.

(** ** [main/app.py] *)

Module App.

Record config : Type := mk_config {
  question_type : str;
  difficulty : str;
  blooms_level : str;
  count : Z
}.

Definition add_count (c : config) (delta : Z) : config :=
  {| question_type := question_type c;
     difficulty := difficulty c;
     blooms_level := blooms_level c;
     count := count c + delta |}.

(** [f"{q_type}_{difficulty}_{blooms}"] *)
Definition cell_key (q_type difficulty blooms : str) : str :=
  q_type ++ lit "_" ++ difficulty ++ lit "_" ++ blooms.

(** [int(round(total_questions * q_ratio))] and the like for the two inner
    levels, with the product taken exact; [Double.scale] rounds it as the
    doubles of the code do, and [Generic.type_loop] leaves it open. *)
Definition q_count (total_questions : Z) (q_ratio : Q) : Z :=
  pyround (inject_Z total_questions * q_ratio).

Definition d_count (q_count : Z) (d_ratio : Q) : Z :=
  pyround (inject_Z q_count * d_ratio).

Definition b_count (d_count : Z) (b_ratio : Q) : Z :=
  pyround (inject_Z d_count * b_ratio).

Definition blooms_loop (q_type difficulty : str) (d_count : Z)
           (blooms_dist : dict Q) (distribution : dict config) : dict config :=
  fold_left
    (fun distribution '(blooms, b_ratio) =>
       let b_count := b_count d_count b_ratio in
       if 0 <? b_count
       then dict_set distribution (cell_key q_type difficulty blooms)
                     (mk_config q_type difficulty blooms b_count)
       else distribution)
    (items blooms_dist) distribution.

Definition difficulty_loop (q_type : str) (q_count : Z)
           (difficulty_dist blooms_dist : dict Q) (distribution : dict config)
  : dict config :=
  fold_left
    (fun distribution '(difficulty, d_ratio) =>
       blooms_loop q_type difficulty (d_count q_count d_ratio)
                   blooms_dist distribution)
    (items difficulty_dist) distribution.

Definition type_loop (total_questions : Z)
           (question_type_dist difficulty_dist blooms_dist : dict Q)
           (distribution : dict config) : dict config :=
  fold_left
    (fun distribution '(q_type, q_ratio) =>
       difficulty_loop q_type (q_count total_questions q_ratio)
                       difficulty_dist blooms_dist distribution)
    (items question_type_dist) distribution.

(** Add/subtract from the largest group *)
Definition adjust_largest (distribution : dict config) (delta : Z)
  : result (dict config) :=
  adjust_largest_by count add_count distribution delta.

Definition calculate_question_distribution (total_questions : Z)
           (question_type_dist difficulty_dist blooms_dist : dict Q)
  : result (dict config) :=
  let distribution :=
    type_loop total_questions question_type_dist difficulty_dist
              blooms_dist [] in
  let total_calculated := zsum (map count (values distribution)) in
  if negb (total_calculated =? total_questions)
  then adjust_largest distribution (total_questions - total_calculated)
  else Ok distribution.

Definition total (distribution : dict config) : Z :=
  zsum (map count (values distribution)).

(** Some combination of labels has a positive leaf count. *)
Definition survives (total_questions : Z)
           (question_type_dist difficulty_dist blooms_dist : dict Q) : Prop :=
  exists q d b,
    In q (items question_type_dist) /\
    In d (items difficulty_dist) /\
    In b (items blooms_dist) /\
    0 < b_count (d_count (q_count total_questions (snd q)) (snd d)) (snd b).

End App.

(** The run of one cell in the sequence: its pair of labels, [count] times *)
Definition cell_run (entry : str * Utils.specs) : list (str * str) :=
  repeat (Utils.labels (snd entry)) (Z.to_nat (Utils.count (snd entry))).

Definition counts_nonneg (qb : dict Utils.specs) : Prop :=
  forall k s, In (k, s) qb -> 0 <= Utils.count s.

(** A distribution as the data model has it: distinct labels, proportions
    in [0, 1] that sum to one. *)
Definition proper_distribution (d : dict Q) : Prop :=
  NoDup (keys d) /\
  Forall (fun p => 0 <= p /\ p <= 1)%Q (values d) /\
  (qsum (values d) == 1)%Q.

Definition nonempty {A} (l : list A) : Prop := l <> [].

(** The defaults of [QuestionRequest] *)
Definition default_question_type_distribution : dict Q :=
  [(lit "mcq", 4 # 10); (lit "fib", 3 # 10); (lit "tf", 3 # 10)]%Q.
Definition default_difficulty_distribution : dict Q :=
  [(lit "basic", 3 # 10); (lit "intermediate", 3 # 10);
   (lit "advanced", 4 # 10)]%Q.
Definition default_blooms_taxonomy_distribution : dict Q :=
  [(lit "remember", 3 # 10); (lit "apply", 4 # 10); (lit "analyze", 3 # 10)]%Q.

Definition halves (a b : string) : dict Q :=
  [(lit a, 1 # 2); (lit b, 1 # 2)]%Q.

(** ** The response parsers

    The three parsers share their outer loop: split the response on the
    record-boundary token, keep the stripped non-blank blocks, extract the
    fields of each block and attach the metadata found at [question_index]
    in the sequence. *)

Definition ANSWER : str := lit "ANSWER:".
Definition EXPLANATION : str := lit "EXPLANATION:".

(** A fragment that is not empty once stripped: [if b.strip()] *)
Definition nonblank (b : str) : bool := truthy (strip b).

(** [[b.strip() for b in blocks if b.strip()]] *)
Definition stripped_blocks (blocks : list str) : list str :=
  map strip (filter nonblank blocks).

Section ParseLoop.
Variable question_obj : Type.
(** the field extraction of one block, starting from the default object *)
Variable extract : str -> result question_obj.
(** [question_obj["difficulty"] = ...; question_obj["blooms_level"] = ...] *)
Variable assign : question_obj -> str -> str -> question_obj.

Fixpoint parse_blocks (blocks : list str) (question_sequence : list (str * str))
         (question_index : nat) (responses : list question_obj)
  : result (list question_obj) :=
  match blocks with
  | [] => Ok responses
  | block :: rest =>
      question_obj <- extract block ;;
      if (question_index <? List.length question_sequence)%nat
      then
        ' (difficulty, blooms_level) <- index question_sequence question_index ;;
        parse_blocks rest question_sequence (S question_index)
                     (responses ++ [assign question_obj difficulty blooms_level])
      else
        parse_blocks rest question_sequence question_index
                     (responses ++ [question_obj])
  end.

(** What the loop does to the record of position [i]: the labels of
    position [i] of the sequence when there is one, nothing otherwise. *)
Definition attach (question_sequence : list (str * str)) (i : nat)
           (o : question_obj) : question_obj :=
  match nth_error question_sequence i with
  | Some (difficulty, blooms_level) => assign o difficulty blooms_level
  | None => o
  end.

Definition parse_response (boundary res : str)
           (question_breakdown : dict Utils.specs) : result (list question_obj) :=
  let question_blocks := split boundary res in
  let question_sequence := Utils.create_question_sequence question_breakdown in
  parse_blocks (stripped_blocks question_blocks) question_sequence O [].
End ParseLoop.

(** [utils_mcq.py] *)
Module Mcq.

Record question_obj : Type := mk {
  question : str;
  answer : str;
  explanation : str;
  distractors : list str;
  difficulty : str;
  blooms_level : str;
  question_type : str
}.

Definition default_obj : question_obj := mk [] [] [] [] [] [] (lit "mcq").

Definition set_question (o : question_obj) (v : str) :=
  mk v (answer o) (explanation o) (distractors o) (difficulty o)
     (blooms_level o) (question_type o).
Definition set_answer (o : question_obj) (v : str) :=
  mk (question o) v (explanation o) (distractors o) (difficulty o)
     (blooms_level o) (question_type o).
Definition set_explanation (o : question_obj) (v : str) :=
  mk (question o) (answer o) v (distractors o) (difficulty o)
     (blooms_level o) (question_type o).
Definition append_distractor (o : question_obj) (v : str) :=
  mk (question o) (answer o) (explanation o) (distractors o ++ [v])
     (difficulty o) (blooms_level o) (question_type o).
Definition assign (o : question_obj) (d b : str) :=
  mk (question o) (answer o) (explanation o) (distractors o) d b
     (question_type o).

Definition BOUNDARY : str := lit "QUESTION:".
Definition DISTRACTOR1 : str := lit "DISTRACTOR1:".
Definition DISTRACTOR2 : str := lit "DISTRACTOR2:".
Definition DISTRACTOR3 : str := lit "DISTRACTOR3:".
Definition distractor_keys : list str := [DISTRACTOR1; DISTRACTOR2; DISTRACTOR3].

(** Extract question content *)
Definition extract_question (st : question_obj * str)
  : result (question_obj * str) :=
  let '(o, block) := st in
  if contains ANSWER block
  then
    q <- index (split ANSWER block) 0 ;;
    rest <- index (split ANSWER block) 1 ;;
    Ok (set_question o (strip q), ANSWER ++ rest)
  else Ok (o, block).

(** Extract answer *)
Definition extract_answer (st : question_obj * str)
  : result (question_obj * str) :=
  let '(o, block) := st in
  if contains ANSWER block && contains EXPLANATION block
  then
    after <- index (split ANSWER block) 1 ;;
    a <- index (split EXPLANATION after) 0 ;;
    rest <- index (split EXPLANATION block) 1 ;;
    Ok (set_answer o (strip a), EXPLANATION ++ rest)
  else Ok (o, block).

(** Extract explanation *)
Definition extract_explanation (st : question_obj * str)
  : result (question_obj * str) :=
  let '(o, block) := st in
  if contains EXPLANATION block
  then
    explanation_text <- index (split EXPLANATION block) 1 ;;
    if contains DISTRACTOR1 explanation_text
    then
      e <- index (split DISTRACTOR1 explanation_text) 0 ;;
      Ok (set_explanation o (strip e), block)
    else Ok (set_explanation o (strip explanation_text), block)
  else Ok (o, block).

(** One turn of [for i, key in enumerate(distractor_keys)] *)
Definition distractor_step (block : str) (o : question_obj) (i : nat) (key : str)
  : result question_obj :=
  if contains key block
  then
    let next_key :=
      if (i + 1 <? List.length distractor_keys)%nat
      then nth_error distractor_keys (i + 1) else None in
    after <- index (split key block) 1 ;;
    match next_key with
    | Some next_key =>
        if truthy next_key && contains next_key block
        then
          d <- index (split next_key after) 0 ;;
          Ok (append_distractor o (strip d))
        else Ok (append_distractor o (strip after))
    | None => Ok (append_distractor o (strip after))
    end
  else Ok o.

Fixpoint distractor_loop (block : str) (o : question_obj) (i : nat)
         (ks : list str) : result question_obj :=
  match ks with
  | [] => Ok o
  | key :: ks' =>
      o' <- distractor_step block o i key ;;
      distractor_loop block o' (S i) ks'
  end.

(** Extract distractors *)
Definition extract_distractors (st : question_obj * str)
  : result question_obj :=
  let '(o, block) := st in
  distractor_loop block o O distractor_keys.

Definition extract (block : str) : result question_obj :=
  st <- extract_question (default_obj, block) ;;
  st <- extract_answer st ;;
  st <- extract_explanation st ;;
  extract_distractors st.

(** The list [responses] that [parse_mcq] serialises to [file_name]. *)
Definition parse_mcq (res : str) (question_breakdown : dict Utils.specs)
  : result (list question_obj) :=
  parse_response extract assign BOUNDARY res question_breakdown.

End Mcq.

(** [utils_tf.py] *)
Module Tf.

Record question_obj : Type := mk {
  statement : str;
  answer : str;
  explanation : str;
  difficulty : str;
  blooms_level : str;
  question_type : str
}.

Definition default_obj : question_obj := mk [] [] [] [] [] (lit "tf").

Definition set_statement (o : question_obj) (v : str) :=
  mk v (answer o) (explanation o) (difficulty o) (blooms_level o)
     (question_type o).
Definition set_answer (o : question_obj) (v : str) :=
  mk (statement o) v (explanation o) (difficulty o) (blooms_level o)
     (question_type o).
Definition set_explanation (o : question_obj) (v : str) :=
  mk (statement o) (answer o) v (difficulty o) (blooms_level o)
     (question_type o).
Definition assign (o : question_obj) (d b : str) :=
  mk (statement o) (answer o) (explanation o) d b (question_type o).

Definition BOUNDARY : str := lit "STATEMENT:".

(** Extract statement *)
Definition extract_statement (st : question_obj * str)
  : result (question_obj * str) :=
  let '(o, block) := st in
  if contains ANSWER block
  then
    s <- index (split ANSWER block) 0 ;;
    rest <- index (split ANSWER block) 1 ;;
    Ok (set_statement o (strip s), ANSWER ++ rest)
  else Ok (o, block).

(** Extract answer (TRUE or FALSE) *)
Definition extract_answer (st : question_obj * str)
  : result (question_obj * str) :=
  let '(o, block) := st in
  if contains ANSWER block && contains EXPLANATION block
  then
    after <- index (split ANSWER block) 1 ;;
    a <- index (split EXPLANATION after) 0 ;;
    Ok (set_answer o (strip a), block)
  else if contains ANSWER block
  then
    after <- index (split ANSWER block) 1 ;;
    Ok (set_answer o (strip after), block)
  else Ok (o, block).

(** Extract explanation *)
Definition extract_explanation (st : question_obj * str)
  : result question_obj :=
  let '(o, block) := st in
  if contains EXPLANATION block
  then
    explanation_text <- index (split EXPLANATION block) 1 ;;
    Ok (set_explanation o (strip explanation_text))
  else Ok o.

Definition extract (block : str) : result question_obj :=
  st <- extract_statement (default_obj, block) ;;
  st <- extract_answer st ;;
  extract_explanation st.

Definition three_statements : str :=
  lit "STATEMENT: a ANSWER: TRUE EXPLANATION: x STATEMENT: b ANSWER: FALSE EXPLANATION: y STATEMENT: c ANSWER: TRUE EXPLANATION: z".

Definition two_statements : str :=
  lit "STATEMENT: a ANSWER: TRUE EXPLANATION: x STATEMENT: b ANSWER: FALSE".

(** The list [responses] that [parse_true_false] serialises. *)
Definition parse_true_false (res : str) (question_breakdown : dict Utils.specs)
  : result (list question_obj) :=
  parse_response extract assign BOUNDARY res question_breakdown.

End Tf.

(** [utils_fib.py] *)
Module Fib.

Record question_obj : Type := mk {
  question : str;
  answer : list str;
  explanation : str;
  difficulty : str;
  blooms_level : str;
  question_type : str
}.

Definition default_obj : question_obj := mk [] [] [] [] [] (lit "fib").

Definition set_question (o : question_obj) (v : str) :=
  mk v (answer o) (explanation o) (difficulty o) (blooms_level o)
     (question_type o).
Definition append_answer (o : question_obj) (v : str) :=
  mk (question o) (answer o ++ [v]) (explanation o) (difficulty o)
     (blooms_level o) (question_type o).
Definition set_explanation (o : question_obj) (v : str) :=
  mk (question o) (answer o) v (difficulty o) (blooms_level o)
     (question_type o).
Definition assign (o : question_obj) (d b : str) :=
  mk (question o) (answer o) (explanation o) d b (question_type o).

Definition BOUNDARY : str := lit "QUESTION:".
Definition NEWLINE : str := [ascii_of_nat 10].
Definition DOT_SPACE : str := lit ". ".

Definition extract_question (st : question_obj * str)
  : result (question_obj * str) :=
  let '(o, block) := st in
  if contains ANSWER block
  then
    q <- index (split ANSWER block) 0 ;;
    rest <- index (split ANSWER block) 1 ;;
    Ok (set_question o (strip q), ANSWER ++ rest)
  else Ok (o, block).

(** One turn of [for line in answer_lines], on the list being built *)
Definition answer_line (answer : list str) (line : str) : result (list str) :=
  let line := strip line in
  if truthy line
  then
    first <- index line 0 ;;
    if isdigit first && contains DOT_SPACE line
    then
      rest <- index (split_max DOT_SPACE 1 line) 1 ;;
      Ok (answer ++ [strip rest])
    else Ok (answer ++ [line])
  else Ok answer.

Fixpoint answer_lines_loop (answer : list str) (answer_lines : list str)
  : result (list str) :=
  match answer_lines with
  | [] => Ok answer
  | line :: rest =>
      answer' <- answer_line answer line ;;
      answer_lines_loop answer' rest
  end.

(** The list built from the text of the answer field *)
Definition answer_items (answer_text : str) : result (list str) :=
  answer_lines_loop [] (split NEWLINE answer_text).

Definition extract_answer (st : question_obj * str)
  : result (question_obj * str) :=
  let '(o, block) := st in
  if contains ANSWER block && contains EXPLANATION block
  then
    after <- index (split ANSWER block) 1 ;;
    a <- index (split EXPLANATION after) 0 ;;
    let answer_text := strip a in
    answer <- answer_lines_loop (answer o) (split NEWLINE answer_text) ;;
    Ok (mk (question o) answer (explanation o) (difficulty o)
           (blooms_level o) (question_type o), block)
  else Ok (o, block).

Definition extract_explanation (st : question_obj * str)
  : result question_obj :=
  let '(o, block) := st in
  if contains EXPLANATION block
  then
    explanation_text <- index (split EXPLANATION block) 1 ;;
    Ok (set_explanation o (strip explanation_text))
  else Ok o.

Definition extract (block : str) : result question_obj :=
  st <- extract_question (default_obj, block) ;;
  st <- extract_answer st ;;
  extract_explanation st.

(** A line that bears a numbered prefix: a digit, a period, a space *)
Definition numbered_prefix (line : str) : bool :=
  match line with
  | d :: p :: sp :: _ =>
      isdigit d && str_eqb [p; sp] DOT_SPACE
  | _ => false
  end.

(** An answer line that starts with a digit and has a sentence break *)
Definition counted_line : str := lit "2 apples. And pears".

Definition counted_response : str :=
  lit "QUESTION: What is in the basket? ANSWER: 2 apples. And pears EXPLANATION: e".

(** The list [responses] that [parse_fill_in_blank] serialises. *)
Definition parse_fill_in_blank (res : str)
           (question_breakdown : dict Utils.specs)
  : result (list question_obj) :=
  parse_response extract assign BOUNDARY res question_breakdown.

End Fib.

(** ** The orchestration in [generate_questions] ([main/app.py]) *)

Module Orchestrator.
Import App.

(** [a / b] on integers, with the quotient taken exact; [Generic.true_div]
    leaves it open and [Double.quot] rounds it to the nearest double. *)
Definition true_div (a b : Z) : result Q :=
  if b =? 0 then Raise ZeroDivisionError
  else Ok (inject_Z a / inject_Z b)%Q.

(** Group by question type for generation:
    [if q_type not in type_groups: type_groups[q_type] = []] and
    [type_groups[q_type].append(config)]. *)
Definition group_step (type_groups : dict (list App.config)) (config : App.config)
  : result (dict (list App.config)) :=
  let q_type := question_type config in
  let type_groups :=
    match dict_get type_groups q_type with
    | None => dict_set type_groups q_type []
    | Some _ => type_groups
    end in
  group <- dict_lookup type_groups q_type ;;
  Ok (dict_set type_groups q_type (group ++ [config])).

Fixpoint group_loop (entries : list (str * App.config))
         (type_groups : dict (list App.config)) : result (dict (list App.config)) :=
  match entries with
  | [] => Ok type_groups
  | (_, config) :: rest =>
      type_groups' <- group_step type_groups config ;;
      group_loop rest type_groups'
  end.

Definition group_by_type (question_dist : dict App.config)
  : result (dict (list App.config)) :=
  group_loop (items question_dist) [].

Definition total_for_type (configs : list App.config) : Z :=
  zsum (map count configs).

(** [if k not in d: d[k] = 0] *)
Definition ensure_key (d : dict Q) (k : str) : dict Q :=
  match dict_get d k with
  | None => dict_set d k 0%Q
  | Some _ => d
  end.

(** [d[k] += count / total_for_type], with the sum taken exact;
    [Generic.add_share] leaves it open. *)
Definition add_share (d : dict Q) (k : str) (count total_for_type : Z)
  : result (dict Q) :=
  v <- dict_lookup d k ;;
  share <- true_div count total_for_type ;;
  Ok (dict_set d k (v + share)%Q).

(** The effect of [ensure_key] followed by [add_share] when the total is
    not zero: the share is added to the proportion of the key, which
    starts from 0. *)
Definition accumulated (d : dict Q) (k : str) (share : Q) : dict Q :=
  match dict_get d k with
  | None => dict_set d k (0 + share)%Q
  | Some v => dict_set d k (v + share)%Q
  end.

(** [count / total_for_type] as a proportion *)
Definition share_of (total_for_type : Z) (config : App.config) : Q :=
  (inject_Z (count config) / inject_Z total_for_type)%Q.

Definition accumulate_difficulty (total_for_type : Z) (dd : dict Q)
           (config : App.config) : dict Q :=
  accumulated dd (difficulty config) (share_of total_for_type config).

Definition accumulate_blooms (total_for_type : Z) (bd : dict Q)
           (config : App.config) : dict Q :=
  accumulated bd (blooms_level config) (share_of total_for_type config).

(** One turn of [for config in configs] *)
Definition local_step (total_for_type : Z) (st : dict Q * dict Q)
           (config : App.config) : result (dict Q * dict Q) :=
  let '(difficulty_dist_for_type, blooms_dist_for_type) := st in
  let diff := difficulty config in
  let blooms := blooms_level config in
  let count := count config in
  let difficulty_dist_for_type := ensure_key difficulty_dist_for_type diff in
  let blooms_dist_for_type := ensure_key blooms_dist_for_type blooms in
  difficulty_dist_for_type <-
    add_share difficulty_dist_for_type diff count total_for_type ;;
  blooms_dist_for_type <-
    add_share blooms_dist_for_type blooms count total_for_type ;;
  Ok (difficulty_dist_for_type, blooms_dist_for_type).

Fixpoint local_loop (total_for_type : Z) (configs : list App.config)
         (st : dict Q * dict Q) : result (dict Q * dict Q) :=
  match configs with
  | [] => Ok st
  | config :: rest =>
      st' <- local_step total_for_type st config ;;
      local_loop total_for_type rest st'
  end.

(** The combined distributions [(difficulty_dist_for_type,
    blooms_dist_for_type)] created for one question type *)
Definition local_distributions (configs : list App.config)
  : result (dict Q * dict Q) :=
  local_loop (total_for_type configs) configs ([], []).

(** The allocation a job of one type works with: [generate_mcqs] and its
    siblings are called with [num_questions = total_for_type] and the two
    combined distributions.  Here in exact arithmetic; [Double.job_breakdown]
    is the same in doubles. *)
Definition job_breakdown (configs : list App.config) : result (dict Utils.specs) :=
  ' (difficulty_dist_for_type, blooms_dist_for_type) <-
      local_distributions configs ;;
  Utils.question_breakdown (total_for_type configs)
                           difficulty_dist_for_type blooms_dist_for_type.

Section Results.
(** the JSON document a job reads back from its file *)
Variable question_data : Type.

(** What happens inside the [try] of
    [generate_single_question_type_sync]: the generator and the reading
    of its file return, or some exception [e] is raised, of which only
    [str(e)] is used. *)
Inductive job_run : Type :=
| Returned (file_name : str) (data : question_data)
| Raised (message : str).

Definition job_tuple : Type :=
  (str * option str * option question_data * option str)%type.

Definition generate_single_question_type_sync (question_type : str)
           (run : job_run) : job_tuple :=
  match run with
  | Returned file_name data =>
      (question_type, Some file_name, Some data, None)
  | Raised message => (question_type, None, None, Some message)
  end.

(** An element of [results], the list awaited from [asyncio.gather]
    with [return_exceptions=True] *)
Inductive gathered : Type :=
| GException (e : exn)
| GResult (t : job_tuple).

(** [if error:] on [None] or a string *)
Definition error_truthy (error : option str) : bool :=
  match error with
  | None => false
  | Some message => truthy message
  end.

Definition error_text (error : option str) : str :=
  match error with
  | None => lit "None"
  | Some message => message
  end.

(** Process results *)
Fixpoint process_results (results : list gathered)
         (files_generated : list (option str))
         (all_question_data : dict (option question_data))
  : result (list (option str) * dict (option question_data)) :=
  match results with
  | [] => Ok (files_generated, all_question_data)
  | GException e :: _ => Raise e
  | GResult (question_type, file_name, data, error) :: rest =>
      if error_truthy error
      then Raise (Exception (lit "Error in " ++ question_type ++ lit ": "
                                 ++ error_text error))
      else process_results rest (files_generated ++ [file_name])
                           (dict_set all_question_data question_type data)
  end.

(** What the caller of [generate_questions] gets: the response, or the
    [HTTPException] raised by the handler. *)
Inductive outcome : Type :=
| Response (files_generated : list (option str))
           (data : dict (option question_data))
| HTTPException (status_code : Z).

(** What a job does inside its [try], given its question type, the number
    of questions of the type and the two combined distributions: the
    generation backend, the parser and the file system are behind it. *)
Variable backend : str -> Z -> dict Q -> dict Q -> job_run.

(** One turn of [for question_type, configs in type_groups.items()]: the
    combined distributions are created and the job is submitted; the entry
    of [results] it leads to. *)
Definition submit (entry : str * list App.config) : result gathered :=
  let '(question_type, configs) := entry in
  ' (difficulty_dist_for_type, blooms_dist_for_type) <-
      local_distributions configs ;;
  Ok (GResult
        (generate_single_question_type_sync
           question_type
           (backend question_type (total_for_type configs)
                    difficulty_dist_for_type blooms_dist_for_type))).

Fixpoint submit_all (type_groups : list (str * list App.config))
  : result (list gathered) :=
  match type_groups with
  | [] => Ok []
  | entry :: rest =>
      r <- submit entry ;;
      rs <- submit_all rest ;;
      Ok (r :: rs)
  end.

(** The handler, from the shared summary on: any exception of the [try]
    block becomes an [HTTPException] with status 500. *)
Definition generate_questions (content_summary : result str)
           (total_questions : Z)
           (question_type_distribution difficulty_distribution
              blooms_taxonomy_distribution : dict Q) : outcome :=
  match (_ <- content_summary ;;
         question_dist <-
           App.calculate_question_distribution
             total_questions question_type_distribution
             difficulty_distribution blooms_taxonomy_distribution ;;
         type_groups <- group_by_type question_dist ;;
         results <- submit_all (items type_groups) ;;
         process_results results [] []) with
  | Ok (files_generated, all_question_data) =>
      Response files_generated all_question_data
  | Raise _ => HTTPException 500
  end.
End Results.

(** A backend on which the job of [tf] raises an exception without a
    message and every other job returns *)
Definition tf_fails_silently (question_data : Type) (file_name : str)
           (data : question_data)
  : str -> Z -> dict Q -> dict Q -> job_run question_data :=
  fun question_type _ _ _ =>
    if str_eqb question_type (lit "tf") then Raised question_data []
    else Returned file_name data.

(** The count a group of cells gives to a pair of labels, and the count a
    job's breakdown gives to it (0 when the pair has no cell) *)
Definition group_count (configs : list App.config) (d b : str) : Z :=
  zsum (map count
            (filter (fun c => str_eqb (difficulty c) d
                              && str_eqb (blooms_level c) b) configs)).

Definition breakdown_count (qb : dict Utils.specs) (d b : str) : Z :=
  zsum (map Utils.count
            (filter (fun s => str_eqb (Utils.difficulty s) d
                              && str_eqb (Utils.blooms_level s) b)
                    (values qb))).


(** The group of the [mcq] cells of the default request: all ten
    questions, since the cells of the other two types round to 0 *)
Definition default_mcq_group : list App.config :=
  [mk_config (lit "mcq") (lit "advanced") (lit "remember") 8;
   mk_config (lit "mcq") (lit "advanced") (lit "apply") 1;
   mk_config (lit "mcq") (lit "advanced") (lit "analyze") 1].

(** A request for nine questions, mostly multiple choice *)
Definition nine_types : dict Q :=
  [(lit "mcq", 8 # 10); (lit "fib", 1 # 10); (lit "tf", 1 # 10)]%Q.
Definition nine_difficulty : dict Q :=
  [(lit "basic", 4 # 10); (lit "intermediate", 3 # 10);
   (lit "advanced", 3 # 10)]%Q.
Definition nine_blooms : dict Q :=
  [(lit "remember", 2 # 10); (lit "apply", 4 # 10); (lit "analyze", 4 # 10)]%Q.

(** A group of cells that covers every pair of a list of difficulties and
    a list of Bloom's levels, difficulty by difficulty, with the counts
    [c d b]; and the breakdown with the same cells and counts. *)
Section Grid.
Variable q_type : str.
Variables ds bs : list str.
Variable c : str -> str -> Z.

Definition grid_cell (d b : str) : App.config :=
  mk_config q_type d b (c d b).

Definition grid_configs : list App.config :=
  flat_map (fun d => map (grid_cell d) bs) ds.

Definition grid_row (d : str) : dict Utils.specs :=
  map (fun b => (Utils.combo_key d b, Utils.mk_specs d b (c d b))) bs.

Definition grid_breakdown : dict Utils.specs := flat_map grid_row ds.

Definition row_total (d : str) : Z := zsum (map (c d) bs).
Definition column_total (b : str) : Z := zsum (map (fun d => c d b) ds).
Definition grid_total : Z := zsum (map row_total ds).

(** The shares of a cell, of a difficulty and of a Bloom's level, as
    the loop of the handler adds them up *)
Definition cell_share (d b : str) : Q :=
  (inject_Z (c d b) / inject_Z grid_total)%Q.
Definition row_share (d : str) : Q :=
  fold_left (fun v b => (v + cell_share d b)%Q) bs 0%Q.
Definition column_share (b : str) : Q :=
  fold_left (fun v d => (v + cell_share d b)%Q) ds 0%Q.

Definition grid_positive : Prop :=
  forall d b, In d ds -> In b bs -> 0 < c d b.

(** Each count is the product of the totals of its row and of its
    column, divided by the overall total. *)
Definition product_form : Prop :=
  forall d b, In d ds -> In b bs ->
              c d b * grid_total = row_total d * column_total b.
End Grid.

End Orchestrator.

(** ** The float operations

    The loops of the allocators and of the handler once more, with the
    float operations they use as parameters: [scale n r] for
    [int(round(n * r))], [leaf n r1 r2] for [int(round(n * r1 * r2))],
    [quot a b] for [a / b] on integers with [b] not 0, [add] for [+] on
    floats. *)
Module Generic.
Section Arithmetic.
Variable scale : Z -> Q -> Z.
Variable leaf : Z -> Q -> Q -> Z.
Variable quot : Z -> Z -> Q.
Variable add : Q -> Q -> Q.

(** [main/app.py], [calculate_question_distribution] *)
Definition app_blooms_loop (q_type difficulty : str) (d_count : Z)
           (blooms_dist : dict Q) (distribution : dict App.config)
  : dict App.config :=
  fold_left
    (fun distribution '(blooms, b_ratio) =>
       let b_count := scale d_count b_ratio in
       if 0 <? b_count
       then dict_set distribution (App.cell_key q_type difficulty blooms)
                     (App.mk_config q_type difficulty blooms b_count)
       else distribution)
    (items blooms_dist) distribution.

Definition app_difficulty_loop (q_type : str) (q_count : Z)
           (difficulty_dist blooms_dist : dict Q)
           (distribution : dict App.config) : dict App.config :=
  fold_left
    (fun distribution '(difficulty, d_ratio) =>
       app_blooms_loop q_type difficulty (scale q_count d_ratio)
                       blooms_dist distribution)
    (items difficulty_dist) distribution.

Definition type_loop (total_questions : Z)
           (question_type_dist difficulty_dist blooms_dist : dict Q)
           (distribution : dict App.config) : dict App.config :=
  fold_left
    (fun distribution '(q_type, q_ratio) =>
       app_difficulty_loop q_type (scale total_questions q_ratio)
                           difficulty_dist blooms_dist distribution)
    (items question_type_dist) distribution.

Definition calculate_question_distribution (total_questions : Z)
           (question_type_dist difficulty_dist blooms_dist : dict Q)
  : result (dict App.config) :=
  let distribution :=
    type_loop total_questions question_type_dist difficulty_dist
              blooms_dist [] in
  let total_calculated := zsum (map App.count (values distribution)) in
  if negb (total_calculated =? total_questions)
  then App.adjust_largest distribution (total_questions - total_calculated)
  else Ok distribution.

(** The breakdown of [generate_mcqs] and its siblings *)
Definition blooms_loop (num_questions : Z) (difficulty : str) (diff_ratio : Q)
           (blooms_taxonomy_distribution : dict Q)
           (question_breakdown : dict Utils.specs) : dict Utils.specs :=
  fold_left
    (fun question_breakdown '(blooms, blooms_ratio) =>
       let count := leaf num_questions diff_ratio blooms_ratio in
       if 0 <? count
       then dict_set question_breakdown (Utils.combo_key difficulty blooms)
                     (Utils.mk_specs difficulty blooms count)
       else question_breakdown)
    (items blooms_taxonomy_distribution) question_breakdown.

Definition difficulty_loop (num_questions : Z)
           (difficulty_distribution blooms_taxonomy_distribution : dict Q)
           (question_breakdown : dict Utils.specs) : dict Utils.specs :=
  fold_left
    (fun question_breakdown '(difficulty, diff_ratio) =>
       blooms_loop num_questions difficulty diff_ratio
                   blooms_taxonomy_distribution question_breakdown)
    (items difficulty_distribution) question_breakdown.

Definition question_breakdown (num_questions : Z)
           (difficulty_distribution blooms_taxonomy_distribution : dict Q)
  : result (dict Utils.specs) :=
  let question_breakdown :=
    difficulty_loop num_questions difficulty_distribution
                    blooms_taxonomy_distribution [] in
  let total_calculated := zsum (map Utils.count (values question_breakdown)) in
  if negb (total_calculated =? num_questions)
  then Utils.adjust_largest question_breakdown
                            (num_questions - total_calculated)
  else Ok question_breakdown.

(** The combined distributions of [generate_questions] *)
Definition true_div (a b : Z) : result Q :=
  if b =? 0 then Raise ZeroDivisionError else Ok (quot a b).

(** [d[k] += count / total_for_type] *)
Definition add_share (d : dict Q) (k : str) (count total_for_type : Z)
  : result (dict Q) :=
  v <- dict_lookup d k ;;
  share <- true_div count total_for_type ;;
  Ok (dict_set d k (add v share)).

Definition local_step (total_for_type : Z) (st : dict Q * dict Q)
           (config : App.config) : result (dict Q * dict Q) :=
  let '(difficulty_dist_for_type, blooms_dist_for_type) := st in
  let diff := App.difficulty config in
  let blooms := App.blooms_level config in
  let count := App.count config in
  let difficulty_dist_for_type :=
    Orchestrator.ensure_key difficulty_dist_for_type diff in
  let blooms_dist_for_type :=
    Orchestrator.ensure_key blooms_dist_for_type blooms in
  difficulty_dist_for_type <-
    add_share difficulty_dist_for_type diff count total_for_type ;;
  blooms_dist_for_type <-
    add_share blooms_dist_for_type blooms count total_for_type ;;
  Ok (difficulty_dist_for_type, blooms_dist_for_type).

Fixpoint local_loop (total_for_type : Z) (configs : list App.config)
         (st : dict Q * dict Q) : result (dict Q * dict Q) :=
  match configs with
  | [] => Ok st
  | config :: rest =>
      st' <- local_step total_for_type st config ;;
      local_loop total_for_type rest st'
  end.

Definition local_distributions (configs : list App.config)
  : result (dict Q * dict Q) :=
  local_loop (Orchestrator.total_for_type configs) configs ([], []).

(** The allocation a job of one type works with *)
Definition job_breakdown (configs : list App.config)
  : result (dict Utils.specs) :=
  ' (difficulty_dist_for_type, blooms_dist_for_type) <-
      local_distributions configs ;;
  question_breakdown (Orchestrator.total_for_type configs)
                     difficulty_dist_for_type blooms_dist_for_type.

(** What the accumulation leaves under one label: the shares of the cells
    that bear it, added up in their order, from 0 *)
Definition accumulation (total_for_type : Z) (cells : list App.config) : Q :=
  fold_left (fun v c => add v (quot (App.count c) total_for_type)) cells 0%Q.
End Arithmetic.
End Generic.

(** IEEE 754 binary64 values are rationals; the operations round the exact
    result to the nearest value with 53 significant bits, ties to even
    (overflow and subnormal numbers are out of reach of the counts and
    proportions at hand). *)
Module Double.

Definition pow2 (e : Z) : Q :=
  if 0 <=? e then inject_Z (2 ^ e) else (1 / inject_Z (2 ^ (- e)))%Q.

(** [floor (log2 x)] for a positive [x] *)
Definition ilog2 (x : Q) : Z :=
  let e := Z.log2 (Qnum x) - Z.log2 (Z.pos (Qden x)) in
  if Qle_bool (pow2 e) x then e else e - 1.

Definition nearest (x : Q) : Q :=
  let e := ilog2 x - 52 in
  Qred (inject_Z (pyround (x / pow2 e)) * pow2 e).

Definition fl (x : Q) : Q :=
  match Qnum x with
  | Z0 => 0%Q
  | Zpos _ => nearest x
  | Zneg _ => (- nearest (- x))%Q
  end.

(** [float(n)] *)
Definition of_int (n : Z) : Q := fl (inject_Z n).
Definition mul (x y : Q) : Q := fl (x * y).
Definition add (x y : Q) : Q := fl (x + y).
(** [a / b] on integers, correctly rounded *)
Definition quot (a b : Z) : Q := fl (inject_Z a / inject_Z b).

(** [int(round(n * r))] and [int(round(n * r1 * r2))] *)
Definition scale (n : Z) (r : Q) : Z := pyround (mul (of_int n) r).
Definition leaf (n : Z) (r1 r2 : Q) : Z :=
  pyround (mul (mul (of_int n) r1) r2).

(** A distribution whose proportions are decimal literals, as floats *)
Definition literals (d : dict Q) : dict Q :=
  map (fun '(k, v) => (k, fl v)) d.

Definition calculate_question_distribution :=
  Generic.calculate_question_distribution scale.
Definition question_breakdown := Generic.question_breakdown leaf.
Definition local_distributions := Generic.local_distributions quot add.
Definition job_breakdown := Generic.job_breakdown leaf quot add.

End Double.


(** Twelve questions, six in ten of them multiple choice *)
Definition twelve_types : dict Q :=
  [(lit "mcq", 6 # 10); (lit "fib", 2 # 10); (lit "tf", 2 # 10)]%Q.


(** What one turn of the accumulation does to a distribution *)
Definition accumulated_by (add : Q -> Q -> Q) (d : dict Q) (k : str)
           (share : Q) : dict Q :=
  match dict_get d k with
  | None => dict_set d k (add 0%Q share)
  | Some v => dict_set d k (add v share)
  end.

(** The totals 1 to 8 *)
Definition below_nine : list Z := [1; 2; 3; 4; 5; 6; 7; 8].

(** The group of [mcq] in the allocation of the twelve questions with the
    default difficulties and Bloom's levels: the count 4, then eight
    times 1 *)
Definition twelve_mcq_group : list App.config :=
  flat_map
    (fun d =>
       map (fun b =>
              App.mk_config (lit "mcq") d b
                (if str_eqb d (lit "basic") && str_eqb b (lit "remember")
                 then 4 else 1))
           [lit "remember"; lit "apply"; lit "analyze"])
    [lit "basic"; lit "intermediate"; lit "advanced"].

(** ** Reading the allocations *)

(** The leaf count of a combination in the handler's allocator *)
Definition app_leaf (total_questions : Z) (q_ratio d_ratio b_ratio : Q) : Z :=
  App.b_count (App.d_count (App.q_count total_questions q_ratio) d_ratio)
              b_ratio.

(** A cell that is filed under the key of its own labels, the labels being
    entries of the three distributions whose leaf count is positive *)
Definition app_drawn (total_questions : Z) (qd dd bd : dict Q)
           (entry : str * App.config) : Prop :=
  fst entry = App.cell_key (App.question_type (snd entry))
                           (App.difficulty (snd entry))
                           (App.blooms_level (snd entry))
  /\ exists q_ratio d_ratio b_ratio,
       In (App.question_type (snd entry), q_ratio) qd
       /\ In (App.difficulty (snd entry), d_ratio) dd
       /\ In (App.blooms_level (snd entry), b_ratio) bd
       /\ 0 < app_leaf total_questions q_ratio d_ratio b_ratio.

(** Such a cell that also holds its leaf count *)
Definition app_raw (total_questions : Z) (qd dd bd : dict Q)
           (entry : str * App.config) : Prop :=
  fst entry = App.cell_key (App.question_type (snd entry))
                           (App.difficulty (snd entry))
                           (App.blooms_level (snd entry))
  /\ exists q_ratio d_ratio b_ratio,
       In (App.question_type (snd entry), q_ratio) qd
       /\ In (App.difficulty (snd entry), d_ratio) dd
       /\ In (App.blooms_level (snd entry), b_ratio) bd
       /\ App.count (snd entry)
          = app_leaf total_questions q_ratio d_ratio b_ratio
       /\ 0 < App.count (snd entry).

Definition utils_drawn (num_questions : Z) (dd bd : dict Q)
           (entry : str * Utils.specs) : Prop :=
  fst entry = Utils.combo_key (Utils.difficulty (snd entry))
                              (Utils.blooms_level (snd entry))
  /\ exists d_ratio b_ratio,
       In (Utils.difficulty (snd entry), d_ratio) dd
       /\ In (Utils.blooms_level (snd entry), b_ratio) bd
       /\ 0 < Utils.leaf_count num_questions d_ratio b_ratio.

Definition utils_raw (num_questions : Z) (dd bd : dict Q)
           (entry : str * Utils.specs) : Prop :=
  fst entry = Utils.combo_key (Utils.difficulty (snd entry))
                              (Utils.blooms_level (snd entry))
  /\ exists d_ratio b_ratio,
       In (Utils.difficulty (snd entry), d_ratio) dd
       /\ In (Utils.blooms_level (snd entry), b_ratio) bd
       /\ Utils.count (snd entry)
          = Utils.leaf_count num_questions d_ratio b_ratio
       /\ 0 < Utils.count (snd entry).

(** A dictionary with distinct keys whose entries all satisfy [P] *)
Definition kept {V : Type} (P : str * V -> Prop) (d : dict V) : Prop :=
  NoDup (keys d) /\ Forall P d.

(** The allocation before the correction *)
Definition app_uncorrected (total_questions : Z) (qd dd bd : dict Q)
  : dict App.config :=
  App.type_loop total_questions qd dd bd [].

Definition utils_uncorrected (num_questions : Z) (dd bd : dict Q)
  : dict Utils.specs :=
  Utils.difficulty_loop num_questions dd bd [].

(** Seventeen questions over three labels per dimension *)
Definition seventeen_types : dict Q :=
  [(lit "mcq", 3 # 10); (lit "fib", 3 # 10); (lit "tf", 4 # 10)]%Q.
Definition seventeen_difficulty : dict Q :=
  [(lit "basic", 3 # 10); (lit "intermediate", 3 # 10);
   (lit "advanced", 4 # 10)]%Q.
Definition seventeen_blooms : dict Q :=
  [(lit "remember", 3 # 10); (lit "apply", 3 # 10); (lit "analyze", 4 # 10)]%Q.

(** ** The file names and the defaults of the generators *)

(** A distribution that puts everything on one label, as the defaults of
    the generators do: [{'advanced': 1.0}], [{'analyze': 1.0}] *)
Definition certain (label : str) : dict Q := [(label, 1%Q)].

(** [helpers.py] *)
Module Helpers.

Definition suffix (question_type : str) : str :=
  if str_eqb question_type (lit "mcq") then lit "mcqs"
  else if str_eqb question_type (lit "fib") then lit "fib"
  else if str_eqb question_type (lit "tf") then lit "tf"
  else [].

(** [f"{filter_value}_{distribution_str}_{suffix}.json"] *)
Definition generate_file_name (filter_value distribution_str question_type : str)
  : str :=
  filter_value ++ lit "_" ++ distribution_str ++ lit "_"
               ++ suffix question_type ++ lit ".json".

End Helpers.

(** The name [file_name] is bound to in [generate_single_question_type_sync]
    of [main/app.py], where no branch binds it for another type *)
Definition job_file_name (filter_value difficulty_str blooms_str
                            question_type : str) : option str :=
  let stem := filter_value ++ lit "_" ++ difficulty_str ++ lit "_"
                           ++ blooms_str in
  if str_eqb question_type (lit "mcq") then Some (stem ++ lit "_mcqs.json")
  else if str_eqb question_type (lit "fib") then Some (stem ++ lit "_fib.json")
  else if str_eqb question_type (lit "tf") then Some (stem ++ lit "_tf.json")
  else None.

Definition known_types : list str := [lit "mcq"; lit "fib"; lit "tf"].

(** Proportions as the data model has them: none is negative. *)
Definition proportions_nonneg (d : dict Q) : Prop :=
  Forall (fun p => 0 <= p)%Q (values d).

(** [services/settings.py] *)
Module Settings.

Inductive value : Type :=
| Text (s : str)
| Flag (b : bool).

Definition DEV : str := lit "development".
Definition STAGING : str := lit "staging".
Definition PROD : str := lit "production".

(** [aws_region] is [os.environ.get("AWS_REGION", "us-east-1")] *)
Definition BASE_CONFIG (aws_region : str) : dict value :=
  [(lit "app_name", Text (lit "Question Generation API"));
   (lit "version", Text (lit "1.0.0"));
   (lit "debug", Flag false);
   (lit "aws_region", Text aws_region);
   (lit "dynamodb_table", Text (lit "question_generation_history"))].

Definition ENV_CONFIGS : dict (dict value) :=
  [(DEV, [(lit "debug", Flag true)]);
   (STAGING, [(lit "debug", Flag false)]);
   (PROD, [(lit "debug", Flag false)])].

(** [config.update(other)] *)
Definition update (config other : dict value) : dict value :=
  fold_left (fun config '(k, v) => dict_set config k v) (items other) config.

(** [get_settings()], for the value [ENV] of [APP_ENV] (or its default) *)
Definition get_settings (ENV aws_region : str) : dict value :=
  let config := BASE_CONFIG aws_region in
  update config (match dict_get ENV_CONFIGS ENV with
                 | Some c => c
                 | None => []
                 end).

End Settings.

(** ** Reading the blocks of a response *)

(** A marker whose first character does not occur again in it: no
    occurrence of the marker overlaps another one. *)
Definition marker (sep : str) : bool :=
  match sep with
  | [] => false
  | c :: sep' =>
      negb (existsb (fun x => if ascii_dec c x then true else false) sep')
  end.

(** In [before ++ sep ++ after] the marker occurs at this one place. *)
Definition occurs_once (sep before after : str) : Prop :=
  contains sep before = false /\ contains sep after = false.

(** A response as the prompt asks for it: some text, then the blocks, each
    after the record-boundary token *)
Definition response (boundary pre : str) (blocks : list str) : str :=
  pre ++ List.concat (map (app boundary) blocks).

(** The number of records that the text before the first boundary token
    gives: one unless it is blank *)
Definition preamble_records (pre : str) : nat :=
  if nonblank pre then 1%nat else 0%nat.

(** Two statements, two questions with their distractors, one question
    with two blanks *)
Definition tf_blocks : list str :=
  [lit " Ice floats. ANSWER: TRUE EXPLANATION: It is less dense. ";
   lit " Iron floats. ANSWER: FALSE EXPLANATION: It is denser."].

Definition mcq_blocks : list str :=
  [lit " 2 + 2? ANSWER: 4 EXPLANATION: sum DISTRACTOR1: 3 DISTRACTOR2: 5 DISTRACTOR3: 22 ";
   lit " 3 * 3? ANSWER: 9 EXPLANATION: product DISTRACTOR1: 6 DISTRACTOR2: 33 DISTRACTOR3: 0"].

Definition fib_blocks : list str :=
  [lit " The ___ is red and the ___ is blue. ANSWER: 1. rose"
       ++ Fib.NEWLINE ++ lit "2. sky EXPLANATION: colours "].

(** ** Reading the gathered results *)

(** A result on which the processing loop goes on *)
Definition passes {question_data : Type}
           (r : Orchestrator.gathered question_data) : bool :=
  match r with
  | Orchestrator.GException _ _ => false
  | Orchestrator.GResult (_, _, _, error) =>
      negb (Orchestrator.error_truthy error)
  end.

(** The exception the processing loop raises on a result that does not
    pass *)
Definition raised_by {question_data : Type}
           (r : Orchestrator.gathered question_data) : exn :=
  match r with
  | Orchestrator.GException _ e => e
  | Orchestrator.GResult (question_type, _, _, error) =>
      Exception (lit "Error in " ++ question_type ++ lit ": "
                     ++ Orchestrator.error_text error)
  end.

(** The result of a job that returned *)
Definition answered {question_data : Type} (question_type : str)
           (r : Orchestrator.gathered question_data) : Prop :=
  exists file_name data,
    r = Orchestrator.GResult (question_type, Some file_name, Some data, None).

(** A backend on which every job returns the same file and document *)
Definition always_returns (question_data : Type) (file_name : str)
           (data : question_data)
  : str -> Z -> dict Q -> dict Q -> Orchestrator.job_run question_data :=
  fun _ _ _ _ => Orchestrator.Returned file_name data.

(** ** Reading the groups and the combined distributions *)

(** The keys of a dictionary after an assignment to [k] *)
Definition seen (ks : list str) (k : str) : list str :=
  if existsb (fun k' => str_eqb k' k) ks then ks else ks ++ [k].

(** The distinct elements of [ks], each at its first occurrence *)
Definition first_seen (ks : list str) : list str := fold_left seen ks [].

Definition of_type (t : str) (c : App.config) : bool :=
  str_eqb (App.question_type c) t.

Definition of_difficulty (d : str) (c : App.config) : bool :=
  str_eqb (App.difficulty c) d.

Definition of_blooms (b : str) (c : App.config) : bool :=
  str_eqb (App.blooms_level c) b.

(** What one turn of the grouping loop does to [type_groups] *)
Definition grouped (type_groups : dict (list App.config)) (config : App.config)
  : dict (list App.config) :=
  match dict_get type_groups (App.question_type config) with
  | None => dict_set type_groups (App.question_type config) [config]
  | Some group => dict_set type_groups (App.question_type config)
                           (group ++ [config])
  end.

(** The proportion a distribution gives to a label, 0 when it has none *)
Definition proportion_of (d : dict Q) (k : str) : Q :=
  match dict_get d k with
  | Some v => v
  | None => 0%Q
  end.

(** The part of a group's total that the cells selected by [p] hold *)
Definition marginal (p : App.config -> bool) (configs : list App.config) : Q :=
  (inject_Z (zsum (map App.count (filter p configs)))
   / inject_Z (Orchestrator.total_for_type configs))%Q.

(** Three question types of one third each, one difficulty, one level *)
Definition thirds : dict Q :=
  [(lit "mcq", 1 # 3); (lit "fib", 1 # 3); (lit "tf", 1 # 3)]%Q.
Definition only (label : string) : dict Q := [(lit label, 1%Q)].

(** * Properties *)

Unset Implicit Arguments.

(** ** Basic facts *)

Lemma str_eqb_eq a b : str_eqb a b = true <-> a = b.
Proof.
  unfold str_eqb. destruct (list_eq_dec ascii_dec a b); split; congruence.
Qed.

Lemma str_eqb_refl a : str_eqb a a = true.
Proof. now apply str_eqb_eq. Qed.

Lemma str_eqb_neq a b : str_eqb a b = false <-> a <> b.
Proof.
  unfold str_eqb. destruct (list_eq_dec ascii_dec a b); split; congruence.
Qed.

Lemma zsum_from l : forall a, fold_left Z.add l a = a + zsum l.
Proof.
  unfold zsum. induction l as [|x l IH]; intros a; simpl.
  - lia.
  - rewrite IH, (IH x). lia.
Qed.

Lemma zsum_cons x l : zsum (x :: l) = x + zsum l.
Proof. unfold zsum at 1. simpl. now rewrite zsum_from. Qed.

Lemma zsum_app l1 l2 : zsum (l1 ++ l2) = zsum l1 + zsum l2.
Proof.
  induction l1 as [|x l1 IH]; simpl; [reflexivity|].
  rewrite !zsum_cons, IH. lia.
Qed.

Lemma pyround_comp x y : (x == y)%Q -> pyround x = pyround y.
Proof.
  intros E. unfold pyround.
  rewrite (Qfloor_comp _ _ E).
  assert (E' : (x - inject_Z (Qfloor y) == y - inject_Z (Qfloor y))%Q)
    by now rewrite E.
  now rewrite (Qcompare_comp _ _ E' _ _ (Qeq_refl (1 # 2))).
Qed.

Lemma pyround_inject_Z z : pyround (inject_Z z) = z.
Proof.
  unfold pyround. rewrite Qfloor_Z.
  assert (E : (inject_Z z - inject_Z z == 0)%Q) by ring.
  now rewrite (Qcompare_comp _ _ E _ _ (Qeq_refl (1 # 2))).
Qed.

Lemma pyround_zero_mul r : pyround (inject_Z 0 * r) = 0.
Proof.
  rewrite (pyround_comp _ (inject_Z 0)); [apply pyround_inject_Z | ring].
Qed.

(** ** Loops as folds *)

Section Folds.
Variables A B : Type.
Variable P : A -> Prop.
Variable step : A -> B -> A.

Lemma fold_left_preserves l :
  (forall a y, P a -> P (step a y)) ->
  forall a, P a -> P (fold_left step l a).
Proof.
  intros Hp. induction l as [|y l IH]; intros a Ha; simpl; auto.
Qed.

Lemma fold_left_establishes l x :
  In x l ->
  (forall a y, P a -> P (step a y)) ->
  (forall a, P (step a x)) ->
  forall a, P (fold_left step l a).
Proof.
  intros Hin Hp Hx. induction l as [|y l IH]; intros a; simpl.
  - destruct Hin.
  - destruct Hin as [->|Hin].
    + apply fold_left_preserves; auto.
    + now apply IH.
Qed.

Lemma fold_left_id l a :
  (forall y, In y l -> step a y = a) -> fold_left step l a = a.
Proof.
  induction l as [|y l IH]; intros H; simpl; [reflexivity|].
  rewrite (H y) by now left. apply IH. intros z Hz. apply H. now right.
Qed.
End Folds.

(** ** Dictionaries *)

Section DictFacts.
Variable V : Type.
Implicit Types (d : dict V) (k : str) (v : V).

Lemma dict_set_nonempty d k v : dict_set d k v <> [].
Proof.
  destruct d as [|[k' v'] d]; simpl; [discriminate|].
  destruct (str_eqb k' k); discriminate.
Qed.

Lemma dict_get_in d k v : In (k, v) d -> exists v', dict_get d k = Some v'.
Proof.
  induction d as [|[k' v'] d IH]; simpl; [tauto|].
  intros [E|Hin].
  - injection E as -> ->. rewrite str_eqb_refl. eauto.
  - destruct (str_eqb k' k); eauto.
Qed.

Lemma max_from_in (f : V -> Z) d : forall best,
  In (max_from f best d) (best :: d).
Proof.
  induction d as [|[k v] d IH]; intros best; simpl.
  - now left.
  - destruct (f (snd best) <? f v).
    + right. apply IH.
    + destruct (IH best) as [E|Hin]; [now left | now right; right].
Qed.

Lemma max_key_nonempty (f : V -> Z) d :
  d <> [] -> exists k v, max_key f d = Ok k /\ dict_get d k = Some v.
Proof.
  destruct d as [|kv d]; [congruence|]. intros _.
  pose proof (max_from_in f d kv) as Hin.
  destruct (max_from f kv d) as [k v] eqn:E.
  destruct (dict_get_in (kv :: d) k v Hin) as [v' Hv'].
  exists k, v'. split; [|exact Hv'].
  unfold max_key. now rewrite E.
Qed.

Lemma zsum_dict_set (f : V -> Z) d k v v' :
  dict_get d k = Some v ->
  zsum (map f (values (dict_set d k v'))) =
  zsum (map f (values d)) - f v + f v'.
Proof.
  unfold values. induction d as [|[k0 v0] d IH]; simpl; [discriminate|].
  destruct (str_eqb k0 k); simpl; intros H.
  - injection H as ->. rewrite !zsum_cons. lia.
  - rewrite !zsum_cons, (IH H). lia.
Qed.
End DictFacts.

(** The adjustment of the largest group brings the sum to the requested
    total as soon as there is a group to adjust. *)
Section Adjustment.
Variable V : Type.
Variable cnt : V -> Z.
Variable add : V -> Z -> V.
Hypothesis cnt_add : forall v z, cnt (add v z) = cnt v + z.

Lemma adjusted_total d delta :
  d <> [] ->
  exists d', adjust_largest_by cnt add d delta = Ok d' /\
             zsum (map cnt (values d')) = zsum (map cnt (values d)) + delta.
Proof.
  intros Hne. destruct (max_key_nonempty V cnt d Hne) as (k & v & Hk & Hv).
  unfold adjust_largest_by, dict_lookup. rewrite Hk. simpl. rewrite Hv. simpl.
  eexists. split; [reflexivity|].
  rewrite (zsum_dict_set V cnt _ _ _ _ Hv), cnt_add. lia.
Qed.

Lemma adjusted_empty delta :
  adjust_largest_by cnt add [] delta = Raise ValueError.
Proof. reflexivity. Qed.
End Adjustment.

(** ** The allocators *)

Lemma utils_count_add s z :
  Utils.count (Utils.add_count s z) = Utils.count s + z.
Proof. reflexivity. Qed.

Lemma app_count_add c z : App.count (App.add_count c z) = App.count c + z.
Proof. reflexivity. Qed.

Section UtilsLoops.
Variable num_questions : Z.
Variable blooms_taxonomy_distribution : dict Q.

Lemma utils_blooms_loop_keeps d r qb :
  nonempty qb ->
  nonempty (Utils.blooms_loop num_questions d r
                              blooms_taxonomy_distribution qb).
Proof.
  apply fold_left_preserves. intros a [b br] Ha. cbv beta iota zeta.
  destruct (0 <? _); [apply dict_set_nonempty | exact Ha].
Qed.

Lemma utils_blooms_loop_survivor d r b qb :
  In b blooms_taxonomy_distribution ->
  0 < Utils.leaf_count num_questions r (snd b) ->
  nonempty (Utils.blooms_loop num_questions d r
                              blooms_taxonomy_distribution qb).
Proof.
  intros Hin Hpos. revert qb.
  apply fold_left_establishes with (x := b); [exact Hin | |].
  - intros a [b' br] Ha. cbv beta iota zeta.
    destruct (0 <? _); [apply dict_set_nonempty | exact Ha].
  - intros a. destruct b as [b' br]. simpl in Hpos. cbv beta iota zeta.
    apply Z.ltb_lt in Hpos. rewrite Hpos. apply dict_set_nonempty.
Qed.

Lemma utils_blooms_loop_none d r qb :
  (forall b, In b blooms_taxonomy_distribution ->
             Utils.leaf_count num_questions r (snd b) <= 0) ->
  Utils.blooms_loop num_questions d r blooms_taxonomy_distribution qb = qb.
Proof.
  intros H. apply fold_left_id. intros [b br] Hb.
  specialize (H _ Hb). simpl in H. cbv beta iota zeta.
  destruct (0 <? _) eqn:E; [apply Z.ltb_lt in E; lia | reflexivity].
Qed.

Lemma utils_difficulty_loop_survives dd :
  Utils.survives num_questions dd blooms_taxonomy_distribution ->
  forall qb,
    nonempty (Utils.difficulty_loop num_questions dd
                                    blooms_taxonomy_distribution qb).
Proof.
  intros (d & b & Hd & Hb & Hpos).
  apply fold_left_establishes with (x := d); [exact Hd | |].
  - intros a [d' r] Ha. now apply utils_blooms_loop_keeps.
  - intros a. destruct d as [d' r].
    now apply utils_blooms_loop_survivor with (b := b).
Qed.

Lemma utils_difficulty_loop_none dd qb :
  ~ Utils.survives num_questions dd blooms_taxonomy_distribution ->
  Utils.difficulty_loop num_questions dd blooms_taxonomy_distribution qb = qb.
Proof.
  intros H. apply fold_left_id. intros [d r] Hd.
  apply utils_blooms_loop_none. intros b Hb.
  destruct (Z_lt_le_dec 0 (Utils.leaf_count num_questions r (snd b)))
    as [Hpos|Hle]; [|exact Hle].
  exfalso. apply H. now exists (d, r), b.
Qed.
End UtilsLoops.

Lemma utils_zero_no_survivor dd bd : ~ Utils.survives 0 dd bd.
Proof.
  intros (d & b & _ & _ & Hpos). unfold Utils.leaf_count in Hpos.
  rewrite (pyround_comp _ (inject_Z 0)) in Hpos by ring.
  rewrite pyround_inject_Z in Hpos. lia.
Qed.

Lemma utils_breakdown_total num_questions dd bd :
  num_questions = 0 \/ Utils.survives num_questions dd bd ->
  exists qb, Utils.question_breakdown num_questions dd bd = Ok qb /\
             Utils.total qb = num_questions.
Proof.
  intros H. unfold Utils.question_breakdown, Utils.total.
  destruct (Z.eqb_spec
              (zsum (map Utils.count
                         (values (Utils.difficulty_loop num_questions dd bd []))))
              num_questions) as [E|NE]; simpl.
  - eauto.
  - destruct H as [->|Hs].
    + exfalso. apply NE.
      now rewrite utils_difficulty_loop_none by apply utils_zero_no_survivor.
    + pose proof (utils_difficulty_loop_survives _ _ _ Hs []) as Hne.
      destruct (adjusted_total _ Utils.count Utils.add_count utils_count_add _
                  (num_questions - zsum (map Utils.count (values
                     (Utils.difficulty_loop num_questions dd bd [])))) Hne)
        as (d' & Hd' & Hsum).
      exists d'. split; [exact Hd'|]. rewrite Hsum. lia.
Qed.

Lemma utils_breakdown_raises num_questions dd bd :
  num_questions <> 0 ->
  ~ Utils.survives num_questions dd bd ->
  Utils.question_breakdown num_questions dd bd = Raise ValueError.
Proof.
  intros NE Hs. unfold Utils.question_breakdown.
  rewrite utils_difficulty_loop_none by exact Hs.
  change (zsum (map Utils.count (values []))) with 0.
  destruct (Z.eqb_spec 0 num_questions) as [E|_]; [congruence|]. reflexivity.
Qed.

Section AppLoops.
Variable blooms_dist : dict Q.

Lemma app_blooms_loop_keeps q d dc dist :
  nonempty dist -> nonempty (App.blooms_loop q d dc blooms_dist dist).
Proof.
  apply fold_left_preserves. intros a [b br] Ha. cbv beta iota zeta.
  destruct (0 <? _); [apply dict_set_nonempty | exact Ha].
Qed.

Lemma app_blooms_loop_survivor q d dc b dist :
  In b blooms_dist -> 0 < App.b_count dc (snd b) ->
  nonempty (App.blooms_loop q d dc blooms_dist dist).
Proof.
  intros Hin Hpos. revert dist.
  apply fold_left_establishes with (x := b); [exact Hin | |].
  - intros a [b' br] Ha. cbv beta iota zeta.
    destruct (0 <? _); [apply dict_set_nonempty | exact Ha].
  - intros a. destruct b as [b' br]. simpl in Hpos. cbv beta iota zeta.
    apply Z.ltb_lt in Hpos. rewrite Hpos. apply dict_set_nonempty.
Qed.

Lemma app_blooms_loop_none q d dc dist :
  (forall b, In b blooms_dist -> App.b_count dc (snd b) <= 0) ->
  App.blooms_loop q d dc blooms_dist dist = dist.
Proof.
  intros H. apply fold_left_id. intros [b br] Hb.
  specialize (H _ Hb). simpl in H. cbv beta iota zeta.
  destruct (0 <? _) eqn:E; [apply Z.ltb_lt in E; lia | reflexivity].
Qed.

Variable difficulty_dist : dict Q.

Lemma app_difficulty_loop_keeps q qc dist :
  nonempty dist ->
  nonempty (App.difficulty_loop q qc difficulty_dist blooms_dist dist).
Proof.
  apply fold_left_preserves. intros a [d r] Ha.
  now apply app_blooms_loop_keeps.
Qed.

Lemma app_difficulty_loop_survivor q qc d b dist :
  In d difficulty_dist -> In b blooms_dist ->
  0 < App.b_count (App.d_count qc (snd d)) (snd b) ->
  nonempty (App.difficulty_loop q qc difficulty_dist blooms_dist dist).
Proof.
  intros Hd Hb Hpos. revert dist.
  apply fold_left_establishes with (x := d); [exact Hd | |].
  - intros a [d' r] Ha. now apply app_blooms_loop_keeps.
  - intros a. destruct d as [d' r].
    now apply app_blooms_loop_survivor with (b := b).
Qed.

Variable total_questions : Z.
Variable question_type_dist : dict Q.

Lemma app_type_loop_survives :
  App.survives total_questions question_type_dist difficulty_dist
               blooms_dist ->
  forall dist,
    nonempty (App.type_loop total_questions question_type_dist
                            difficulty_dist blooms_dist dist).
Proof.
  intros (q & d & b & Hq & Hd & Hb & Hpos).
  apply fold_left_establishes with (x := q); [exact Hq | |].
  - intros a [q' r] Ha. now apply app_difficulty_loop_keeps.
  - intros a. destruct q as [q' r].
    now apply app_difficulty_loop_survivor with (d := d) (b := b).
Qed.

Lemma app_type_loop_none dist :
  ~ App.survives total_questions question_type_dist difficulty_dist
                 blooms_dist ->
  App.type_loop total_questions question_type_dist difficulty_dist
                blooms_dist dist = dist.
Proof.
  intros H. apply fold_left_id. intros [q qr] Hq.
  apply fold_left_id. intros [d dr] Hd.
  apply app_blooms_loop_none. intros b Hb.
  destruct (Z_lt_le_dec 0
              (App.b_count (App.d_count (App.q_count total_questions qr) dr)
                           (snd b))) as [Hpos|Hle]; [|exact Hle].
  exfalso. apply H. now exists (q, qr), (d, dr), b.
Qed.
End AppLoops.

Lemma app_zero_no_survivor qd dd bd : ~ App.survives 0 qd dd bd.
Proof.
  intros (q & d & b & _ & _ & _ & Hpos).
  unfold App.b_count, App.d_count, App.q_count in Hpos.
  rewrite !pyround_zero_mul in Hpos. lia.
Qed.

Lemma app_distribution_total total_questions qd dd bd :
  total_questions = 0 \/ App.survives total_questions qd dd bd ->
  exists dist,
    App.calculate_question_distribution total_questions qd dd bd = Ok dist /\
    App.total dist = total_questions.
Proof.
  intros H. unfold App.calculate_question_distribution, App.total.
  destruct (Z.eqb_spec
              (zsum (map App.count
                         (values (App.type_loop total_questions qd dd bd []))))
              total_questions) as [E|NE]; simpl.
  - eauto.
  - destruct H as [->|Hs].
    + exfalso. apply NE.
      now rewrite app_type_loop_none by apply app_zero_no_survivor.
    + pose proof (app_type_loop_survives _ _ _ _ Hs []) as Hne.
      destruct (adjusted_total _ App.count App.add_count app_count_add _
                  (total_questions - zsum (map App.count (values
                     (App.type_loop total_questions qd dd bd [])))) Hne)
        as (d' & Hd' & Hsum).
      exists d'. split; [exact Hd'|]. rewrite Hsum. lia.
Qed.

Lemma app_distribution_raises total_questions qd dd bd :
  total_questions <> 0 ->
  ~ App.survives total_questions qd dd bd ->
  App.calculate_question_distribution total_questions qd dd bd
  = Raise ValueError.
Proof.
  intros NE Hs. unfold App.calculate_question_distribution.
  rewrite app_type_loop_none by exact Hs.
  change (zsum (map App.count (values []))) with 0.
  destruct (Z.eqb_spec 0 total_questions) as [E|_]; [congruence|]. reflexivity.
Qed.

Lemma halves_proper a b : lit a <> lit b -> proper_distribution (halves a b).
Proof.
  intros NE. split; [|split].
  - simpl. constructor; [|constructor; [|constructor]]; simpl; intuition.
  - repeat constructor; simpl; discriminate.
  - reflexivity.
Qed.

(** No allocator returns an allocation on every non-negative total and
    proper distributions: with total 1 and two labels of proportion 1/2 in
    every dimension, every leaf count rounds to 0 and no cell is left to
    take the remainder. *)
Lemma allocation_total_counterexample :
  ~ (forall T qd dd bd,
        0 <= T ->
        proper_distribution qd -> proper_distribution dd ->
        proper_distribution bd ->
        exists dist,
          App.calculate_question_distribution T qd dd bd = Ok dist /\
          App.total dist = T)
  /\
  ~ (forall N dd bd,
        0 <= N ->
        proper_distribution dd -> proper_distribution bd ->
        exists qb,
          Utils.question_breakdown N dd bd = Ok qb /\ Utils.total qb = N).
Proof.
  split.
  - intros H.
    destruct (H 1 (halves "mcq" "tf") (halves "basic" "advanced")
                (halves "remember" "analyze")) as (dist & E & _);
      try (apply halves_proper; discriminate); [lia|].
    vm_compute in E. discriminate.
  - intros H.
    destruct (H 1 (halves "basic" "advanced") (halves "remember" "analyze"))
      as (qb & E & _);
      try (apply halves_proper; discriminate); [lia|].
    vm_compute in E. discriminate.
Qed.

(** C1: the allocators do not return an allocation for every total and
    every family of proper distributions, so the counts cannot sum to the
    total there.  With total 1 and two labels of proportion 1/2 in every
    dimension (proportions that sum to 1) every leaf count rounds to 0, the
    remainder 1 finds no cell, and the maximum of the empty dictionary
    raises [ValueError]: in the handler's allocator and in the generators'
    breakdown, with exact products and with doubles alike.  With the
    defaults of the request the handler's allocator raises for every total
    from 1 to 8. *)
Theorem allocation_raises_on_proper_distributions :
  (proper_distribution (halves "mcq" "tf")
   /\ proper_distribution (halves "basic" "advanced")
   /\ proper_distribution (halves "remember" "analyze"))
  /\ App.calculate_question_distribution
       1 (halves "mcq" "tf") (halves "basic" "advanced")
       (halves "remember" "analyze") = Raise ValueError
  /\ Utils.question_breakdown
       1 (halves "basic" "advanced") (halves "remember" "analyze")
     = Raise ValueError
  /\ Double.calculate_question_distribution
       1 (Double.literals (halves "mcq" "tf"))
       (Double.literals (halves "basic" "advanced"))
       (Double.literals (halves "remember" "analyze")) = Raise ValueError
  /\ Double.question_breakdown
       1 (Double.literals (halves "basic" "advanced"))
       (Double.literals (halves "remember" "analyze")) = Raise ValueError
  /\ (proper_distribution default_question_type_distribution
      /\ proper_distribution default_difficulty_distribution
      /\ proper_distribution default_blooms_taxonomy_distribution)
  /\ Forall
       (fun T =>
          App.calculate_question_distribution
            T default_question_type_distribution
            default_difficulty_distribution
            default_blooms_taxonomy_distribution = Raise ValueError
          /\ Double.calculate_question_distribution
               T (Double.literals default_question_type_distribution)
               (Double.literals default_difficulty_distribution)
               (Double.literals default_blooms_taxonomy_distribution)
             = Raise ValueError)
       below_nine.
Proof.
  split; [repeat split; apply halves_proper; discriminate|].
  do 4 (split; [vm_compute; reflexivity|]).
  split.
  - repeat split;
      try (repeat constructor; simpl; intuition discriminate);
      try discriminate.
  - repeat constructor; vm_compute; reflexivity.
Qed.

(** C2: at total 1 with two labels of proportion 1/2 per dimension every
    leaf count is 0 and the remainder is 1; the correction step then takes
    the maximum of an empty dictionary and the call raises [ValueError],
    in the request handler's allocator and in the generators' one. *)
Theorem empty_allocation_raises :
  ~ App.survives 1 (halves "mcq" "tf") (halves "basic" "advanced")
                 (halves "remember" "analyze")
  /\ App.calculate_question_distribution
       1 (halves "mcq" "tf") (halves "basic" "advanced")
       (halves "remember" "analyze") = Raise ValueError
  /\ ~ Utils.survives 1 (halves "basic" "advanced")
                      (halves "remember" "analyze")
  /\ Utils.question_breakdown
       1 (halves "basic" "advanced") (halves "remember" "analyze")
     = Raise ValueError.
Proof.
  repeat split; try reflexivity.
  - intros (q & d & b & Hq & Hd & Hb & Hpos).
    simpl in Hq, Hd, Hb.
    destruct Hq as [<-|[<-|[]]]; destruct Hd as [<-|[<-|[]]];
      destruct Hb as [<-|[<-|[]]]; vm_compute in Hpos; discriminate.
  - intros (d & b & Hd & Hb & Hpos).
    simpl in Hd, Hb.
    destruct Hd as [<-|[<-|[]]]; destruct Hb as [<-|[<-|[]]];
      vm_compute in Hpos; discriminate.
Qed.

(** ** The sequence builder *)

Lemma append_times_repeat n x : forall sequence,
  Utils.append_times n x sequence = sequence ++ repeat x n.
Proof.
  induction n as [|n IH]; intros sequence; simpl.
  - now rewrite app_nil_r.
  - now rewrite IH, <- app_assoc.
Qed.

Lemma sequence_from qb : forall sequence,
  fold_left
    (fun sequence '(combo_key, specs) =>
       Utils.append_times (Z.to_nat (Utils.count specs))
                          (Utils.difficulty specs, Utils.blooms_level specs)
                          sequence)
    qb sequence
  = sequence ++ flat_map cell_run qb.
Proof.
  induction qb as [|[k s] qb IH]; intros sequence; simpl.
  - now rewrite app_nil_r.
  - now rewrite IH, append_times_repeat, <- app_assoc.
Qed.

Lemma create_question_sequence_runs qb :
  Utils.create_question_sequence qb = flat_map cell_run qb.
Proof. unfold Utils.create_question_sequence. now rewrite sequence_from. Qed.

Lemma runs_length qb :
  counts_nonneg qb ->
  Z.of_nat (List.length (flat_map cell_run qb)) = Utils.total qb.
Proof.
  unfold Utils.total, values.
  induction qb as [|[k s] qb IH]; intros H; simpl; [reflexivity|].
  rewrite length_app, zsum_cons, Nat2Z.inj_add, IH.
  - unfold cell_run. simpl. rewrite repeat_length, Z2Nat.id; [lia|].
    apply (H k). now left.
  - intros k' s' Hin. apply (H k'). now right.
Qed.

Lemma counts_nonneg_firstn i qb :
  counts_nonneg qb -> counts_nonneg (firstn i qb).
Proof.
  intros H k s Hin. apply (H k).
  rewrite <- (firstn_skipn i qb). apply in_or_app. now left.
Qed.

Lemma runs_position qb i k s j :
  counts_nonneg qb ->
  nth_error qb i = Some (k, s) ->
  0 <= j < Utils.count s ->
  nth_error (flat_map cell_run qb)
            (Z.to_nat (Utils.total (firstn i qb) + j))
  = Some (Utils.labels s).
Proof.
  intros Hnn Hi Hj.
  pose proof (runs_length _ (counts_nonneg_firstn i _ Hnn)) as Hlen.
  rewrite <- (firstn_skipn_middle _ _ Hi) at 1.
  rewrite flat_map_app. simpl.
  rewrite nth_error_app2 by lia.
  replace (Z.to_nat (Utils.total (firstn i qb) + j)
           - List.length (flat_map cell_run (firstn i qb)))%nat
    with (Z.to_nat j) by lia.
  rewrite nth_error_app1.
  - unfold cell_run. simpl. apply nth_error_repeat. lia.
  - unfold cell_run. simpl. rewrite repeat_length. lia.
Qed.

(** C3: the sequence built from an allocation with non-negative counts is
    the concatenation, in the iteration order of the mapping, of one run per
    cell holding the cell's (difficulty, blooms level) pair [count] times:
    the run of cell [i] starts right after the runs of the cells before it,
    the length of the sequence is the sum of all counts, and the allocation
    [{(basic, remember): 2, (advanced, analyze): 3}] gives the five-element
    sequence of the specification. *)
Theorem create_question_sequence_spec (qb : dict Utils.specs) :
  counts_nonneg qb ->
  Utils.create_question_sequence qb = flat_map cell_run qb
  /\ Z.of_nat (List.length (Utils.create_question_sequence qb)) = Utils.total qb
  /\ (forall i k s j,
         nth_error qb i = Some (k, s) ->
         0 <= j < Utils.count s ->
         nth_error (Utils.create_question_sequence qb)
                   (Z.to_nat (Utils.total (firstn i qb) + j))
         = Some (Utils.difficulty s, Utils.blooms_level s))
  /\ Utils.create_question_sequence Utils.two_cells
     = [(lit "basic", lit "remember"); (lit "basic", lit "remember");
        (lit "advanced", lit "analyze"); (lit "advanced", lit "analyze");
        (lit "advanced", lit "analyze")].
Proof.
  intros Hnn. rewrite create_question_sequence_runs.
  split; [reflexivity|]. split; [now apply runs_length|].
  split; [|reflexivity].
  intros i k s j Hi Hj. exact (runs_position qb i k s j Hnn Hi Hj).
Qed.

Lemma create_question_sequence_spec_witness :
  counts_nonneg Utils.two_cells
  /\ Z.of_nat (List.length (Utils.create_question_sequence Utils.two_cells)) = 5
  /\ nth_error (Utils.create_question_sequence Utils.two_cells) 3
     = Some (lit "advanced", lit "analyze").
Proof.
  assert (H : counts_nonneg Utils.two_cells).
  { intros k s [E|[E|[]]]; injection E as _ <-; simpl; lia. }
  destruct (create_question_sequence_spec _ H) as (_ & Hlen & Hpos & _).
  split; [exact H|]. split; [exact Hlen|].
  apply (Hpos 1%nat (Utils.combo_key (lit "advanced") (lit "analyze"))
              (Utils.mk_specs (lit "advanced") (lit "analyze") 3) 1);
    [reflexivity | simpl; lia].
Defined.

(** ** Strings: searching and splitting *)

Lemma startswith_iff m : forall s,
  startswith m s = true <-> exists q, s = m ++ q.
Proof.
  induction m as [|a m IH]; intros s; simpl.
  - split; [intros _; now exists s | reflexivity].
  - destruct s as [|b s].
    + split; [discriminate | intros [q E]; discriminate].
    + destruct (ascii_dec a b) as [->|NE].
      * rewrite IH. split; intros [q E]; exists q; congruence.
      * split; [discriminate | intros [q E]; congruence].
Qed.

Lemma contains_iff m : forall s, contains m s = true <-> substring m s.
Proof.
  unfold substring. induction s as [|c s IH]; simpl.
  - rewrite startswith_iff. split.
    + intros [q E]. exists [], q. exact E.
    + intros (p & q & E). destruct p; simpl in E.
      * now exists q.
      * discriminate.
  - rewrite orb_true_iff, startswith_iff, IH. split.
    + intros [[q E]|(p & q & E)].
      * exists [], q. exact E.
      * exists (c :: p), q. simpl. now rewrite E.
    + intros (p & q & E). destruct p as [|c' p]; simpl in E.
      * left. now exists q.
      * right. exists p, q. congruence.
Qed.

Lemma substring_trans x y z : substring x y -> substring y z -> substring x z.
Proof.
  intros (p & q & ->) (p' & q' & ->). exists (p' ++ p), (q ++ q').
  now rewrite <- !app_assoc.
Qed.

Lemma substring_refl x : substring x x.
Proof. exists [], []. simpl. now rewrite app_nil_r. Qed.

Lemma absent_in_substring m x s :
  substring x s -> contains m s = false -> contains m x = false.
Proof.
  intros Hx Hs. destruct (contains m x) eqn:E; [|reflexivity].
  apply contains_iff in E. pose proof (substring_trans _ _ _ E Hx) as H.
  apply contains_iff in H. congruence.
Qed.

Lemma split_go_nonempty sep : forall s budget skip cur,
  split_go sep budget skip cur s <> [].
Proof.
  induction s as [|c s IH]; intros budget skip cur; simpl; [discriminate|].
  destruct skip; [|apply IH].
  destruct budget as [[|n]|]; try apply IH;
    destruct (startswith sep (c :: s)); try apply IH; discriminate.
Qed.

Lemma split_go_two sep : sep <> [] -> forall s budget cur,
  budget <> Some O -> contains sep s = true ->
  exists p0 p1 rest, split_go sep budget O cur s = p0 :: p1 :: rest.
Proof.
  intros Hsep. induction s as [|c s IH]; intros budget cur Hb Hin.
  - simpl in Hin. destruct sep; [congruence | discriminate].
  - simpl in Hin. cbn [split_go].
    assert (Hcase :
      exists p0 p1 rest,
        (if startswith sep (c :: s)
         then rev cur :: split_go sep (option_map Nat.pred budget)
                                  (Nat.pred (List.length sep)) [] s
         else split_go sep budget O (c :: cur) s) = p0 :: p1 :: rest).
    { destruct (startswith sep (c :: s)) eqn:E.
      - destruct (split_go sep (option_map Nat.pred budget)
                           (Nat.pred (List.length sep)) [] s) as [|p1 rest] eqn:E';
          [now apply split_go_nonempty in E'|].
        now exists (rev cur), p1, rest.
      - simpl in Hin. now apply IH. }
    destruct budget as [[|n]|]; [congruence | exact Hcase | exact Hcase].
Qed.

Lemma split_two sep s :
  sep <> [] -> contains sep s = true ->
  exists p0 p1 rest, split sep s = p0 :: p1 :: rest.
Proof. intros Hsep Hin. now apply split_go_two. Qed.

Lemma split_max_two sep n s :
  sep <> [] -> contains sep s = true ->
  exists p0 p1 rest, split_max sep (S n) s = p0 :: p1 :: rest.
Proof. intros Hsep Hin. now apply split_go_two. Qed.

Lemma split_head sep s : exists p0 rest, split sep s = p0 :: rest.
Proof.
  destruct (split sep s) as [|p0 rest] eqn:E;
    [now apply split_go_nonempty in E | eauto].
Qed.

Lemma join_cons sep p ps :
  ps <> [] -> join sep (p :: ps) = p ++ sep ++ join sep ps.
Proof. destruct ps; [congruence | reflexivity]. Qed.

Lemma startswith_skipn sep s :
  startswith sep s = true -> s = sep ++ skipn (List.length sep) s.
Proof.
  intros H. apply startswith_iff in H. destruct H as [q ->].
  now rewrite skipn_app, skipn_all, Nat.sub_diag.
Qed.

Lemma startswith_length sep s :
  startswith sep s = true -> (List.length sep <= List.length s)%nat.
Proof.
  intros H. apply startswith_iff in H. destruct H as [q ->].
  rewrite length_app. lia.
Qed.

(** Joining the pieces with the separator gives the text back. *)
Lemma join_split_go sep : sep <> [] -> forall s budget skip cur,
  (skip <= List.length s)%nat ->
  join sep (split_go sep budget skip cur s) = rev cur ++ skipn skip s.
Proof.
  intros Hsep. induction s as [|c s IH]; intros budget skip cur Hle.
  - simpl in Hle. replace skip with O by lia. simpl. now rewrite app_nil_r.
  - cbn [split_go]. destruct skip as [|k].
    + assert (Hkeep :
        join sep (split_go sep budget O (c :: cur) s) = rev cur ++ c :: s).
      { rewrite IH by (simpl; lia). simpl. now rewrite <- app_assoc. }
      assert (Hcase :
        join sep (if startswith sep (c :: s)
                  then rev cur :: split_go sep (option_map Nat.pred budget)
                                           (Nat.pred (List.length sep)) [] s
                  else split_go sep budget O (c :: cur) s)
        = rev cur ++ c :: s).
      { destruct (startswith sep (c :: s)) eqn:E; [|exact Hkeep].
        rewrite join_cons by apply split_go_nonempty.
        pose proof (startswith_length _ _ E) as Hlen. simpl in Hlen.
        rewrite IH by lia.
        pose proof (startswith_skipn _ _ E) as Hs.
        destruct sep as [|a sep']; [congruence|].
        simpl in Hs |- *. f_equal. symmetry. exact Hs. }
      destruct budget as [[|n]|]; [exact Hkeep | exact Hcase | exact Hcase].
    + simpl in Hle. rewrite IH by lia. reflexivity.
Qed.

Lemma join_split sep s : sep <> [] -> join sep (split sep s) = s.
Proof. intros Hsep. unfold split. now rewrite join_split_go by (auto; lia). Qed.

(** The marker followed by the second piece of a split is a part of the
    text that was split. *)
Lemma split_second_substring sep s p0 p1 rest :
  sep <> [] -> split sep s = p0 :: p1 :: rest -> substring (sep ++ p1) s.
Proof.
  intros Hsep E. pose proof (join_split sep s Hsep) as J. rewrite E in J.
  rewrite join_cons in J by discriminate.
  destruct rest as [|p2 rest].
  - exists p0, []. simpl in J. now rewrite app_nil_r.
  - rewrite join_cons in J by discriminate.
    exists p0, (sep ++ join sep (p2 :: rest)).
    now rewrite <- J, <- !app_assoc.
Qed.

(** ** The parsing loop *)

Ltac inv_ok H := injection H as H; subst.

Ltac conj := repeat match goal with |- _ /\ _ => split end.

Section ParseLoopFacts.
Variable question_obj : Type.
Variable extract : str -> result question_obj.
Variable assign : question_obj -> str -> str -> question_obj.
Hypothesis extract_returns : forall block, returns (extract block).

Lemma parse_blocks_spec question_sequence : forall blocks question_index responses,
  (question_index <= List.length question_sequence)%nat ->
  exists records,
    parse_blocks extract assign blocks question_sequence question_index
                 responses = Ok (responses ++ records)
    /\ List.length records = List.length blocks
    /\ forall i block,
         nth_error blocks i = Some block ->
         exists o,
           extract block = Ok o /\
           nth_error records i
           = Some (attach assign question_sequence (question_index + i) o).
Proof.
  induction blocks as [|block rest IH]; intros question_index responses Hle.
  - exists []. simpl. rewrite app_nil_r. repeat split.
    intros [|i] b; discriminate.
  - destruct (extract_returns block) as [o Ho]. cbn [parse_blocks].
    rewrite Ho. cbn [bind].
    destruct (Nat.ltb_spec question_index (List.length question_sequence))
      as [Hlt|Hge].
    + destruct (nth_error question_sequence question_index) as [[d b]|] eqn:E;
        [|apply nth_error_None in E; lia].
      unfold index. rewrite E. cbn [bind].
      destruct (IH (S question_index)
                   (responses ++ [assign o d b]) Hlt)
        as (records & Hrun & Hlen & Hrec).
      exists (assign o d b :: records). rewrite Hrun, <- app_assoc.
      split; [reflexivity|]. split; [simpl; now rewrite Hlen|].
      intros [|i] blk Hi; simpl in Hi.
      * inv_ok Hi. exists o. split; [exact Ho|].
        simpl. unfold attach. now rewrite Nat.add_0_r, E.
      * destruct (Hrec i blk Hi) as (o' & Ho' & Hn). exists o'.
        split; [exact Ho'|]. simpl. rewrite Hn. do 2 f_equal. lia.
    + destruct (IH question_index (responses ++ [o]) Hle)
        as (records & Hrun & Hlen & Hrec).
      exists (o :: records). rewrite Hrun, <- app_assoc.
      split; [reflexivity|]. split; [simpl; now rewrite Hlen|].
      assert (Hnone : forall j,
                 attach assign question_sequence (question_index + j)
                 = fun o => o).
      { intros j. unfold attach.
        destruct (nth_error question_sequence (question_index + j)) eqn:E;
          [|reflexivity].
        assert (question_index + j < List.length question_sequence)%nat
          by (apply nth_error_Some; congruence). lia. }
      intros [|i] blk Hi; simpl in Hi.
      * inv_ok Hi. exists o. split; [exact Ho|]. simpl. now rewrite Hnone.
      * destruct (Hrec i blk Hi) as (o' & Ho' & Hn). exists o'.
        split; [exact Ho'|]. simpl. rewrite Hn. now rewrite !Hnone.
Qed.

(** The response parsed against a breakdown: one record per stripped
    non-blank block, in order, record [i] being the extraction of block
    [i] with the metadata of position [i] of the sequence attached when
    the sequence is that long. *)
Lemma parse_response_spec boundary res question_breakdown :
  exists records,
    parse_response extract assign boundary res question_breakdown = Ok records
    /\ List.length records
       = List.length (stripped_blocks (split boundary res))
    /\ forall i block,
         nth_error (stripped_blocks (split boundary res)) i = Some block ->
         exists o,
           extract block = Ok o /\
           nth_error records i
           = Some (attach assign
                          (Utils.create_question_sequence question_breakdown)
                          i o).
Proof.
  unfold parse_response.
  destruct (parse_blocks_spec
              (Utils.create_question_sequence question_breakdown)
              (stripped_blocks (split boundary res)) O []
              (Nat.le_0_l _)) as (records & Hrun & Hlen & Hrec).
  exists records. split; [exact Hrun|]. split; [exact Hlen|]. exact Hrec.
Qed.

Lemma parse_response_record boundary res question_breakdown records i r :
  parse_response extract assign boundary res question_breakdown = Ok records ->
  nth_error records i = Some r ->
  exists block o,
    nth_error (stripped_blocks (split boundary res)) i = Some block
    /\ extract block = Ok o
    /\ r = attach assign (Utils.create_question_sequence question_breakdown)
                  i o.
Proof.
  intros Hrun Hr.
  destruct (parse_response_spec boundary res question_breakdown)
    as (records' & Hrun' & Hlen & Hrec).
  rewrite Hrun in Hrun'. inv_ok Hrun'.
  assert (Hi : (i < List.length records')%nat)
    by (apply nth_error_Some; congruence).
  rewrite Hlen in Hi. apply nth_error_Some in Hi.
  destruct (nth_error (stripped_blocks (split boundary res)) i)
    as [block|] eqn:Hb; [|congruence].
  destruct (Hrec i block Hb) as (o & Ho & Hn).
  exists block, o. conj; auto. congruence.
Qed.

(** Metadata come from the position in the sequence and from nowhere
    else, for any reading [get] of a metadata field that [extract] leaves
    empty and [assign] sets from the [pick]ed component. *)
Variable get : question_obj -> str.
Variable pick : str * str -> str.
Hypothesis extract_leaves_empty :
  forall block o, extract block = Ok o -> get o = [].
Hypothesis assign_sets : forall o d b, get (assign o d b) = pick (d, b).

Lemma parse_response_metadata boundary res question_breakdown records i r :
  parse_response extract assign boundary res question_breakdown = Ok records ->
  nth_error records i = Some r ->
  get r = match nth_error
                  (Utils.create_question_sequence question_breakdown) i with
          | Some labels => pick labels
          | None => []
          end.
Proof.
  intros Hrun Hr.
  destruct (parse_response_record _ _ _ _ _ _ Hrun Hr)
    as (block & o & _ & Ho & ->).
  unfold attach.
  destruct (nth_error (Utils.create_question_sequence question_breakdown) i)
    as [[d b]|].
  - apply assign_sets.
  - now apply extract_leaves_empty with (block := block).
Qed.
End ParseLoopFacts.

(** ** Field extraction never fails *)

Lemma ANSWER_nonempty : ANSWER <> [].
Proof. discriminate. Qed.

Lemma EXPLANATION_nonempty : EXPLANATION <> [].
Proof. discriminate. Qed.

(** [text.split(sep)[1]] under the guard [sep in text] *)
Ltac split_guarded sep_nonempty E p0 p1 :=
  let rest := fresh "rest" in
  let Hs := fresh "Hs" in
  destruct (split_two _ _ sep_nonempty E) as (p0 & p1 & rest & Hs);
  rewrite Hs; cbn [index nth_error bind];
  pose proof (split_second_substring _ _ _ _ _ sep_nonempty Hs).

(** [text.split(sep)[0]] *)
Ltac split_first sep text p0 :=
  let rest := fresh "rest" in
  let Hs := fresh "Hs" in
  destruct (split_head sep text) as (p0 & rest & Hs);
  rewrite Hs; cbn [index nth_error bind].

Section McqFacts.
Import Mcq.

Lemma mcq_extract_question_spec o block :
  exists o' block',
    extract_question (o, block) = Ok (o', block')
    /\ substring block' block
    /\ answer o' = answer o /\ explanation o' = explanation o
    /\ distractors o' = distractors o
    /\ difficulty o' = difficulty o /\ blooms_level o' = blooms_level o
    /\ (contains ANSWER block = false -> o' = o /\ block' = block).
Proof.
  unfold extract_question. destruct (contains ANSWER block) eqn:E.
  - split_guarded ANSWER_nonempty E p0 p1.
    do 2 eexists. split; [reflexivity|]. conj; auto; discriminate.
  - exists o, block. conj; auto using substring_refl.
Qed.

Lemma mcq_extract_answer_spec o block :
  exists o' block',
    extract_answer (o, block) = Ok (o', block')
    /\ substring block' block
    /\ question o' = question o /\ explanation o' = explanation o
    /\ distractors o' = distractors o
    /\ difficulty o' = difficulty o /\ blooms_level o' = blooms_level o
    /\ (contains ANSWER block = false \/ contains EXPLANATION block = false ->
        o' = o /\ block' = block).
Proof.
  unfold extract_answer.
  destruct (contains ANSWER block) eqn:EA;
    [destruct (contains EXPLANATION block) eqn:EE|]; cbn [andb].
  - split_guarded ANSWER_nonempty EA p0 p1.
    split_first EXPLANATION p1 a.
    split_guarded EXPLANATION_nonempty EE e0 e1.
    do 2 eexists. split; [reflexivity|].
    conj; auto; intros [?|?]; discriminate.
  - exists o, block. conj; auto using substring_refl.
  - exists o, block. conj; auto using substring_refl.
Qed.

Lemma DISTRACTOR1_nonempty : DISTRACTOR1 <> [].
Proof. discriminate. Qed.

Lemma mcq_extract_explanation_spec o block :
  exists o',
    extract_explanation (o, block) = Ok (o', block)
    /\ question o' = question o /\ answer o' = answer o
    /\ distractors o' = distractors o
    /\ difficulty o' = difficulty o /\ blooms_level o' = blooms_level o
    /\ (contains EXPLANATION block = false -> o' = o).
Proof.
  unfold extract_explanation. destruct (contains EXPLANATION block) eqn:EE.
  - split_guarded EXPLANATION_nonempty EE e0 e1.
    destruct (contains DISTRACTOR1 e1) eqn:ED.
    + split_first DISTRACTOR1 e1 e.
      eexists. split; [reflexivity|]. conj; auto; discriminate.
    + eexists. split; [reflexivity|]. conj; auto; discriminate.
  - exists o. conj; auto.
Qed.

Lemma mcq_distractor_step_spec block o i key :
  key <> [] ->
  exists o',
    distractor_step block o i key = Ok o'
    /\ question o' = question o /\ answer o' = answer o
    /\ explanation o' = explanation o
    /\ difficulty o' = difficulty o /\ blooms_level o' = blooms_level o
    /\ (contains key block = false -> o' = o).
Proof.
  intros Hkey. unfold distractor_step.
  destruct (contains key block) eqn:E.
  - split_guarded Hkey E p0 after.
    destruct (if (i + 1 <? List.length distractor_keys)%nat
              then nth_error distractor_keys (i + 1) else None)
      as [next_key|].
    + destruct (truthy next_key && contains next_key block).
      * split_first next_key after d.
        eexists. split; [reflexivity|]. conj; auto; discriminate.
      * eexists. split; [reflexivity|]. conj; auto; discriminate.
    + eexists. split; [reflexivity|]. conj; auto; discriminate.
  - exists o. conj; auto.
Qed.

Lemma mcq_distractor_loop_spec block : forall ks o i,
  Forall (fun key => key <> []) ks ->
  exists o',
    distractor_loop block o i ks = Ok o'
    /\ question o' = question o /\ answer o' = answer o
    /\ explanation o' = explanation o
    /\ difficulty o' = difficulty o /\ blooms_level o' = blooms_level o
    /\ (Forall (fun key => contains key block = false) ks -> o' = o).
Proof.
  induction ks as [|key ks IH]; intros o i Hne.
  - exists o. conj; auto.
  - inversion Hne as [|? ? Hkey Hks]; subst.
    destruct (mcq_distractor_step_spec block o i key Hkey)
      as (o1 & E1 & Hq1 & Ha1 & He1 & Hd1 & Hb1 & Hno1).
    destruct (IH o1 (S i) Hks)
      as (o2 & E2 & Hq2 & Ha2 & He2 & Hd2 & Hb2 & Hno2).
    exists o2. cbn [distractor_loop]. rewrite E1. cbn [bind].
    split; [exact E2|]. conj; try congruence.
    intros Hall. inversion Hall; subst.
    rewrite Hno2 by assumption. now apply Hno1.
Qed.

Lemma distractor_keys_nonempty : Forall (fun key => key <> []) distractor_keys.
Proof. repeat constructor; discriminate. Qed.

(** What [extract] leaves in a record, whatever the block holds. *)
Lemma mcq_extract_spec block :
  exists o,
    extract block = Ok o
    /\ difficulty o = [] /\ blooms_level o = []
    /\ (contains ANSWER block = false -> answer o = [])
    /\ (contains EXPLANATION block = false -> explanation o = [])
    /\ (Forall (fun key => contains key block = false) distractor_keys ->
        distractors o = []).
Proof.
  unfold extract.
  destruct (mcq_extract_question_spec default_obj block)
    as (o1 & b1 & E1 & S1 & Ha1 & He1 & Hds1 & Hd1 & Hb1 & Hno1).
  rewrite E1. cbn [bind]. cbn in Ha1, He1, Hds1, Hd1, Hb1.
  destruct (mcq_extract_answer_spec o1 b1)
    as (o2 & b2 & E2 & S2 & Hq2 & He2 & Hds2 & Hd2 & Hb2 & Hno2).
  rewrite E2. cbn [bind].
  destruct (mcq_extract_explanation_spec o2 b2)
    as (o3 & E3 & Hq3 & Ha3 & Hds3 & Hd3 & Hb3 & Hno3).
  rewrite E3. cbn [bind]. unfold extract_distractors.
  destruct (mcq_distractor_loop_spec b2 distractor_keys o3 O
              distractor_keys_nonempty)
    as (o4 & E4 & Hq4 & Ha4 & He4 & Hd4 & Hb4 & Hno4).
  exists o4. split; [exact E4|].
  pose proof (substring_trans _ _ _ S2 S1) as S21.
  split; [congruence|]. split; [congruence|]. split; [|split].
  - intros HA. destruct (Hno1 HA) as [-> ->].
    destruct (Hno2 (or_introl HA)) as [-> ->]. now rewrite Ha4, Ha3.
  - intros HE.
    pose proof (absent_in_substring _ _ _ S1 HE) as HE1.
    destruct (Hno2 (or_intror HE1)) as [-> ->].
    now rewrite He4, (Hno3 HE1).
  - intros HD. rewrite Hno4; [congruence|].
    eapply Forall_impl; [|exact HD].
    intros key Hk. exact (absent_in_substring _ _ _ S21 Hk).
Qed.
End McqFacts.

Section TfFacts.
Import Tf.

Lemma tf_extract_statement_spec o block :
  exists o' block',
    extract_statement (o, block) = Ok (o', block')
    /\ substring block' block
    /\ answer o' = answer o /\ explanation o' = explanation o
    /\ difficulty o' = difficulty o /\ blooms_level o' = blooms_level o
    /\ (contains ANSWER block = false -> o' = o /\ block' = block).
Proof.
  unfold extract_statement. destruct (contains ANSWER block) eqn:E.
  - split_guarded ANSWER_nonempty E p0 p1.
    do 2 eexists. split; [reflexivity|]. conj; auto; discriminate.
  - exists o, block. conj; auto using substring_refl.
Qed.

Lemma tf_extract_answer_spec o block :
  exists o',
    extract_answer (o, block) = Ok (o', block)
    /\ statement o' = statement o /\ explanation o' = explanation o
    /\ difficulty o' = difficulty o /\ blooms_level o' = blooms_level o
    /\ (contains ANSWER block = false -> o' = o).
Proof.
  unfold extract_answer.
  destruct (contains ANSWER block) eqn:EA;
    [destruct (contains EXPLANATION block) eqn:EE|]; cbn [andb].
  - split_guarded ANSWER_nonempty EA p0 p1.
    split_first EXPLANATION p1 a.
    eexists. split; [reflexivity|]. conj; auto; discriminate.
  - split_guarded ANSWER_nonempty EA p0 p1.
    eexists. split; [reflexivity|]. conj; auto; discriminate.
  - exists o. conj; auto.
Qed.

Lemma tf_extract_explanation_spec o block :
  exists o',
    extract_explanation (o, block) = Ok o'
    /\ statement o' = statement o /\ answer o' = answer o
    /\ difficulty o' = difficulty o /\ blooms_level o' = blooms_level o
    /\ (contains EXPLANATION block = false -> o' = o).
Proof.
  unfold extract_explanation. destruct (contains EXPLANATION block) eqn:EE.
  - split_guarded EXPLANATION_nonempty EE e0 e1.
    eexists. split; [reflexivity|]. conj; auto; discriminate.
  - exists o. conj; auto.
Qed.

Lemma tf_extract_spec block :
  exists o,
    extract block = Ok o
    /\ difficulty o = [] /\ blooms_level o = []
    /\ (contains ANSWER block = false -> answer o = [])
    /\ (contains EXPLANATION block = false -> explanation o = []).
Proof.
  unfold extract.
  destruct (tf_extract_statement_spec default_obj block)
    as (o1 & b1 & E1 & S1 & Ha1 & He1 & Hd1 & Hb1 & Hno1).
  rewrite E1. cbn [bind]. cbn in Ha1, He1, Hd1, Hb1.
  destruct (tf_extract_answer_spec o1 b1)
    as (o2 & E2 & Hs2 & He2 & Hd2 & Hb2 & Hno2).
  rewrite E2. cbn [bind].
  destruct (tf_extract_explanation_spec o2 b1)
    as (o3 & E3 & Hs3 & Ha3 & Hd3 & Hb3 & Hno3).
  exists o3. split; [exact E3|].
  split; [congruence|]. split; [congruence|]. split.
  - intros HA. destruct (Hno1 HA) as [-> ->].
    now rewrite Ha3, (Hno2 HA).
  - intros HE.
    pose proof (absent_in_substring _ _ _ S1 HE) as HE1.
    rewrite (Hno3 HE1). congruence.
Qed.
End TfFacts.

Section FibFacts.
Import Fib.

Lemma DOT_SPACE_nonempty : DOT_SPACE <> [].
Proof. discriminate. Qed.

Lemma fib_extract_question_spec o block :
  exists o' block',
    extract_question (o, block) = Ok (o', block')
    /\ substring block' block
    /\ answer o' = answer o /\ explanation o' = explanation o
    /\ difficulty o' = difficulty o /\ blooms_level o' = blooms_level o
    /\ (contains ANSWER block = false -> o' = o /\ block' = block).
Proof.
  unfold extract_question. destruct (contains ANSWER block) eqn:E.
  - split_guarded ANSWER_nonempty E p0 p1.
    do 2 eexists. split; [reflexivity|]. conj; auto; discriminate.
  - exists o, block. conj; auto using substring_refl.
Qed.

Lemma fib_answer_line_returns answer line : returns (answer_line answer line).
Proof.
  unfold answer_line, returns.
  destruct (strip line) as [|c l] eqn:E; cbn [truthy]; [eauto|].
  cbn [index nth_error bind].
  destruct (isdigit c); cbn [andb]; [|eauto].
  destruct (contains DOT_SPACE (c :: l)) eqn:ED; [|eauto].
  destruct (split_max_two _ O _ DOT_SPACE_nonempty ED)
    as (p0 & p1 & rest & Hs).
  rewrite Hs. cbn [index nth_error bind]. eauto.
Qed.

Lemma fib_answer_lines_loop_returns answer_lines : forall answer,
  returns (answer_lines_loop answer answer_lines).
Proof.
  induction answer_lines as [|line rest IH]; intros answer.
  - now exists answer.
  - destruct (fib_answer_line_returns answer line) as [answer' E].
    cbn [answer_lines_loop]. rewrite E. cbn [bind]. apply IH.
Qed.

Lemma fib_extract_answer_spec o block :
  exists o',
    extract_answer (o, block) = Ok (o', block)
    /\ question o' = question o /\ explanation o' = explanation o
    /\ difficulty o' = difficulty o /\ blooms_level o' = blooms_level o
    /\ (contains ANSWER block = false \/ contains EXPLANATION block = false ->
        o' = o).
Proof.
  unfold extract_answer.
  destruct (contains ANSWER block) eqn:EA;
    [destruct (contains EXPLANATION block) eqn:EE|]; cbn [andb].
  - split_guarded ANSWER_nonempty EA p0 p1.
    split_first EXPLANATION p1 a.
    destruct (fib_answer_lines_loop_returns (split NEWLINE (strip a))
                                            (answer o)) as [items E].
    rewrite E. cbn [bind].
    eexists. split; [reflexivity|].
    conj; auto; intros [?|?]; discriminate.
  - exists o. conj; auto.
  - exists o. conj; auto.
Qed.

Lemma fib_extract_explanation_spec o block :
  exists o',
    extract_explanation (o, block) = Ok o'
    /\ question o' = question o /\ answer o' = answer o
    /\ difficulty o' = difficulty o /\ blooms_level o' = blooms_level o
    /\ (contains EXPLANATION block = false -> o' = o).
Proof.
  unfold extract_explanation. destruct (contains EXPLANATION block) eqn:EE.
  - split_guarded EXPLANATION_nonempty EE e0 e1.
    eexists. split; [reflexivity|]. conj; auto; discriminate.
  - exists o. conj; auto.
Qed.

Lemma fib_extract_spec block :
  exists o,
    extract block = Ok o
    /\ difficulty o = [] /\ blooms_level o = []
    /\ (contains ANSWER block = false -> answer o = [])
    /\ (contains EXPLANATION block = false ->
        explanation o = [] /\ answer o = []).
Proof.
  unfold extract.
  destruct (fib_extract_question_spec default_obj block)
    as (o1 & b1 & E1 & S1 & Ha1 & He1 & Hd1 & Hb1 & Hno1).
  rewrite E1. cbn [bind]. cbn in Ha1, He1, Hd1, Hb1.
  destruct (fib_extract_answer_spec o1 b1)
    as (o2 & E2 & Hq2 & He2 & Hd2 & Hb2 & Hno2).
  rewrite E2. cbn [bind].
  destruct (fib_extract_explanation_spec o2 b1)
    as (o3 & E3 & Hq3 & Ha3 & Hd3 & Hb3 & Hno3).
  exists o3. split; [exact E3|].
  split; [congruence|]. split; [congruence|]. split.
  - intros HA. destruct (Hno1 HA) as [-> ->].
    now rewrite Ha3, (Hno2 (or_introl HA)).
  - intros HE.
    pose proof (absent_in_substring _ _ _ S1 HE) as HE1.
    rewrite (Hno3 HE1), (Hno2 (or_intror HE1)). now split.
Qed.
End FibFacts.

(** ** The three parsers *)

Lemma mcq_extract_returns block : returns (Mcq.extract block).
Proof. destruct (mcq_extract_spec block) as (o & E & _). now exists o. Qed.

Lemma tf_extract_returns block : returns (Tf.extract block).
Proof. destruct (tf_extract_spec block) as (o & E & _). now exists o. Qed.

Lemma fib_extract_returns block : returns (Fib.extract block).
Proof. destruct (fib_extract_spec block) as (o & E & _). now exists o. Qed.

Lemma mcq_extract_no_metadata block o :
  Mcq.extract block = Ok o -> Mcq.difficulty o = [] /\ Mcq.blooms_level o = [].
Proof.
  intros E. destruct (mcq_extract_spec block) as (o' & E' & Hd & Hb & _).
  rewrite E in E'. inv_ok E'. now split.
Qed.

Lemma tf_extract_no_metadata block o :
  Tf.extract block = Ok o -> Tf.difficulty o = [] /\ Tf.blooms_level o = [].
Proof.
  intros E. destruct (tf_extract_spec block) as (o' & E' & Hd & Hb & _).
  rewrite E in E'. inv_ok E'. now split.
Qed.

Lemma fib_extract_no_metadata block o :
  Fib.extract block = Ok o -> Fib.difficulty o = [] /\ Fib.blooms_level o = [].
Proof.
  intros E. destruct (fib_extract_spec block) as (o' & E' & Hd & Hb & _).
  rewrite E in E'. inv_ok E'. now split.
Qed.

Lemma stripped_blocks_length blocks :
  List.length (stripped_blocks blocks) = List.length (filter nonblank blocks).
Proof. unfold stripped_blocks. apply length_map. Qed.

(** Reading the labels of a position off the sequence *)
Lemma labels_at (sequence : list (str * str)) i (d b : str) :
  d = match nth_error sequence i with Some l => fst l | None => [] end ->
  b = match nth_error sequence i with Some l => snd l | None => [] end ->
  ((i < List.length sequence)%nat -> nth_error sequence i = Some (d, b))
  /\ ((List.length sequence <= i)%nat -> d = [] /\ b = []).
Proof.
  intros -> ->. split; intros H.
  - apply nth_error_Some in H.
    destruct (nth_error sequence i) as [[d b]|]; [reflexivity | congruence].
  - apply nth_error_None in H. now rewrite H.
Qed.

(** C4: whatever the text and the breakdown, each parser returns its
    records without raising, as many as there are non-blank fragments (so
    fewer than the sequence is long when the text holds fewer records than
    were requested); record [i] carries the difficulty and the Bloom's level
    found at position [i] of the sequence, and every record whose index is at
    least the length of the sequence carries empty strings. *)
Theorem metadata_assigned_by_position res question_breakdown :
  let sequence := Utils.create_question_sequence question_breakdown in
  (exists records,
      Mcq.parse_mcq res question_breakdown = Ok records
      /\ List.length records
         = List.length (filter nonblank (split Mcq.BOUNDARY res))
      /\ forall i r,
           nth_error records i = Some r ->
           ((i < List.length sequence)%nat ->
            nth_error sequence i = Some (Mcq.difficulty r, Mcq.blooms_level r))
           /\ ((List.length sequence <= i)%nat ->
               Mcq.difficulty r = [] /\ Mcq.blooms_level r = []))
  /\
  (exists records,
      Tf.parse_true_false res question_breakdown = Ok records
      /\ List.length records
         = List.length (filter nonblank (split Tf.BOUNDARY res))
      /\ forall i r,
           nth_error records i = Some r ->
           ((i < List.length sequence)%nat ->
            nth_error sequence i = Some (Tf.difficulty r, Tf.blooms_level r))
           /\ ((List.length sequence <= i)%nat ->
               Tf.difficulty r = [] /\ Tf.blooms_level r = []))
  /\
  (exists records,
      Fib.parse_fill_in_blank res question_breakdown = Ok records
      /\ List.length records
         = List.length (filter nonblank (split Fib.BOUNDARY res))
      /\ forall i r,
           nth_error records i = Some r ->
           ((i < List.length sequence)%nat ->
            nth_error sequence i = Some (Fib.difficulty r, Fib.blooms_level r))
           /\ ((List.length sequence <= i)%nat ->
               Fib.difficulty r = [] /\ Fib.blooms_level r = [])).
Proof.
  intros sequence. split; [|split].
  - destruct (parse_response_spec _ Mcq.extract Mcq.assign mcq_extract_returns
                Mcq.BOUNDARY res question_breakdown)
      as (records & Hrun & Hlen & _).
    exists records. split; [exact Hrun|].
    split; [now rewrite Hlen, stripped_blocks_length|].
    intros i r Hr. apply labels_at.
    + apply (parse_response_metadata _ Mcq.extract Mcq.assign
               mcq_extract_returns Mcq.difficulty fst
               (fun b o E => proj1 (mcq_extract_no_metadata b o E))
               (fun o d b => eq_refl) _ _ _ _ _ _ Hrun Hr).
    + apply (parse_response_metadata _ Mcq.extract Mcq.assign
               mcq_extract_returns Mcq.blooms_level snd
               (fun b o E => proj2 (mcq_extract_no_metadata b o E))
               (fun o d b => eq_refl) _ _ _ _ _ _ Hrun Hr).
  - destruct (parse_response_spec _ Tf.extract Tf.assign tf_extract_returns
                Tf.BOUNDARY res question_breakdown)
      as (records & Hrun & Hlen & _).
    exists records. split; [exact Hrun|].
    split; [now rewrite Hlen, stripped_blocks_length|].
    intros i r Hr. apply labels_at.
    + apply (parse_response_metadata _ Tf.extract Tf.assign
               tf_extract_returns Tf.difficulty fst
               (fun b o E => proj1 (tf_extract_no_metadata b o E))
               (fun o d b => eq_refl) _ _ _ _ _ _ Hrun Hr).
    + apply (parse_response_metadata _ Tf.extract Tf.assign
               tf_extract_returns Tf.blooms_level snd
               (fun b o E => proj2 (tf_extract_no_metadata b o E))
               (fun o d b => eq_refl) _ _ _ _ _ _ Hrun Hr).
  - destruct (parse_response_spec _ Fib.extract Fib.assign fib_extract_returns
                Fib.BOUNDARY res question_breakdown)
      as (records & Hrun & Hlen & _).
    exists records. split; [exact Hrun|].
    split; [now rewrite Hlen, stripped_blocks_length|].
    intros i r Hr. apply labels_at.
    + apply (parse_response_metadata _ Fib.extract Fib.assign
               fib_extract_returns Fib.difficulty fst
               (fun b o E => proj1 (fib_extract_no_metadata b o E))
               (fun o d b => eq_refl) _ _ _ _ _ _ Hrun Hr).
    + apply (parse_response_metadata _ Fib.extract Fib.assign
               fib_extract_returns Fib.blooms_level snd
               (fun b o E => proj2 (fib_extract_no_metadata b o E))
               (fun o d b => eq_refl) _ _ _ _ _ _ Hrun Hr).
Qed.

Lemma mcq_attach_fields sequence i o :
  Mcq.answer (attach Mcq.assign sequence i o) = Mcq.answer o
  /\ Mcq.explanation (attach Mcq.assign sequence i o) = Mcq.explanation o
  /\ Mcq.distractors (attach Mcq.assign sequence i o) = Mcq.distractors o.
Proof. unfold attach. destruct (nth_error sequence i) as [[d b]|]; now conj. Qed.

Lemma tf_attach_fields sequence i o :
  Tf.answer (attach Tf.assign sequence i o) = Tf.answer o
  /\ Tf.explanation (attach Tf.assign sequence i o) = Tf.explanation o.
Proof. unfold attach. destruct (nth_error sequence i) as [[d b]|]; now conj. Qed.

Lemma fib_attach_fields sequence i o :
  Fib.answer (attach Fib.assign sequence i o) = Fib.answer o
  /\ Fib.explanation (attach Fib.assign sequence i o) = Fib.explanation o.
Proof. unfold attach. destruct (nth_error sequence i) as [[d b]|]; now conj. Qed.

(** Three records against a sequence of three labels, then two records
    against the same sequence. *)
Example three_statements_labelled :
  exists records,
    Tf.parse_true_false Tf.three_statements Utils.three_units = Ok records
    /\ map (fun r => (Tf.answer r, Tf.difficulty r, Tf.blooms_level r)) records
       = [(lit "TRUE", lit "basic", lit "remember");
          (lit "FALSE", lit "advanced", lit "analyze");
          (lit "TRUE", lit "advanced", lit "analyze")].
Proof. eexists. split; [vm_compute; reflexivity | reflexivity]. Qed.

Example two_statements_labelled :
  exists records,
    Tf.parse_true_false Tf.two_statements Utils.three_units = Ok records
    /\ map (fun r => (Tf.answer r, Tf.explanation r, Tf.difficulty r)) records
       = [(lit "TRUE", lit "x", lit "basic");
          (lit "FALSE", [], lit "advanced")].
Proof. eexists. split; [vm_compute; reflexivity | reflexivity]. Qed.

(** C5: on every text the parsers return (no index is ever out of range,
    however malformed the text), and in the record built from a fragment
    every field whose marker does not occur in the fragment keeps its empty
    default: the answer without [ANSWER:], the explanation without
    [EXPLANATION:], the distractors without any [DISTRACTORn:]. *)
Theorem parsers_return_with_empty_defaults res question_breakdown :
  (exists records,
      Mcq.parse_mcq res question_breakdown = Ok records
      /\ forall i block,
           nth_error (stripped_blocks (split Mcq.BOUNDARY res)) i = Some block ->
           exists r,
             nth_error records i = Some r
             /\ (contains ANSWER block = false -> Mcq.answer r = [])
             /\ (contains EXPLANATION block = false -> Mcq.explanation r = [])
             /\ (Forall (fun key => contains key block = false)
                        Mcq.distractor_keys ->
                 Mcq.distractors r = []))
  /\
  (exists records,
      Fib.parse_fill_in_blank res question_breakdown = Ok records
      /\ forall i block,
           nth_error (stripped_blocks (split Fib.BOUNDARY res)) i = Some block ->
           exists r,
             nth_error records i = Some r
             /\ (contains ANSWER block = false -> Fib.answer r = [])
             /\ (contains EXPLANATION block = false -> Fib.explanation r = []))
  /\
  (exists records,
      Tf.parse_true_false res question_breakdown = Ok records
      /\ forall i block,
           nth_error (stripped_blocks (split Tf.BOUNDARY res)) i = Some block ->
           exists r,
             nth_error records i = Some r
             /\ (contains ANSWER block = false -> Tf.answer r = [])
             /\ (contains EXPLANATION block = false -> Tf.explanation r = [])).
Proof.
  split; [|split].
  - destruct (parse_response_spec _ Mcq.extract Mcq.assign mcq_extract_returns
                Mcq.BOUNDARY res question_breakdown)
      as (records & Hrun & _ & Hrec).
    exists records. split; [exact Hrun|]. intros i block Hb.
    destruct (Hrec i block Hb) as (o & Ho & Hn).
    destruct (mcq_extract_spec block) as (o' & Ho' & _ & _ & HA & HE & HD).
    rewrite Ho in Ho'. inv_ok Ho'.
    destruct (mcq_attach_fields
                (Utils.create_question_sequence question_breakdown) i o')
      as (Fa & Fe & Fd).
    eexists. split; [exact Hn|]. rewrite Fa, Fe, Fd. now conj.
  - destruct (parse_response_spec _ Fib.extract Fib.assign fib_extract_returns
                Fib.BOUNDARY res question_breakdown)
      as (records & Hrun & _ & Hrec).
    exists records. split; [exact Hrun|]. intros i block Hb.
    destruct (Hrec i block Hb) as (o & Ho & Hn).
    destruct (fib_extract_spec block) as (o' & Ho' & _ & _ & HA & HE).
    rewrite Ho in Ho'. inv_ok Ho'.
    destruct (fib_attach_fields
                (Utils.create_question_sequence question_breakdown) i o')
      as (Fa & Fe).
    eexists. split; [exact Hn|]. rewrite Fa, Fe.
    split; [exact HA|]. intros H. now apply HE.
  - destruct (parse_response_spec _ Tf.extract Tf.assign tf_extract_returns
                Tf.BOUNDARY res question_breakdown)
      as (records & Hrun & _ & Hrec).
    exists records. split; [exact Hrun|]. intros i block Hb.
    destruct (Hrec i block Hb) as (o & Ho & Hn).
    destruct (tf_extract_spec block) as (o' & Ho' & _ & _ & HA & HE).
    rewrite Ho in Ho'. inv_ok Ho'.
    destruct (tf_attach_fields
                (Utils.create_question_sequence question_breakdown) i o')
      as (Fa & Fe).
    eexists. split; [exact Hn|]. rewrite Fa, Fe. now conj.
Qed.

(** C9: on every text each parser emits exactly one record per fragment of
    the split on the record-boundary token that is not blank, in the order
    of the fragments: the number of records is the number of such fragments,
    and record [i] is the extraction of fragment [i] (with its metadata
    attached), whichever markers the fragment holds. *)
Theorem one_record_per_fragment res question_breakdown :
  let sequence := Utils.create_question_sequence question_breakdown in
  (exists records,
      Mcq.parse_mcq res question_breakdown = Ok records
      /\ List.length records
         = List.length (filter nonblank (split Mcq.BOUNDARY res))
      /\ forall i fragment,
           nth_error (filter nonblank (split Mcq.BOUNDARY res)) i
           = Some fragment ->
           exists o,
             Mcq.extract (strip fragment) = Ok o
             /\ nth_error records i = Some (attach Mcq.assign sequence i o))
  /\
  (exists records,
      Tf.parse_true_false res question_breakdown = Ok records
      /\ List.length records
         = List.length (filter nonblank (split Tf.BOUNDARY res))
      /\ forall i fragment,
           nth_error (filter nonblank (split Tf.BOUNDARY res)) i
           = Some fragment ->
           exists o,
             Tf.extract (strip fragment) = Ok o
             /\ nth_error records i = Some (attach Tf.assign sequence i o))
  /\
  (exists records,
      Fib.parse_fill_in_blank res question_breakdown = Ok records
      /\ List.length records
         = List.length (filter nonblank (split Fib.BOUNDARY res))
      /\ forall i fragment,
           nth_error (filter nonblank (split Fib.BOUNDARY res)) i
           = Some fragment ->
           exists o,
             Fib.extract (strip fragment) = Ok o
             /\ nth_error records i = Some (attach Fib.assign sequence i o)).
Proof.
  intros sequence. split; [|split].
  - destruct (parse_response_spec _ Mcq.extract Mcq.assign mcq_extract_returns
                Mcq.BOUNDARY res question_breakdown)
      as (records & Hrun & Hlen & Hrec).
    exists records. split; [exact Hrun|].
    split; [now rewrite Hlen, stripped_blocks_length|].
    intros i fragment Hf. apply Hrec. unfold stripped_blocks.
    now apply map_nth_error.
  - destruct (parse_response_spec _ Tf.extract Tf.assign tf_extract_returns
                Tf.BOUNDARY res question_breakdown)
      as (records & Hrun & Hlen & Hrec).
    exists records. split; [exact Hrun|].
    split; [now rewrite Hlen, stripped_blocks_length|].
    intros i fragment Hf. apply Hrec. unfold stripped_blocks.
    now apply map_nth_error.
  - destruct (parse_response_spec _ Fib.extract Fib.assign fib_extract_returns
                Fib.BOUNDARY res question_breakdown)
      as (records & Hrun & Hlen & Hrec).
    exists records. split; [exact Hrun|].
    split; [now rewrite Hlen, stripped_blocks_length|].
    intros i fragment Hf. apply Hrec. unfold stripped_blocks.
    now apply map_nth_error.
Qed.

(** ** The answer list of the fill-in-blank parser *)

Lemma split_go_exhausted sep : forall s cur,
  split_go sep (Some O) O cur s = [rev cur ++ s].
Proof.
  induction s as [|c s IH]; intros cur; simpl.
  - now rewrite app_nil_r.
  - rewrite IH. simpl. now rewrite <- app_assoc.
Qed.

Lemma isdigit_not_period d : isdigit d = true -> d <> "."%char.
Proof. intros H ->. discriminate. Qed.

(** A stripped line made of a digit, a period, a space and some text
    contributes the stripped text. *)
Lemma fib_numbered_line answer d rest :
  isdigit d = true ->
  strip (d :: Fib.DOT_SPACE ++ rest) = d :: Fib.DOT_SPACE ++ rest ->
  Fib.answer_line answer (d :: Fib.DOT_SPACE ++ rest)
  = Ok (answer ++ [strip rest]).
Proof.
  intros Hd Hs. unfold Fib.answer_line. rewrite Hs.
  change (Fib.DOT_SPACE ++ rest) with ("."%char :: " "%char :: rest).
  cbn [truthy index nth_error bind]. rewrite Hd. cbn [andb].
  assert (Hc : contains Fib.DOT_SPACE (d :: "."%char :: " "%char :: rest) = true).
  { apply contains_iff. exists [d], rest. reflexivity. }
  rewrite Hc. unfold split_max. cbn [split_go].
  assert (Hn : startswith Fib.DOT_SPACE (d :: "."%char :: " "%char :: rest)
               = false).
  { change Fib.DOT_SPACE with ["."%char; " "%char]. cbn [startswith].
    destruct (ascii_dec "." d) as [E|_]; [|reflexivity].
    symmetry in E. now apply isdigit_not_period in E. }
  rewrite Hn.
  change (startswith Fib.DOT_SPACE ("."%char :: " "%char :: rest)) with true.
  cbv beta iota. cbn [option_map Nat.pred List.length Fib.DOT_SPACE lit
                      list_ascii_of_string split_go].
  rewrite split_go_exhausted. reflexivity.
Qed.

(** C6: the answer line ["2 apples. And pears"] has no digit-period-space
    prefix, yet it is not added whole: the parser keeps only what follows
    its first period-and-space, because the test it applies is "first
    character is a digit and a period-and-space occurs somewhere". *)
Theorem unnumbered_line_is_cut :
  Fib.numbered_prefix Fib.counted_line = false
  /\ Fib.answer_items Fib.counted_line = Ok [lit "And pears"]
  /\ exists r,
       Fib.parse_fill_in_blank Fib.counted_response [] = Ok [r]
       /\ Fib.answer r = [lit "And pears"].
Proof.
  split; [reflexivity|]. split; [reflexivity|].
  eexists. split; [vm_compute; reflexivity | reflexivity].
Qed.

(** ** Processing the gathered results *)

Section ResultsFacts.
Import Orchestrator.
Variable question_data : Type.

(** A job that failed with a non-empty message makes the processing of
    the results raise. *)
Lemma failure_with_message_is_raised
      (results : list (gathered question_data)) t file_name data message :
  In (GResult (t, file_name, data, Some message)) results ->
  message <> [] ->
  forall files_generated all_question_data,
  exists e,
    process_results results files_generated all_question_data = Raise e.
Proof.
  intros Hin Hmsg.
  induction results as [|r results IH]; intros files all_data; [destruct Hin|].
  cbn [process_results].
  destruct r as [e|[[[t' f'] d'] error]]; [eauto|].
  destruct (error_truthy error) eqn:E; [eauto|].
  destruct Hin as [Heq|Hin]; [|now apply IH].
  inv_ok Heq. destruct message; [congruence | discriminate].
Qed.
End ResultsFacts.

(** C7: with two question types, the job of [mcq] returning and the job of
    [tf] raising an exception whose text is empty, the test on the error
    text does not notice the failure: no error is raised, and the caller
    receives a response that holds the file and the data of [mcq] next to an
    empty entry for [tf]. *)
Theorem failure_with_empty_message_is_returned
        (question_data : Type) (content_summary file_name : str)
        (data : question_data) :
  Orchestrator.generate_questions
    (Orchestrator.tf_fails_silently file_name data) (Ok content_summary)
    2 (halves "mcq" "tf") [(lit "basic", 1%Q)] [(lit "remember", 1%Q)]
  = Orchestrator.Response [Some file_name; None]
                          [(lit "mcq", Some data); (lit "tf", None)].
Proof. reflexivity. Qed.

(** ** The combined distributions of one question type *)

Section DictQ.
Variable V : Type.
Implicit Types (d : dict V) (k : str) (v : V).

Lemma dict_get_set_same d k v : dict_get (dict_set d k v) k = Some v.
Proof.
  induction d as [|[k' v'] d IH]; simpl.
  - now rewrite str_eqb_refl.
  - destruct (str_eqb k' k) eqn:E; simpl; rewrite E; [reflexivity | exact IH].
Qed.

Lemma dict_set_set d k v v' : dict_set (dict_set d k v) k v' = dict_set d k v'.
Proof.
  induction d as [|[k0 v0] d IH]; simpl.
  - now rewrite str_eqb_refl.
  - destruct (str_eqb k0 k) eqn:E; simpl; rewrite E; [reflexivity|].
    now rewrite IH.
Qed.
End DictQ.

Lemma qsum_set_present d k v v' :
  dict_get d k = Some v ->
  (qsum (values (dict_set d k v')) == qsum (values d) - v + v')%Q.
Proof.
  unfold values. induction d as [|[k0 v0] d IH]; simpl; [discriminate|].
  destruct (str_eqb k0 k); simpl; intros H.
  - inv_ok H. ring.
  - rewrite (IH H). ring.
Qed.

Lemma qsum_set_absent d k v' :
  dict_get d k = None ->
  (qsum (values (dict_set d k v')) == qsum (values d) + v')%Q.
Proof.
  unfold values. induction d as [|[k0 v0] d IH]; simpl; intros H.
  - ring.
  - destruct (str_eqb k0 k); simpl; [discriminate|]. rewrite (IH H). ring.
Qed.

Section LocalDistributions.
Import Orchestrator.
Variable total : Z.
Hypothesis total_nonzero : total <> 0.

Lemma true_div_ok c :
  true_div c total = Ok (inject_Z c / inject_Z total)%Q.
Proof.
  unfold true_div. destruct (Z.eqb_spec total 0); [contradiction | reflexivity].
Qed.

Lemma add_share_ensured d k c :
  add_share (ensure_key d k) k c total
  = Ok (accumulated d k (inject_Z c / inject_Z total)%Q).
Proof.
  unfold add_share, ensure_key, accumulated, dict_lookup.
  destruct (dict_get d k) as [v|] eqn:E.
  - rewrite E. cbn [bind]. now rewrite true_div_ok.
  - rewrite dict_get_set_same. cbn [bind]. rewrite true_div_ok. cbn [bind].
    now rewrite dict_set_set.
Qed.

Lemma local_step_accumulates dd bd config :
  local_step total (dd, bd) config
  = Ok (accumulate_difficulty total dd config,
        accumulate_blooms total bd config).
Proof.
  unfold local_step. rewrite !add_share_ensured. reflexivity.
Qed.

Lemma local_loop_accumulates configs : forall dd bd,
  local_loop total configs (dd, bd)
  = Ok (fold_left (accumulate_difficulty total) configs dd,
        fold_left (accumulate_blooms total) configs bd).
Proof.
  induction configs as [|config rest IH]; intros dd bd; [reflexivity|].
  cbn [local_loop fold_left]. rewrite local_step_accumulates. cbn [bind].
  apply IH.
Qed.

Lemma qsum_accumulated d k x :
  (qsum (values (accumulated d k x)) == qsum (values d) + x)%Q.
Proof.
  unfold accumulated. destruct (dict_get d k) as [v|] eqn:E.
  - rewrite (qsum_set_present _ _ _ _ E). ring.
  - rewrite (qsum_set_absent _ _ _ E). ring.
Qed.

Lemma qsum_accumulated_all (label : App.config -> str) configs : forall d,
  (qsum (values (fold_left (fun d c => accumulated d (label c)
                                                   (share_of total c))
                           configs d))
   == qsum (values d)
      + inject_Z (zsum (map App.count configs)) / inject_Z total)%Q.
Proof.
  assert (Hnz : ~ (inject_Z total == 0)%Q).
  { unfold Qeq. simpl. lia. }
  induction configs as [|config rest IH]; intros d; cbn [fold_left map].
  - change (zsum []) with 0. field. exact Hnz.
  - rewrite IH, qsum_accumulated, zsum_cons, inject_Z_plus.
    unfold share_of. field. exact Hnz.
Qed.
End LocalDistributions.

(** C10: for the cells grouped under one question type, when their counts
    have a positive total, the two combined distributions are computed
    without error and the proportions of each of them sum to exactly 1. *)
Theorem local_distributions_sum_to_one (configs : list App.config) :
  0 < Orchestrator.total_for_type configs ->
  exists difficulty_dist_for_type blooms_dist_for_type,
    Orchestrator.local_distributions configs
    = Ok (difficulty_dist_for_type, blooms_dist_for_type)
    /\ (qsum (values difficulty_dist_for_type) == 1)%Q
    /\ (qsum (values blooms_dist_for_type) == 1)%Q.
Proof.
  intros Hpos.
  assert (Hnz : Orchestrator.total_for_type configs <> 0) by lia.
  assert (Hq : ~ (inject_Z (Orchestrator.total_for_type configs) == 0)%Q).
  { unfold Qeq. simpl. lia. }
  unfold Orchestrator.local_distributions.
  rewrite (local_loop_accumulates _ Hnz).
  do 2 eexists. split; [reflexivity|].
  pose proof (qsum_accumulated_all _ Hnz App.difficulty configs []) as Hd.
  pose proof (qsum_accumulated_all _ Hnz App.blooms_level configs []) as Hb.
  assert (Hone : (qsum (values (@nil (str * Q)))
                  + inject_Z (zsum (map App.count configs))
                    / inject_Z (Orchestrator.total_for_type configs) == 1)%Q).
  { unfold Orchestrator.total_for_type. simpl. field. exact Hq. }
  split; [rewrite <- Hone; exact Hd | rewrite <- Hone; exact Hb].
Qed.

Lemma local_distributions_sum_to_one_witness :
  0 < Orchestrator.total_for_type Orchestrator.default_mcq_group
  /\ exists difficulty_dist_for_type blooms_dist_for_type,
       Orchestrator.local_distributions Orchestrator.default_mcq_group
       = Ok (difficulty_dist_for_type, blooms_dist_for_type)
       /\ (qsum (values difficulty_dist_for_type) == 1)%Q
       /\ (qsum (values blooms_dist_for_type) == 1)%Q.
Proof.
  split; [reflexivity|].
  apply (local_distributions_sum_to_one Orchestrator.default_mcq_group).
  reflexivity.
Defined.

(** ** Re-applying the allocator to one question type *)




Section FoldShapes.
Variables A B C : Type.

Lemma fold_left_map (f : A -> C -> A) (g : B -> C) l : forall a,
  fold_left f (map g l) a = fold_left (fun a x => f a (g x)) l a.
Proof. induction l as [|x l IH]; intros a; simpl; [reflexivity | apply IH]. Qed.

Lemma fold_left_ext_in (f g : A -> B -> A) l :
  (forall a x, In x l -> f a x = g a x) ->
  forall a, fold_left f l a = fold_left g l a.
Proof.
  induction l as [|x l IH]; intros H a; simpl; [reflexivity|].
  rewrite (H a x) by now left. apply IH. intros a' y Hy. apply H. now right.
Qed.

Lemma fold_left_flat_map (f : A -> C -> A) (g : B -> list C) l : forall a,
  fold_left f (flat_map g l) a
  = fold_left (fun a x => fold_left f (g x) a) l a.
Proof.
  induction l as [|x l IH]; intros a; simpl; [reflexivity|].
  now rewrite fold_left_app, IH.
Qed.
End FoldShapes.

Section DictAppend.
Variable V : Type.
Implicit Types (d : dict V) (k : str) (v : V).

Lemma dict_get_app_absent d d' k :
  ~ In k (keys d) -> dict_get (d ++ d') k = dict_get d' k.
Proof.
  induction d as [|[k0 v0] d IH]; simpl; intros H; [reflexivity|].
  destruct (str_eqb k0 k) eqn:E.
  - apply str_eqb_eq in E. tauto.
  - apply IH. tauto.
Qed.

Lemma dict_set_app_absent d d' k v :
  ~ In k (keys d) -> dict_set (d ++ d') k v = d ++ dict_set d' k v.
Proof.
  induction d as [|[k0 v0] d IH]; simpl; intros H; [reflexivity|].
  destruct (str_eqb k0 k) eqn:E.
  - apply str_eqb_eq in E. tauto.
  - rewrite IH by tauto. reflexivity.
Qed.

Lemma dict_get_absent d k : ~ In k (keys d) -> dict_get d k = None.
Proof.
  intros H. rewrite <- (app_nil_r d). now rewrite dict_get_app_absent.
Qed.

Lemma dict_set_absent d k v : ~ In k (keys d) -> dict_set d k v = d ++ [(k, v)].
Proof.
  intros H. rewrite <- (app_nil_r d) at 1. now rewrite dict_set_app_absent.
Qed.

Lemma dict_get_middle d d' k v :
  ~ In k (keys d) -> dict_get (d ++ (k, v) :: d') k = Some v.
Proof.
  intros H. rewrite dict_get_app_absent by exact H. simpl.
  now rewrite str_eqb_refl.
Qed.

Lemma dict_set_middle d d' k v v' :
  ~ In k (keys d) -> dict_set (d ++ (k, v) :: d') k v' = d ++ (k, v') :: d'.
Proof.
  intros H. rewrite dict_set_app_absent by exact H. simpl.
  now rewrite str_eqb_refl.
Qed.

(** Assigning fresh keys one after the other appends the entries. *)
Lemma dict_set_all_fresh (entries : dict V) : forall d,
  NoDup (keys d ++ keys entries) ->
  fold_left (fun d kv => dict_set d (fst kv) (snd kv)) entries d
  = d ++ entries.
Proof.
  induction entries as [|[k v] entries IH]; intros d Hnd; simpl.
  - now rewrite app_nil_r.
  - simpl in Hnd. pose proof (NoDup_remove_2 _ _ _ Hnd) as Hk.
    rewrite dict_set_absent by (intros Hin; apply Hk, in_or_app; now left).
    rewrite IH.
    + now rewrite <- app_assoc.
    + unfold keys in *. rewrite map_app. simpl. rewrite <- app_assoc. exact Hnd.
Qed.
End DictAppend.


Section GridFacts.
Import Orchestrator.
Variable q_type : str.
Variables ds bs : list str.
Variable c : str -> str -> Z.

Local Abbreviation N := (grid_total ds bs c).
Local Abbreviation cell := (grid_cell q_type c).
Local Abbreviation x := (cell_share ds bs c).

Lemma grid_configs_total : total_for_type (grid_configs q_type ds bs c) = N.
Proof.
  unfold total_for_type, grid_configs, grid_total.
  induction ds as [|d ds' IH]; simpl; [reflexivity|].
  rewrite map_app, zsum_app, zsum_cons, IH, map_map. reflexivity.
Qed.

Lemma grid_breakdown_total : Utils.total (grid_breakdown ds bs c) = N.
Proof.
  unfold Utils.total, values, grid_breakdown, grid_total.
  induction ds as [|d ds' IH]; simpl; [reflexivity|].
  rewrite !map_app, zsum_app, zsum_cons, IH.
  unfold grid_row. rewrite !map_map. reflexivity.
Qed.

Lemma accumulate_difficulty_cell dd d b :
  accumulate_difficulty N dd (cell d b) = accumulated dd d (x d b).
Proof. reflexivity. Qed.

Lemma accumulate_blooms_cell bd d b :
  accumulate_blooms N bd (cell d b) = accumulated bd b (x d b).
Proof. reflexivity. Qed.

Lemma fresh_after (P : dict Q) (k : str) (v : Q) (l : list str) :
  ~ In k l ->
  (forall k', In k' (k :: l) -> ~ In k' (keys P)) ->
  forall k', In k' l -> ~ In k' (keys (P ++ [(k, v)])).
Proof.
  intros Hk Hfresh k' Hk' Hin. unfold keys in Hin. rewrite map_app in Hin.
  apply in_app_or in Hin. destruct Hin as [Hin|[<-|[]]].
  - apply (Hfresh k'); [now right | exact Hin].
  - contradiction.
Qed.

(** *** The difficulty side: one new key per row *)

Lemma difficulty_row_rest d l : forall P v,
  ~ In d (keys P) ->
  fold_left (accumulate_difficulty N) (map (cell d) l) (P ++ [(d, v)])
  = P ++ [(d, fold_left (fun v b => (v + x d b)%Q) l v)].
Proof.
  induction l as [|b l IH]; intros P v Hd; [reflexivity|].
  cbn [map fold_left]. rewrite accumulate_difficulty_cell.
  unfold accumulated. rewrite dict_get_middle by exact Hd.
  rewrite dict_set_middle by exact Hd. now apply IH.
Qed.

Lemma difficulty_row d l P :
  l <> [] -> ~ In d (keys P) ->
  fold_left (accumulate_difficulty N) (map (cell d) l) P
  = P ++ [(d, fold_left (fun v b => (v + x d b)%Q) l 0%Q)].
Proof.
  intros Hl Hd. destruct l as [|b l]; [congruence|].
  cbn [map fold_left]. rewrite accumulate_difficulty_cell.
  unfold accumulated. rewrite dict_get_absent by exact Hd.
  rewrite dict_set_absent by exact Hd. now apply difficulty_row_rest.
Qed.

Lemma difficulty_rows l ds' : forall P,
  l <> [] -> NoDup ds' -> (forall d, In d ds' -> ~ In d (keys P)) ->
  fold_left (accumulate_difficulty N)
            (flat_map (fun d => map (cell d) l) ds') P
  = P ++ map (fun d => (d, fold_left (fun v b => (v + x d b)%Q) l 0%Q)) ds'.
Proof.
  induction ds' as [|d ds'' IH]; intros P Hl Hnd Hfresh; simpl.
  - now rewrite app_nil_r.
  - inversion Hnd as [|? ? Hd Hnd']; subst.
    rewrite fold_left_app, difficulty_row by (auto; apply Hfresh; now left).
    rewrite IH; [now rewrite <- app_assoc | exact Hl | exact Hnd' |].
    now apply fresh_after.
Qed.

Lemma difficulty_all :
  bs <> [] -> NoDup ds ->
  fold_left (accumulate_difficulty N) (grid_configs q_type ds bs c) []
  = map (fun d => (d, row_share ds bs c d)) ds.
Proof.
  intros Hbs Hnd. unfold grid_configs.
  pose proof (difficulty_rows bs ds [] Hbs Hnd (fun d _ H => H)) as Hrows.
  cbn [app] in Hrows. exact Hrows.
Qed.

(** *** The Bloom's side: the first row creates the keys, the others
    update them in place *)

Lemma blooms_first_row d l : forall A,
  NoDup l -> (forall b, In b l -> ~ In b (keys A)) ->
  fold_left (accumulate_blooms N) (map (cell d) l) A
  = A ++ map (fun b => (b, (0 + x d b)%Q)) l.
Proof.
  induction l as [|b l IH]; intros A Hnd Hfresh; simpl.
  - now rewrite app_nil_r.
  - inversion Hnd as [|? ? Hb Hnd']; subst.
    rewrite accumulate_blooms_cell. unfold accumulated.
    rewrite dict_get_absent, dict_set_absent by (apply Hfresh; now left).
    rewrite IH; [now rewrite <- app_assoc | exact Hnd' |].
    now apply fresh_after.
Qed.

Lemma blooms_next_row d (f : str -> Q) l : forall A,
  NoDup l -> (forall b, In b l -> ~ In b (keys A)) ->
  fold_left (accumulate_blooms N) (map (cell d) l)
            (A ++ map (fun b => (b, f b)) l)
  = A ++ map (fun b => (b, (f b + x d b)%Q)) l.
Proof.
  induction l as [|b l IH]; intros A Hnd Hfresh; [reflexivity|].
  inversion Hnd as [|? ? Hb Hnd']; subst.
  cbn [map fold_left]. rewrite accumulate_blooms_cell. unfold accumulated.
  rewrite dict_get_middle, dict_set_middle by (apply Hfresh; now left).
  change (A ++ (b, (f b + x d b)%Q) :: map (fun b => (b, f b)) l)
    with (A ++ [(b, (f b + x d b)%Q)] ++ map (fun b => (b, f b)) l).
  rewrite app_assoc, IH; [now rewrite <- app_assoc | exact Hnd' |].
  now apply fresh_after.
Qed.

Lemma blooms_rows l ds' : forall f : str -> Q,
  NoDup l ->
  fold_left (accumulate_blooms N) (flat_map (fun d => map (cell d) l) ds')
            (map (fun b => (b, f b)) l)
  = map (fun b => (b, fold_left (fun v d => (v + x d b)%Q) ds' (f b))) l.
Proof.
  induction ds' as [|d ds'' IH]; intros f Hnd; [reflexivity|].
  cbn [flat_map]. rewrite fold_left_app.
  pose proof (blooms_next_row d f l [] Hnd (fun b _ H => H)) as Hrow.
  cbn [app] in Hrow. rewrite Hrow. now rewrite IH.
Qed.

Lemma blooms_grid l ds' :
  ds' <> [] -> NoDup l ->
  fold_left (accumulate_blooms N) (flat_map (fun d => map (cell d) l) ds') []
  = map (fun b => (b, fold_left (fun v d => (v + x d b)%Q) ds' 0%Q)) l.
Proof.
  intros Hds Hnd. destruct ds' as [|d ds'']; [congruence|].
  cbn [flat_map]. rewrite fold_left_app.
  pose proof (blooms_first_row d l [] Hnd (fun b _ H => H)) as Hrow.
  cbn [app] in Hrow. rewrite Hrow. now rewrite blooms_rows.
Qed.

Lemma blooms_all :
  ds <> [] -> NoDup bs ->
  fold_left (accumulate_blooms N) (grid_configs q_type ds bs c) []
  = map (fun b => (b, column_share ds bs c b)) bs.
Proof. intros Hds Hnd. now apply blooms_grid. Qed.
End GridFacts.

Lemma zsum_positive l :
  l <> [] -> (forall z, In z l -> 0 < z) -> 0 < zsum l.
Proof.
  induction l as [|z l IH]; [congruence|]. intros _ H. rewrite zsum_cons.
  assert (0 < z) by (apply H; now left).
  destruct l as [|z' l']; [change (zsum []) with 0; lia|].
  assert (0 < zsum (z' :: l')); [|lia].
  apply IH; [discriminate|]. intros y Hy. apply H. now right.
Qed.

Lemma share_sum (A : Type) (g : A -> Z) (total : Z) l :
  total <> 0 ->
  forall v0 : Q,
    (fold_left (fun v y => v + inject_Z (g y) / inject_Z total) l v0
     == v0 + inject_Z (zsum (map g l)) / inject_Z total)%Q.
Proof.
  intros Hnz.
  assert (Hq : ~ (inject_Z total == 0)%Q) by (unfold Qeq; simpl; lia).
  induction l as [|y l IH]; intros v0; cbn [fold_left map].
  - change (zsum []) with 0. field. exact Hq.
  - rewrite IH, zsum_cons, inject_Z_plus. field. exact Hq.
Qed.

Section GridBreakdown.
Import Orchestrator.
Variable q_type : str.
Variables ds bs : list str.
Variable c : str -> str -> Z.
Hypothesis ds_nonempty : ds <> [].
Hypothesis bs_nonempty : bs <> [].
Hypothesis ds_distinct : NoDup ds.
Hypothesis bs_distinct : NoDup bs.
Hypothesis keys_distinct : NoDup (keys (grid_breakdown ds bs c)).
Hypothesis positive : grid_positive ds bs c.
Hypothesis product : product_form ds bs c.

Local Abbreviation N := (grid_total ds bs c).

Lemma grid_total_positive : 0 < N.
Proof.
  unfold grid_total. apply zsum_positive.
  - destruct ds; [congruence | discriminate].
  - intros z Hz. apply in_map_iff in Hz. destruct Hz as (d & <- & Hd).
    unfold row_total. apply zsum_positive.
    + destruct bs; [congruence | discriminate].
    + intros z Hz. apply in_map_iff in Hz. destruct Hz as (b & <- & Hb).
      now apply positive.
Qed.

Lemma grid_leaf_count d b :
  In d ds -> In b bs ->
  Utils.leaf_count N (row_share ds bs c d) (column_share ds bs c b) = c d b.
Proof.
  intros Hd Hb. pose proof grid_total_positive as Hpos.
  assert (Hnz : N <> 0) by lia.
  assert (Hq : ~ (inject_Z N == 0)%Q) by (unfold Qeq; simpl; lia).
  unfold Utils.leaf_count.
  rewrite (pyround_comp _ (inject_Z (c d b))); [apply pyround_inject_Z|].
  unfold row_share, column_share, cell_share.
  rewrite (share_sum _ (c d) N bs Hnz 0%Q).
  rewrite (share_sum _ (fun d => c d b) N ds Hnz 0%Q).
  fold (row_total bs c d). fold (column_total ds c b).
  assert (E : (inject_Z (row_total bs c d) * inject_Z (column_total ds c b)
               == inject_Z (c d b) * inject_Z N)%Q).
  { rewrite <- !inject_Z_mult. now rewrite (product d b Hd Hb). }
  setoid_replace
    (inject_Z N * (0 + inject_Z (row_total bs c d) / inject_Z N)
     * (0 + inject_Z (column_total ds c b) / inject_Z N))%Q
    with ((inject_Z (row_total bs c d) * inject_Z (column_total ds c b))
          / inject_Z N)%Q by (field; exact Hq).
  rewrite E. field. exact Hq.
Qed.

Lemma grid_blooms_loop d qb :
  In d ds ->
  Utils.blooms_loop N d (row_share ds bs c d)
                    (map (fun b => (b, column_share ds bs c b)) bs) qb
  = fold_left (fun qb kv => dict_set qb (fst kv) (snd kv))
              (grid_row bs c d) qb.
Proof.
  intros Hd. unfold Utils.blooms_loop, items, grid_row.
  rewrite !fold_left_map. apply fold_left_ext_in. intros a b Hb.
  cbv beta iota zeta. rewrite (grid_leaf_count d b Hd Hb).
  pose proof (positive d b Hd Hb) as Hpos. apply Z.ltb_lt in Hpos.
  now rewrite Hpos.
Qed.

Lemma grid_difficulty_loop :
  Utils.difficulty_loop N (map (fun d => (d, row_share ds bs c d)) ds)
                        (map (fun b => (b, column_share ds bs c b)) bs) []
  = grid_breakdown ds bs c.
Proof.
  unfold Utils.difficulty_loop, items. rewrite fold_left_map.
  rewrite (fold_left_ext_in _ _ _
             (fun qb d => fold_left (fun qb kv => dict_set qb (fst kv) (snd kv))
                                    (grid_row bs c d) qb)).
  - unfold grid_breakdown at 1. rewrite <- fold_left_flat_map.
    apply (dict_set_all_fresh _ (grid_breakdown ds bs c) []).
    exact keys_distinct.
  - intros a d Hd. now apply grid_blooms_loop.
Qed.

(** With exact quotients, sums and products a group of product form is
    given back cell by cell.  The doubles of the code can send a tie of the
    exact product the other way ([twelve_questions_in_doubles]), so this is
    a fact of the exact instance. *)
Lemma grid_job_breakdown :
  job_breakdown (grid_configs q_type ds bs c) = Ok (grid_breakdown ds bs c).
Proof.
  pose proof grid_total_positive as Hpos.
  assert (Hnz : N <> 0) by lia.
  unfold job_breakdown, local_distributions.
  rewrite grid_configs_total, (local_loop_accumulates _ Hnz).
  rewrite difficulty_all, blooms_all by assumption. cbn [bind].
  unfold Utils.question_breakdown. rewrite grid_difficulty_loop.
  fold (Utils.total (grid_breakdown ds bs c)).
  rewrite grid_breakdown_total, Z.eqb_refl. reflexivity.
Qed.
End GridBreakdown.


(** * Further properties of the code *)

(** ** Dictionaries: assignment and lookup *)

Section DictAssign.
Variable V : Type.
Implicit Types (d : dict V) (k : str) (v : V).

Lemma dict_get_set_other d k k' v :
  k <> k' -> dict_get (dict_set d k v) k' = dict_get d k'.
Proof.
  intros NE. induction d as [|[k0 v0] d IH]; simpl.
  - destruct (str_eqb k k') eqn:E; [apply str_eqb_eq in E; contradiction|].
    reflexivity.
  - destruct (str_eqb k0 k) eqn:E; simpl.
    + apply str_eqb_eq in E. subst k0.
      destruct (str_eqb k k') eqn:E'; [apply str_eqb_eq in E'; contradiction|].
      reflexivity.
    + destruct (str_eqb k0 k'); [reflexivity | exact IH].
Qed.

Lemma dict_get_none_iff d k : dict_get d k = None <-> ~ In k (keys d).
Proof.
  induction d as [|[k0 v0] d IH]; simpl; [tauto|].
  destruct (str_eqb k0 k) eqn:E.
  - apply str_eqb_eq in E. split; [discriminate | tauto].
  - apply str_eqb_neq in E. rewrite IH. tauto.
Qed.

Lemma existsb_key d k :
  existsb (fun k' => str_eqb k' k) (keys d) = true <-> In k (keys d).
Proof.
  rewrite existsb_exists. split.
  - intros (k' & Hin & E). apply str_eqb_eq in E. now subst.
  - intros Hin. exists k. split; [exact Hin | apply str_eqb_refl].
Qed.

Lemma keys_dict_set d k v : keys (dict_set d k v) = seen (keys d) k.
Proof.
  unfold seen. induction d as [|[k0 v0] d IH]; simpl; [reflexivity|].
  destruct (str_eqb k0 k) eqn:E; simpl; [reflexivity|].
  rewrite IH. unfold keys. destruct (existsb _ (map fst d)); reflexivity.
Qed.

Lemma seen_NoDup ks k : NoDup ks -> NoDup (seen ks k).
Proof.
  intros Hnd. unfold seen.
  destruct (existsb (fun k' => str_eqb k' k) ks) eqn:E; [exact Hnd|].
  apply NoDup_app; [exact Hnd | repeat constructor; intros [] |].
  intros x Hx [Hk|[]]. subst x.
  assert (existsb (fun k' => str_eqb k' k) ks = true); [|congruence].
  apply existsb_exists. exists k. split; [exact Hx | apply str_eqb_refl].
Qed.

Lemma dict_set_NoDup d k v : NoDup (keys d) -> NoDup (keys (dict_set d k v)).
Proof. rewrite keys_dict_set. apply seen_NoDup. Qed.

Lemma dict_get_in_iff d k v :
  NoDup (keys d) -> (In (k, v) d <-> dict_get d k = Some v).
Proof.
  induction d as [|[k0 v0] d IH]; simpl; intros Hnd.
  - split; [tauto | discriminate].
  - inversion Hnd as [|? ? Hk0 Hnd']; subst.
    destruct (str_eqb k0 k) eqn:E.
    + apply str_eqb_eq in E. subst k0. split.
      * intros [H|H]; [congruence|].
        exfalso. apply Hk0. apply (in_map fst) in H. exact H.
      * intros H. left. congruence.
    + apply str_eqb_neq in E. rewrite <- (IH Hnd'). split.
      * intros [H|H]; [congruence | exact H].
      * intros H. now right.
Qed.

Lemma dict_set_Forall (P : str * V -> Prop) d k v :
  Forall P d -> P (k, v) -> Forall P (dict_set d k v).
Proof.
  intros Hd Hp. induction Hd as [|[k0 v0] d H0 Hd IH]; simpl.
  - now constructor.
  - destruct (str_eqb k0 k) eqn:E.
    + apply str_eqb_eq in E. subst k0. now constructor.
    + now constructor.
Qed.
End DictAssign.

Lemma first_seen_from ks : forall acc,
  NoDup acc -> NoDup (fold_left seen ks acc).
Proof.
  induction ks as [|k ks IH]; intros acc Hnd; simpl; [exact Hnd|].
  apply IH. now apply seen_NoDup.
Qed.

(** ** Grouping the cells by question type *)

Lemma zsum_dict_set_absent (V : Type) (f : V -> Z) (d : dict V) k v' :
  dict_get d k = None ->
  zsum (map f (values (dict_set d k v'))) = zsum (map f (values d)) + f v'.
Proof.
  unfold values. induction d as [|[k0 v0] d IH]; simpl; intros H.
  - rewrite zsum_cons. change (zsum []) with 0. lia.
  - destruct (str_eqb k0 k); [discriminate|]. simpl.
    rewrite !zsum_cons, (IH H). lia.
Qed.

Section GroupingFacts.
Import Orchestrator.

Lemma total_for_type_snoc group c :
  total_for_type (group ++ [c]) = total_for_type group + App.count c.
Proof.
  unfold total_for_type. rewrite map_app, zsum_app. cbn [map].
  rewrite zsum_cons. change (zsum []) with 0. lia.
Qed.

Lemma group_step_grouped type_groups config :
  group_step type_groups config = Ok (grouped type_groups config).
Proof.
  unfold group_step, grouped, dict_lookup.
  destruct (dict_get type_groups (App.question_type config)) as [group|] eqn:E.
  - rewrite E. reflexivity.
  - rewrite dict_get_set_same. cbn [bind]. now rewrite dict_set_set.
Qed.

Lemma group_loop_grouped entries : forall type_groups,
  group_loop entries type_groups
  = Ok (fold_left grouped (values entries) type_groups).
Proof.
  induction entries as [|[k config] rest IH]; intros type_groups; [reflexivity|].
  cbn [group_loop]. rewrite group_step_grouped. cbn [bind]. apply IH.
Qed.

Lemma grouped_lookup cells t : forall type_groups,
  dict_get (fold_left grouped cells type_groups) t
  = match dict_get type_groups t with
    | Some group => Some (group ++ filter (of_type t) cells)
    | None => match filter (of_type t) cells with
              | [] => None
              | group => Some group
              end
    end.
Proof.
  induction cells as [|c cells IH]; intros type_groups; cbn [fold_left filter].
  - destruct (dict_get type_groups t); [now rewrite app_nil_r | reflexivity].
  - rewrite IH. destruct (of_type t c) eqn:E; unfold of_type in E.
    + apply str_eqb_eq in E. subst t. unfold grouped.
      destruct (dict_get type_groups (App.question_type c)) as [group|].
      * rewrite dict_get_set_same. now rewrite <- app_assoc.
      * rewrite dict_get_set_same. reflexivity.
    + apply str_eqb_neq in E. unfold grouped.
      destruct (dict_get type_groups (App.question_type c)) as [group|];
        now rewrite dict_get_set_other.
Qed.

Lemma grouped_keys cells : forall type_groups,
  keys (fold_left grouped cells type_groups)
  = fold_left seen (map App.question_type cells) (keys type_groups).
Proof.
  induction cells as [|c cells IH]; intros type_groups; [reflexivity|].
  cbn [fold_left map]. rewrite IH. f_equal. unfold grouped.
  destruct (dict_get type_groups (App.question_type c));
    apply keys_dict_set.
Qed.

Lemma grouped_total cells : forall type_groups,
  zsum (map total_for_type (values (fold_left grouped cells type_groups)))
  = zsum (map total_for_type (values type_groups))
    + zsum (map App.count cells).
Proof.
  induction cells as [|c cells IH]; intros type_groups; cbn [fold_left map].
  - change (zsum []) with 0. lia.
  - rewrite IH, zsum_cons. unfold grouped.
    destruct (dict_get type_groups (App.question_type c)) as [group|] eqn:E.
    + rewrite (zsum_dict_set _ total_for_type _ _ _ _ E).
      rewrite total_for_type_snoc. lia.
    + rewrite (zsum_dict_set_absent _ total_for_type _ _ _ E).
      change [c] with ([] ++ [c]). rewrite total_for_type_snoc.
      change (total_for_type []) with 0. lia.
Qed.
End GroupingFacts.

(** X1: grouping never fails; the question types of the groups are the
    distinct types of the cells in the order in which they first occur, and
    the group of a type holds exactly the cells of that type, in the order
    of the allocation; no group is empty. *)
Theorem group_by_type_partitions (dist : dict App.config) :
  exists type_groups,
    Orchestrator.group_by_type dist = Ok type_groups
    /\ keys type_groups = first_seen (map App.question_type (values dist))
    /\ NoDup (keys type_groups)
    /\ forall t group,
         In (t, group) type_groups
         <-> group <> [] /\ group = filter (of_type t) (values dist).
Proof.
  unfold Orchestrator.group_by_type, items. rewrite group_loop_grouped.
  eexists. split; [reflexivity|].
  assert (Hkeys : keys (fold_left grouped (values dist) [])
                  = first_seen (map App.question_type (values dist)))
    by apply grouped_keys.
  assert (Hnd : NoDup (keys (fold_left grouped (values dist) []))).
  { rewrite Hkeys. apply first_seen_from. constructor. }
  split; [exact Hkeys|]. split; [exact Hnd|].
  intros t group. rewrite (dict_get_in_iff _ _ _ _ Hnd), grouped_lookup.
  cbn [dict_get].
  destruct (filter (of_type t) (values dist)) as [|c g]; split.
  - discriminate.
  - intros [H ->]. congruence.
  - intros H. inv_ok H. split; [discriminate | reflexivity].
  - intros [_ ->]. reflexivity.
Qed.

(** X2: the totals of the groups add up to the total of the allocation, so
    the jobs together are asked for as many questions as the allocation
    holds. *)
Theorem group_totals_add_up (dist : dict App.config) :
  exists type_groups,
    Orchestrator.group_by_type dist = Ok type_groups
    /\ zsum (map Orchestrator.total_for_type (values type_groups))
       = App.total dist.
Proof.
  unfold Orchestrator.group_by_type, items. rewrite group_loop_grouped.
  eexists. split; [reflexivity|].
  rewrite grouped_total. change (zsum (map _ (values []))) with 0.
  unfold App.total, values. rewrite map_map. lia.
Qed.

(** ** A group whose counts cancel out *)

Section ZeroTotal.
Import Orchestrator.

Lemma group_nonempty dist type_groups t group :
  group_by_type dist = Ok type_groups -> In (t, group) type_groups ->
  group <> [].
Proof.
  unfold group_by_type, items. rewrite group_loop_grouped. intros H Hin.
  inv_ok H.
  assert (Hnd : NoDup (keys (fold_left grouped (values dist) []))).
  { rewrite grouped_keys. apply first_seen_from. constructor. }
  apply (dict_get_in_iff _ _ _ _ Hnd) in Hin. rewrite grouped_lookup in Hin.
  cbn [dict_get] in Hin.
  destruct (filter (of_type t) (values dist)); [discriminate|].
  inv_ok Hin. discriminate.
Qed.

Lemma local_distributions_zero configs :
  configs <> [] -> total_for_type configs = 0 ->
  local_distributions configs = Raise ZeroDivisionError.
Proof.
  intros Hne Hz. unfold local_distributions. rewrite Hz.
  destruct configs as [|config rest]; [congruence|].
  cbn [local_loop]. unfold local_step, add_share, ensure_key, dict_lookup.
  cbn [dict_get]. rewrite dict_get_set_same. reflexivity.
Qed.

Variable question_data : Type.
Variable backend : str -> Z -> dict Q -> dict Q -> job_run question_data.

Lemma submit_all_raises type_groups entry e :
  In entry type_groups -> submit backend entry = Raise e ->
  exists e', submit_all backend type_groups = Raise e'.
Proof.
  induction type_groups as [|entry' rest IH]; intros Hin He; [destruct Hin|].
  cbn [submit_all]. destruct Hin as [->|Hin].
  - rewrite He. cbn [bind]. eauto.
  - destruct (submit backend entry') as [r|e1]; cbn [bind]; [|eauto].
    destruct (IH Hin He) as [e' E]. rewrite E. cbn [bind]. eauto.
Qed.
End ZeroTotal.

(** X3: when the counts of the group of some question type add up to 0 (the
    correction can leave the only cell of a type at 0), the division by the
    total of the type raises [ZeroDivisionError] while the jobs are being
    submitted, and the request ends in an [HTTPException] with status 500,
    whatever the jobs of the other types would do. *)
Theorem zero_total_group_fails
        (question_data : Type)
        (backend : str -> Z -> dict Q -> dict Q
                   -> Orchestrator.job_run question_data)
        (content_summary : result str) (total_questions : Z)
        (qd dd bd : dict Q) dist type_groups t configs :
  App.calculate_question_distribution total_questions qd dd bd = Ok dist ->
  Orchestrator.group_by_type dist = Ok type_groups ->
  In (t, configs) type_groups ->
  Orchestrator.total_for_type configs = 0 ->
  Orchestrator.local_distributions configs = Raise ZeroDivisionError
  /\ Orchestrator.generate_questions backend content_summary
                                     total_questions qd dd bd
     = Orchestrator.HTTPException question_data 500.
Proof.
  intros Hdist Hgroups Hin Hzero.
  pose proof (group_nonempty _ _ _ _ Hgroups Hin) as Hne.
  pose proof (local_distributions_zero _ Hne Hzero) as Hlocal.
  split; [exact Hlocal|].
  unfold Orchestrator.generate_questions.
  destruct content_summary as [summary|e]; [|reflexivity].
  cbn [bind]. rewrite Hdist. cbn [bind]. rewrite Hgroups. cbn [bind].
  destruct (submit_all_raises _ backend (items type_groups) (t, configs)
                              ZeroDivisionError Hin) as [e' E].
  - unfold Orchestrator.submit. rewrite Hlocal. reflexivity.
  - rewrite E. reflexivity.
Qed.

Lemma zero_total_group_fails_witness :
  Orchestrator.generate_questions
    (fun _ _ _ _ => Orchestrator.Returned (lit "file.json") tt)
    (Ok (lit "summary")) 2 thirds (only "basic") (only "remember")
  = Orchestrator.HTTPException unit 500.
Proof.
  refine (proj2 (zero_total_group_fails
                   unit _ (Ok (lit "summary")) 2 thirds (only "basic")
                   (only "remember") _ _ (lit "mcq")
                   [App.mk_config (lit "mcq") (lit "basic") (lit "remember") 0]
                   _ _ _ _)).
  - vm_compute. reflexivity.
  - vm_compute. reflexivity.
  - left. reflexivity.
  - reflexivity.
Defined.

(** ** The combined distributions are the marginals of the group *)

Section Marginals.
Import Orchestrator.
Variable total : Z.
Hypothesis total_nonzero : total <> 0.
Variable label : App.config -> str.

Local Abbreviation step :=
  (fun (d : dict Q) (c : App.config) => accumulated d (label c) (share_of total c)).

Lemma accumulated_keys configs : forall d0,
  keys (fold_left step configs d0)
  = fold_left seen (map label configs) (keys d0).
Proof.
  induction configs as [|c configs IH]; intros d0; [reflexivity|].
  cbn [fold_left map]. rewrite IH. f_equal. unfold accumulated.
  destruct (dict_get d0 (label c)); apply keys_dict_set.
Qed.

Lemma accumulated_proportion d0 c k :
  (proportion_of (accumulated d0 (label c) (share_of total c)) k
   == proportion_of d0 k
      + (if str_eqb (label c) k then share_of total c else 0))%Q.
Proof.
  unfold proportion_of, accumulated.
  destruct (str_eqb (label c) k) eqn:E.
  - apply str_eqb_eq in E. subst k.
    destruct (dict_get d0 (label c)); rewrite dict_get_set_same; reflexivity.
  - apply str_eqb_neq in E.
    destruct (dict_get d0 (label c)); rewrite dict_get_set_other by exact E;
      ring.
Qed.

Lemma accumulated_proportions configs : forall d0 k,
  (proportion_of (fold_left step configs d0) k
   == proportion_of d0 k
      + inject_Z (zsum (map App.count
                            (filter (fun c => str_eqb (label c) k) configs)))
        / inject_Z total)%Q.
Proof.
  assert (Hq : ~ (inject_Z total == 0)%Q) by (unfold Qeq; simpl; lia).
  induction configs as [|c configs IH]; intros d0 k; cbn [fold_left filter].
  - change (zsum (map App.count [])) with 0. field. exact Hq.
  - rewrite IH, accumulated_proportion.
    destruct (str_eqb (label c) k); cbn [map].
    + rewrite zsum_cons, inject_Z_plus. unfold share_of. field. exact Hq.
    + field. exact Hq.
Qed.
End Marginals.

(** With exact quotients and sums the combined distributions are the
    marginals of the group: the proportion of a label is the sum of the
    counts of the cells that carry it, divided by the total of the group. *)
Lemma local_distributions_are_marginals (configs : list App.config) :
  Orchestrator.total_for_type configs <> 0 ->
  exists dd bd,
    Orchestrator.local_distributions configs = Ok (dd, bd)
    /\ keys dd = first_seen (map App.difficulty configs)
    /\ keys bd = first_seen (map App.blooms_level configs)
    /\ (forall d v, dict_get dd d = Some v ->
                    (v == marginal (of_difficulty d) configs)%Q)
    /\ (forall b v, dict_get bd b = Some v ->
                    (v == marginal (of_blooms b) configs)%Q).
Proof.
  intros Hnz. unfold Orchestrator.local_distributions.
  rewrite (local_loop_accumulates _ Hnz).
  do 2 eexists. split; [reflexivity|].
  split; [apply (accumulated_keys _ App.difficulty)|].
  split; [apply (accumulated_keys _ App.blooms_level)|].
  split.
  - intros d v Hv.
    pose proof (accumulated_proportions _ Hnz App.difficulty configs [] d) as H.
    unfold proportion_of at 1 in H.
    change (fold_left _ configs []) with
      (fold_left (Orchestrator.accumulate_difficulty
                    (Orchestrator.total_for_type configs)) configs []) in H.
    rewrite Hv in H. rewrite H. unfold marginal, proportion_of, of_difficulty.
    cbn [dict_get]. ring.
  - intros b v Hv.
    pose proof (accumulated_proportions _ Hnz App.blooms_level configs [] b)
      as H.
    unfold proportion_of at 1 in H.
    change (fold_left _ configs []) with
      (fold_left (Orchestrator.accumulate_blooms
                    (Orchestrator.total_for_type configs)) configs []) in H.
    rewrite Hv in H. rewrite H. unfold marginal, proportion_of, of_blooms.
    cbn [dict_get]. ring.
Qed.


(** ** What the allocations hold *)

Lemma fold_left_preserves_in (A B : Type) (P : A -> Prop) (step : A -> B -> A)
      (l : list B) :
  (forall a y, In y l -> P a -> P (step a y)) ->
  forall a, P a -> P (fold_left step l a).
Proof.
  induction l as [|y l IH]; intros Hp a Ha; simpl; [exact Ha|].
  apply IH.
  - intros a' y' Hy'. apply Hp. now right.
  - apply Hp; [now left | exact Ha].
Qed.

Lemma kept_set (V : Type) (P : str * V -> Prop) (d : dict V) k v :
  kept P d -> P (k, v) -> kept P (dict_set d k v).
Proof.
  intros [Hnd Hall] Hp. split.
  - now apply dict_set_NoDup.
  - now apply dict_set_Forall.
Qed.

Section AppRaw.
Variable total_questions : Z.
Variables qd dd bd : dict Q.

Lemma app_blooms_loop_raw q qr d dr dist :
  In (q, qr) qd -> In (d, dr) dd ->
  kept (app_raw total_questions qd dd bd) dist ->
  kept (app_raw total_questions qd dd bd)
       (App.blooms_loop q d (App.d_count (App.q_count total_questions qr) dr)
                        bd dist).
Proof.
  intros Hq Hd. unfold App.blooms_loop, items.
  apply fold_left_preserves_in. intros a [b br] Hb Ha. cbv beta iota zeta.
  destruct (0 <? _) eqn:E; [|exact Ha].
  apply Z.ltb_lt in E. apply kept_set; [exact Ha|].
  split; [reflexivity|]. exists qr, dr, br. cbn. now conj.
Qed.

Lemma app_uncorrected_raw :
  kept (app_raw total_questions qd dd bd)
       (app_uncorrected total_questions qd dd bd).
Proof.
  unfold app_uncorrected, App.type_loop, items.
  apply fold_left_preserves_in; [|split; constructor].
  intros a [q qr] Hq Ha. cbv beta iota. unfold App.difficulty_loop, items.
  apply fold_left_preserves_in; [|exact Ha].
  intros a' [d dr] Hd Ha'. cbv beta iota. now apply app_blooms_loop_raw.
Qed.
End AppRaw.

Section UtilsRaw.
Variable num_questions : Z.
Variables dd bd : dict Q.

Lemma utils_uncorrected_raw :
  kept (utils_raw num_questions dd bd)
       (utils_uncorrected num_questions dd bd).
Proof.
  unfold utils_uncorrected, Utils.difficulty_loop, items.
  apply fold_left_preserves_in; [|split; constructor].
  intros a [d dr] Hd Ha. cbv beta iota. unfold Utils.blooms_loop, items.
  apply fold_left_preserves_in; [|exact Ha].
  intros a' [b br] Hb Ha'. cbv beta iota zeta.
  destruct (0 <? _) eqn:E; [|exact Ha'].
  apply Z.ltb_lt in E. apply kept_set; [exact Ha'|].
  split; [reflexivity|]. exists dr, br. cbn. now conj.
Qed.
End UtilsRaw.

(** The largest entry *)
Section Largest.
Variable V : Type.
Variable cnt : V -> Z.
Variable add : V -> Z -> V.

Lemma max_from_largest d : forall best,
  cnt (snd best) <= cnt (snd (max_from cnt best d))
  /\ forall kv, In kv d -> cnt (snd kv) <= cnt (snd (max_from cnt best d)).
Proof.
  induction d as [|[k v] d IH]; intros best; simpl.
  - split; [lia | tauto].
  - destruct (Z.ltb_spec (cnt (snd best)) (cnt v)) as [Hlt|Hge].
    + destruct (IH (k, v)) as [H1 H2]. simpl in H1. split; [lia|].
      intros kv [<-|Hin]; [exact H1 | now apply H2].
    + destruct (IH best) as [H1 H2]. split; [exact H1|].
      intros kv [<-|Hin]; [simpl; lia | now apply H2].
Qed.

(** The correction on a dictionary with distinct keys: it replaces one
    entry, an entry of largest count, by the same entry with the difference
    added to its count. *)
Lemma adjust_largest_shape (d : dict V) (delta : Z) :
  d <> [] -> NoDup (keys d) ->
  exists k e,
    In (k, e) d
    /\ (forall k' e', In (k', e') d -> cnt e' <= cnt e)
    /\ adjust_largest_by cnt add d delta = Ok (dict_set d k (add e delta)).
Proof.
  intros Hne Hnd. destruct d as [|kv d']; [congruence|].
  pose proof (max_from_in _ cnt d' kv) as Hin.
  pose proof (max_from_largest d' kv) as [Hbest Hrest].
  destruct (max_from cnt kv d') as [k e] eqn:E. exists k, e.
  split; [exact Hin|]. split.
  - intros k' e' [->|H]; [exact Hbest|]. exact (Hrest (k', e') H).
  - unfold adjust_largest_by, max_key, dict_lookup. rewrite E. cbn [bind fst].
    apply (dict_get_in_iff _ _ _ _ Hnd) in Hin. rewrite Hin. reflexivity.
Qed.
End Largest.

Section Corrected.
Variable V : Type.
Variable cnt : V -> Z.
Variable add : V -> Z -> V.
Variable raw : dict V.
Variable requested : Z.
Hypothesis raw_distinct : NoDup (keys raw).
Hypothesis raw_positive : forall k e, In (k, e) raw -> 0 < cnt e.

Lemma corrected_shape dist :
  (if negb (zsum (map cnt (values raw)) =? requested)
   then adjust_largest_by cnt add raw (requested - zsum (map cnt (values raw)))
   else Ok raw) = Ok dist ->
  (zsum (map cnt (values raw)) = requested /\ dist = raw)
  \/ (zsum (map cnt (values raw)) <> requested
      /\ exists k e,
           In (k, e) raw
           /\ (forall k' e', In (k', e') raw -> cnt e' <= cnt e)
           /\ dist = dict_set raw k
                              (add e (requested - zsum (map cnt (values raw))))).
Proof.
  destruct (Z.eqb_spec (zsum (map cnt (values raw))) requested) as [E|NE];
    cbn [negb]; intros H.
  - left. inv_ok H. now split.
  - right. split; [exact NE|].
    destruct raw as [|kv d'] eqn:Eraw; [discriminate|]. rewrite <- Eraw in *.
    destruct (adjust_largest_shape V cnt add raw
                (requested - zsum (map cnt (values raw))))
      as (k & e & Hin & Hmax & Hadj); [rewrite Eraw; discriminate | assumption |].
    rewrite Hadj in H. inv_ok H. exists k, e. now conj.
Qed.

Lemma corrected_lookup k e delta :
  dict_get (dict_set raw k (add e delta)) k = Some (add e delta)
  /\ (forall k', k' <> k ->
                 dict_get (dict_set raw k (add e delta)) k' = dict_get raw k')
  /\ (forall k' e', k' <> k ->
                    dict_get (dict_set raw k (add e delta)) k' = Some e' ->
                    0 < cnt e').
Proof.
  split; [apply dict_get_set_same|]. split.
  - intros k' NE. apply dict_get_set_other. congruence.
  - intros k' e' NE H. rewrite dict_get_set_other in H by congruence.
    apply (dict_get_in_iff _ _ _ _ raw_distinct) in H.
    exact (raw_positive _ _ H).
Qed.
End Corrected.

Lemma app_drawn_of_raw T qd dd bd entry :
  app_raw T qd dd bd entry -> app_drawn T qd dd bd entry.
Proof.
  intros (Hk & qr & dr & br & Hq & Hd & Hb & Hc & Hpos).
  split; [exact Hk|]. exists qr, dr, br. conj; auto. now rewrite <- Hc.
Qed.

Lemma utils_drawn_of_raw N dd bd entry :
  utils_raw N dd bd entry -> utils_drawn N dd bd entry.
Proof.
  intros (Hk & dr & br & Hd & Hb & Hc & Hpos).
  split; [exact Hk|]. exists dr, br. conj; auto. now rewrite <- Hc.
Qed.

Lemma app_raw_positive T qd dd bd k e :
  In (k, e) (app_uncorrected T qd dd bd) -> 0 < App.count e.
Proof.
  intros Hin. destruct (app_uncorrected_raw T qd dd bd) as [_ Hall].
  rewrite Forall_forall in Hall.
  destruct (Hall _ Hin) as (_ & qr & dr & br & _ & _ & _ & _ & Hpos).
  exact Hpos.
Qed.

Lemma utils_raw_positive N dd bd k e :
  In (k, e) (utils_uncorrected N dd bd) -> 0 < Utils.count e.
Proof.
  intros Hin. destruct (utils_uncorrected_raw N dd bd) as [_ Hall].
  rewrite Forall_forall in Hall.
  destruct (Hall _ Hin) as (_ & dr & br & _ & _ & _ & Hpos).
  exact Hpos.
Qed.

(** X5: in an allocation that the handler's allocator returns, and in a
    breakdown that a generator computes, the keys are distinct, every cell
    is filed under the key made of its own labels, and its labels are
    entries of the given distributions whose combination has a positive
    leaf count: a type, difficulty or level whose combinations all round
    to 0 gets no cell. *)
Theorem allocation_cells_are_drawn :
  (forall T qd dd bd dist,
      App.calculate_question_distribution T qd dd bd = Ok dist ->
      NoDup (keys dist) /\ Forall (app_drawn T qd dd bd) dist)
  /\
  (forall N dd bd qb,
      Utils.question_breakdown N dd bd = Ok qb ->
      NoDup (keys qb) /\ Forall (utils_drawn N dd bd) qb).
Proof.
  split.
  - intros T qd dd bd dist H.
    destruct (app_uncorrected_raw T qd dd bd) as [Hnd Hall].
    assert (Hdrawn : Forall (app_drawn T qd dd bd) (app_uncorrected T qd dd bd))
      by (eapply Forall_impl; [apply app_drawn_of_raw | exact Hall]).
    destruct (corrected_shape _ App.count App.add_count
                (app_uncorrected T qd dd bd) T Hnd
                (app_raw_positive T qd dd bd) dist H)
      as [[_ ->]|(_ & k & e & Hin & _ & ->)]; [now split|].
    split; [now apply dict_set_NoDup|].
    apply dict_set_Forall; [exact Hdrawn|].
    rewrite Forall_forall in Hdrawn. exact (Hdrawn _ Hin).
  - intros N dd bd qb H.
    destruct (utils_uncorrected_raw N dd bd) as [Hnd Hall].
    assert (Hdrawn : Forall (utils_drawn N dd bd) (utils_uncorrected N dd bd))
      by (eapply Forall_impl; [apply utils_drawn_of_raw | exact Hall]).
    destruct (corrected_shape _ Utils.count Utils.add_count
                (utils_uncorrected N dd bd) N Hnd
                (utils_raw_positive N dd bd) qb H)
      as [[_ ->]|(_ & k & e & Hin & _ & ->)]; [now split|].
    split; [now apply dict_set_NoDup|].
    apply dict_set_Forall; [exact Hdrawn|].
    rewrite Forall_forall in Hdrawn. exact (Hdrawn _ Hin).
Qed.

Lemma allocation_cells_are_drawn_witness :
  exists dist,
    App.calculate_question_distribution
      10 default_question_type_distribution default_difficulty_distribution
      default_blooms_taxonomy_distribution = Ok dist
    /\ NoDup (keys dist)
    /\ Forall (app_drawn 10 default_question_type_distribution
                         default_difficulty_distribution
                         default_blooms_taxonomy_distribution) dist.
Proof.
  eexists. split; [vm_compute; reflexivity|].
  apply (proj1 allocation_cells_are_drawn). vm_compute. reflexivity.
Defined.

(** X6: when the leaf counts do not add up to the requested total, the
    correction touches one cell only, a cell whose count is the largest:
    that cell gets the difference added to its count, every other key keeps
    its cell, and every other cell holds a positive count.  The corrected
    count itself can become 0 or negative. *)
Theorem correction_changes_largest_cell_only :
  (forall T qd dd bd dist,
      App.calculate_question_distribution T qd dd bd = Ok dist ->
      App.total (app_uncorrected T qd dd bd) <> T ->
      exists k e,
        In (k, e) (app_uncorrected T qd dd bd)
        /\ (forall k' e', In (k', e') (app_uncorrected T qd dd bd) ->
                          App.count e' <= App.count e)
        /\ dict_get dist k
           = Some (App.add_count
                     e (T - App.total (app_uncorrected T qd dd bd)))
        /\ (forall k', k' <> k ->
                       dict_get dist k'
                       = dict_get (app_uncorrected T qd dd bd) k')
        /\ (forall k' e', k' <> k -> dict_get dist k' = Some e' ->
                          0 < App.count e'))
  /\
  (forall N dd bd qb,
      Utils.question_breakdown N dd bd = Ok qb ->
      Utils.total (utils_uncorrected N dd bd) <> N ->
      exists k e,
        In (k, e) (utils_uncorrected N dd bd)
        /\ (forall k' e', In (k', e') (utils_uncorrected N dd bd) ->
                          Utils.count e' <= Utils.count e)
        /\ dict_get qb k
           = Some (Utils.add_count
                     e (N - Utils.total (utils_uncorrected N dd bd)))
        /\ (forall k', k' <> k ->
                       dict_get qb k' = dict_get (utils_uncorrected N dd bd) k')
        /\ (forall k' e', k' <> k -> dict_get qb k' = Some e' ->
                          0 < Utils.count e')).
Proof.
  split.
  - intros T qd dd bd dist H NE.
    destruct (app_uncorrected_raw T qd dd bd) as [Hnd _].
    destruct (corrected_shape _ App.count App.add_count
                (app_uncorrected T qd dd bd) T Hnd
                (app_raw_positive T qd dd bd) dist H)
      as [[E _]|(_ & k & e & Hin & Hmax & ->)]; [contradiction|].
    exists k, e. split; [exact Hin|]. split; [exact Hmax|].
    apply (corrected_lookup _ App.count App.add_count _ Hnd
                            (app_raw_positive T qd dd bd)).
  - intros N dd bd qb H NE.
    destruct (utils_uncorrected_raw N dd bd) as [Hnd _].
    destruct (corrected_shape _ Utils.count Utils.add_count
                (utils_uncorrected N dd bd) N Hnd
                (utils_raw_positive N dd bd) qb H)
      as [[E _]|(_ & k & e & Hin & Hmax & ->)]; [contradiction|].
    exists k, e. split; [exact Hin|]. split; [exact Hmax|].
    apply (corrected_lookup _ Utils.count Utils.add_count _ Hnd
                            (utils_raw_positive N dd bd)).
Qed.

Lemma correction_changes_largest_cell_only_witness :
  App.total (app_uncorrected 17 seventeen_types seventeen_difficulty
                             seventeen_blooms) = 27
  /\ exists dist k e,
       App.calculate_question_distribution
         17 seventeen_types seventeen_difficulty seventeen_blooms = Ok dist
       /\ In (k, e) (app_uncorrected 17 seventeen_types seventeen_difficulty
                                     seventeen_blooms)
       /\ dict_get dist k
          = Some (App.add_count
                    e (17 - App.total
                              (app_uncorrected 17 seventeen_types
                                               seventeen_difficulty
                                               seventeen_blooms)))
       /\ dict_get dist (lit "mcq_basic_remember")
          = Some (App.mk_config (lit "mcq") (lit "basic") (lit "remember") (-9)).
Proof.
  split; [vm_compute; reflexivity|].
  destruct (App.calculate_question_distribution
              17 seventeen_types seventeen_difficulty seventeen_blooms)
    as [dist|] eqn:E; [|vm_compute in E; discriminate].
  destruct (proj1 correction_changes_largest_cell_only
                  17 seventeen_types seventeen_difficulty seventeen_blooms
                  dist E) as (k & e & Hin & _ & Hk & _);
    [vm_compute; discriminate|].
  exists dist, k, e. split; [reflexivity|]. split; [exact Hin|].
  split; [exact Hk|]. vm_compute in E. inv_ok E. vm_compute. reflexivity.
Defined.

(** ** The length of the sequence *)

Lemma zsum_max_min l :
  zsum (map (Z.max 0) l) = zsum l - zsum (map (Z.min 0) l).
Proof.
  induction l as [|z l IH]; [reflexivity|].
  cbn [map]. rewrite !zsum_cons, IH.
  generalize (zsum (map (Z.min 0) l)) (zsum l). intros a b. lia.
Qed.

Lemma runs_length_any qb :
  Z.of_nat (List.length (flat_map cell_run qb))
  = zsum (map (Z.max 0) (map Utils.count (values qb))).
Proof.
  unfold values. induction qb as [|[k s] qb IH]; [reflexivity|].
  cbn [flat_map map]. rewrite length_app, zsum_cons, Nat2Z.inj_add, IH.
  unfold cell_run. cbn [snd]. rewrite repeat_length. lia.
Qed.

Lemma breakdown_returned_total N dd bd qb :
  Utils.question_breakdown N dd bd = Ok qb -> Utils.total qb = N.
Proof.
  intros H. destruct (utils_uncorrected_raw N dd bd) as [Hnd _].
  destruct (corrected_shape _ Utils.count Utils.add_count
              (utils_uncorrected N dd bd) N Hnd
              (utils_raw_positive N dd bd) qb H)
    as [[E ->]|(_ & k & e & Hin & _ & ->)]; [exact E|].
  apply (dict_get_in_iff _ _ _ _ Hnd) in Hin. unfold Utils.total.
  rewrite (zsum_dict_set _ Utils.count _ _ _ _ Hin). cbn. lia.
Qed.

(** X7: the sequence built from a breakdown that a generator computed has
    as many entries as questions were requested, plus the absolute value of
    each negative count (a negative count adds no entry but was paid for by
    the other cells); without a negative count the sequence has exactly
    [num_questions] entries. *)
Theorem sequence_length_of_breakdown N dd bd qb :
  Utils.question_breakdown N dd bd = Ok qb ->
  Z.of_nat (List.length (Utils.create_question_sequence qb))
  = N - zsum (map (Z.min 0) (map Utils.count (values qb)))
  /\ (counts_nonneg qb ->
      Z.of_nat (List.length (Utils.create_question_sequence qb)) = N).
Proof.
  intros H. pose proof (breakdown_returned_total _ _ _ _ H) as Htotal.
  rewrite create_question_sequence_runs. split.
  - rewrite runs_length_any, zsum_max_min. unfold Utils.total in Htotal.
    now rewrite Htotal.
  - intros Hnn. now rewrite runs_length.
Qed.

Lemma sequence_length_of_breakdown_witness :
  exists qb,
    Utils.question_breakdown 10 default_difficulty_distribution
                             default_blooms_taxonomy_distribution = Ok qb
    /\ List.length (Utils.create_question_sequence qb) = 10%nat.
Proof.
  destruct (Utils.question_breakdown 10 default_difficulty_distribution
                                     default_blooms_taxonomy_distribution)
    as [qb|] eqn:E; [|vm_compute in E; discriminate].
  exists qb. split; [reflexivity|].
  destruct (sequence_length_of_breakdown _ _ _ _ E) as [_ H].
  apply Nat2Z.inj. apply H.
  vm_compute in E. inv_ok E. intros k s Hin. simpl in Hin.
  repeat (destruct Hin as [Hin|Hin]; [inv_ok Hin; simpl; lia|]).
  destruct Hin.
Defined.

(** ** The first result that does not pass *)


(** X8: the results are inspected in the order of the question types, and
    the first one that is an exception or carries a non-empty error text
    decides the outcome: its exception is raised, or an exception whose
    text is "Error in <type>: <text>"; the results after it are not looked
    at, so a later failure is not reported. *)
Theorem first_failure_is_reported
        (question_data : Type)
        (passed : list (Orchestrator.gathered question_data))
        (r : Orchestrator.gathered question_data)
        (rest : list (Orchestrator.gathered question_data))
        files_generated all_question_data :
  forallb passes passed = true -> passes r = false ->
  Orchestrator.process_results (passed ++ r :: rest)
                               files_generated all_question_data
  = Raise (raised_by r).
Proof.
  intros Hpassed Hr. revert files_generated all_question_data.
  induction passed as [|p passed IH]; intros files all_data.
  - cbn [app Orchestrator.process_results].
    destruct r as [e|[[[t f] d] error]].
    + reflexivity.
    + cbn in Hr. apply negb_false_iff in Hr. rewrite Hr. reflexivity.
  - cbn [forallb] in Hpassed. apply andb_true_iff in Hpassed.
    destruct Hpassed as [Hp Hpassed].
    destruct p as [e|[[[t f] d] error]]; [discriminate|].
    cbn in Hp. apply negb_true_iff in Hp.
    cbn [app Orchestrator.process_results]. rewrite Hp. now apply IH.
Qed.

Lemma first_failure_is_reported_witness :
  Orchestrator.process_results
    ([Orchestrator.GResult (lit "mcq", Some (lit "a.json"), Some tt, None)]
       ++ Orchestrator.GResult (lit "fib", None, None, Some (lit "timeout"))
       :: [Orchestrator.GResult (lit "tf", None, None, Some (lit "refused"))])
    [] []
  = Raise (Exception (lit "Error in fib: timeout")).
Proof.
  apply (first_failure_is_reported
           unit
           [Orchestrator.GResult (lit "mcq", Some (lit "a.json"), Some tt, None)]
           (Orchestrator.GResult (lit "fib", None, None, Some (lit "timeout")))
           [Orchestrator.GResult (lit "tf", None, None, Some (lit "refused"))]);
    reflexivity.
Defined.

(** ** The response when every job returns *)

Section FullResponse.
Import Orchestrator.
Variable question_data : Type.
Variable backend : str -> Z -> dict Q -> dict Q -> job_run question_data.
Hypothesis every_job_returns :
  forall t n dd bd, exists file_name data,
    backend t n dd bd = Returned file_name data.

Lemma submit_all_answered type_groups :
  (forall t configs, In (t, configs) type_groups ->
                     total_for_type configs <> 0) ->
  exists results,
    submit_all backend type_groups = Ok results
    /\ Forall2 answered (keys type_groups) results.
Proof.
  induction type_groups as [|[t configs] rest IH]; intros Htotal.
  - exists []. split; [reflexivity | constructor].
  - destruct IH as (results & E & Hall).
    { intros t' c' Hin. apply (Htotal t' c'). now right. }
    cbn [submit_all submit]. unfold local_distributions.
    rewrite (local_loop_accumulates
               _ (Htotal t configs (or_introl eq_refl))).
    cbn [bind]. rewrite E. cbn [bind].
    destruct (every_job_returns
                t (total_for_type configs)
                (fold_left (accumulate_difficulty (total_for_type configs))
                           configs [])
                (fold_left (accumulate_blooms (total_for_type configs))
                           configs []))
      as (file_name & data & ->).
    eexists. split; [reflexivity|]. cbn [keys map fst]. constructor.
    + exists file_name, data. reflexivity.
    + exact Hall.
Qed.

Lemma process_results_answered ts results :
  Forall2 answered ts results ->
  forall files_generated (all_question_data : dict (option question_data)),
    NoDup (keys all_question_data ++ ts) ->
    exists files data,
      process_results results files_generated all_question_data
      = Ok (files_generated ++ files, all_question_data ++ data)
      /\ keys data = ts
      /\ List.length files = List.length ts
      /\ Forall (fun f => f <> None) files
      /\ Forall (fun kv => snd kv <> None) data.
Proof.
  induction 1 as [|t r ts results (file_name & data & ->) _ IH];
    intros files all_data Hnd.
  - exists [], []. rewrite !app_nil_r. repeat split; constructor.
  - cbn [process_results error_truthy].
    pose proof (NoDup_remove_2 _ _ _ Hnd) as Ht.
    rewrite dict_set_absent by (intros Hin; apply Ht, in_or_app; now left).
    destruct (IH (files ++ [Some file_name]) (all_data ++ [(t, Some data)]))
      as (files' & data' & E & Hkeys & Hlen & Hfiles & Hdata).
    { unfold keys in *. rewrite map_app. cbn [map fst].
      rewrite <- app_assoc. exact Hnd. }
    exists (Some file_name :: files'), ((t, Some data) :: data').
    rewrite E, <- !app_assoc. cbn [app]. split; [reflexivity|].
    split; [cbn [keys map fst]; unfold keys in Hkeys; now rewrite Hkeys|].
    split; [cbn [List.length]; now rewrite Hlen|].
    split; constructor; try assumption; discriminate.
Qed.
End FullResponse.

(** X9: when the allocation returns, no group of cells has a total of 0
    and every job returns, the request is answered, with one file name and
    one document per question type that has a cell in the allocation, the
    documents keyed by the types in the order in which the allocation first
    names them; a question type without a cell gets no job and no entry. *)
Theorem every_group_is_answered
        (question_data : Type)
        (backend : str -> Z -> dict Q -> dict Q
                   -> Orchestrator.job_run question_data)
        (content_summary : str) (total_questions : Z)
        (qd dd bd : dict Q) (dist : dict App.config)
        (type_groups : dict (list App.config)) :
  App.calculate_question_distribution total_questions qd dd bd = Ok dist ->
  Orchestrator.group_by_type dist = Ok type_groups ->
  (forall t configs, In (t, configs) type_groups ->
                     Orchestrator.total_for_type configs <> 0) ->
  (forall t n dd' bd', exists file_name data,
      backend t n dd' bd' = Orchestrator.Returned file_name data) ->
  exists files data,
    Orchestrator.generate_questions backend (Ok content_summary)
                                    total_questions qd dd bd
    = Orchestrator.Response files data
    /\ keys data = first_seen (map App.question_type (values dist))
    /\ List.length files = List.length data
    /\ Forall (fun f => f <> None) files
    /\ Forall (fun kv => snd kv <> None) data.
Proof.
  intros Hdist Hgroups Htotal Hreturns.
  destruct (submit_all_answered question_data backend Hreturns
                                type_groups Htotal)
    as (results & Hsubmit & Hall).
  assert (Hkeys : keys type_groups
                  = first_seen (map App.question_type (values dist))).
  { revert Hgroups. unfold Orchestrator.group_by_type, items.
    rewrite group_loop_grouped. intros H. inv_ok H.
    rewrite grouped_keys. reflexivity. }
  assert (Hnd : NoDup (keys type_groups)).
  { rewrite Hkeys. apply first_seen_from. constructor. }
  destruct (process_results_answered question_data _ _ Hall [] [] Hnd)
    as (files & data & E & Hk & Hlen & Hfiles & Hdata).
  exists files, data.
  unfold Orchestrator.generate_questions. cbn [bind].
  rewrite Hdist. cbn [bind]. rewrite Hgroups. cbn [bind].
  unfold items. rewrite Hsubmit. cbn [bind]. rewrite E. cbn [app].
  split; [reflexivity|]. split; [now rewrite Hk|].
  split; [|now split].
  rewrite Hlen, <- Hk. unfold keys. now rewrite length_map.
Qed.

Lemma every_group_is_answered_witness :
  exists files data,
    Orchestrator.generate_questions
      (always_returns (lit "out.json") tt) (Ok (lit "summary")) 10
      default_question_type_distribution default_difficulty_distribution
      default_blooms_taxonomy_distribution
    = Orchestrator.Response files data
    /\ keys data = [lit "mcq"]
    /\ List.length files = 1%nat.
Proof.
  destruct (App.calculate_question_distribution
              10 default_question_type_distribution
              default_difficulty_distribution
              default_blooms_taxonomy_distribution) as [dist|] eqn:Hdist;
    [|vm_compute in Hdist; discriminate].
  destruct (Orchestrator.group_by_type dist) as [type_groups|] eqn:Hgroups;
    [|vm_compute in Hdist; inv_ok Hdist; vm_compute in Hgroups; discriminate].
  destruct (every_group_is_answered
              unit (always_returns (lit "out.json") tt) (lit "summary")
              10 default_question_type_distribution
              default_difficulty_distribution
              default_blooms_taxonomy_distribution dist type_groups
              Hdist Hgroups)
    as (files & data & E & Hk & Hlen & _).
  - vm_compute in Hdist. inv_ok Hdist. vm_compute in Hgroups. inv_ok Hgroups.
    intros t configs Hin. simpl in Hin.
    repeat (destruct Hin as [Hin|Hin]; [inv_ok Hin; vm_compute; discriminate|]).
    destruct Hin.
  - intros t n dd' bd'. exists (lit "out.json"), tt. reflexivity.
  - exists files, data. split; [exact E|].
    vm_compute in Hdist. inv_ok Hdist.
    split; [rewrite Hk; vm_compute; reflexivity|].
    rewrite Hlen, <- (length_map fst data). fold (keys data). rewrite Hk.
    vm_compute. reflexivity.
Defined.

(** ** Splitting at the first occurrence of a marker *)


Lemma startswith_app_cases m : forall a b,
  startswith m (a ++ b) = true ->
  startswith m a = true
  \/ exists u, m = a ++ u /\ startswith u b = true.
Proof.
  induction m as [|x m IH]; intros a b H; [now left|].
  destruct a as [|y a].
  - right. exists (x :: m). split; [reflexivity | exact H].
  - cbn [app startswith] in H |- *.
    destruct (ascii_dec x y) as [->|NE]; [|discriminate].
    destruct (IH a b H) as [Ha|(u & -> & Hu)]; [now left|].
    right. exists u. split; [reflexivity | exact Hu].
Qed.

Section FirstOccurrence.
Variable c : ascii.
Variable sep' : str.
Hypothesis head_not_in_tail : ~ In c sep'.
Local Abbreviation sep := (c :: sep').

Lemma startswith_before_marker s t :
  s <> [] -> startswith sep s = false ->
  startswith sep (s ++ sep ++ t) = false.
Proof.
  intros Hne Hs. destruct (startswith sep (s ++ sep ++ t)) eqn:E; [|reflexivity].
  destruct (startswith_app_cases _ _ _ E) as [H|(u & Hu & Hst)]; [congruence|].
  destruct s as [|x s]; [congruence|].
  injection Hu as -> ->.
  destruct u as [|y u].
  - rewrite app_nil_r in Hs. exfalso.
    assert (H : startswith (x :: s) (x :: s) = true)
      by (apply startswith_iff; exists []; now rewrite app_nil_r).
    congruence.
  - cbn [app startswith] in Hst.
    destruct (ascii_dec y x) as [->|NE]; [|discriminate].
    exfalso. apply head_not_in_tail. apply in_or_app. right. now left.
Qed.

Lemma split_go_skip : forall pre budget cur t,
  split_go sep budget (List.length pre) cur (pre ++ t)
  = split_go sep budget O cur t.
Proof.
  induction pre as [|x pre IH]; intros budget cur t; [reflexivity|].
  cbn [List.length app split_go]. apply IH.
Qed.

Lemma split_go_first t : forall s budget cur,
  budget <> Some O -> contains sep s = false ->
  split_go sep budget O cur (s ++ sep ++ t)
  = (rev cur ++ s) :: split_go sep (option_map Nat.pred budget) O [] t.
Proof.
  induction s as [|x s IH]; intros budget cur Hb Hs.
  - cbn [app]. rewrite app_nil_r.
    assert (E : startswith sep (sep ++ t) = true)
      by (apply startswith_iff; now exists t).
    change (c :: sep' ++ t) with (sep ++ t) in *.
    cbn [split_go app]. cbn [app] in E. rewrite E.
    cbn [List.length Nat.pred]. rewrite split_go_skip.
    destruct budget as [[|n]|]; [congruence | reflexivity | reflexivity].
  - cbn [contains] in Hs. apply orb_false_iff in Hs. destruct Hs as [Hx Hs].
    pose proof (startswith_before_marker (x :: s) t ltac:(discriminate) Hx) as E.
    cbn [app] in E |- *. cbn [split_go].
    pose proof (IH budget (x :: cur) Hb Hs) as Hrec.
    cbn [rev] in Hrec. rewrite <- app_assoc in Hrec. cbn [app] in Hrec.
    destruct budget as [[|n]|]; [congruence | |]; rewrite E; exact Hrec.
Qed.

Lemma split_go_absent : forall s budget cur,
  contains sep s = false -> split_go sep budget O cur s = [rev cur ++ s].
Proof.
  induction s as [|x s IH]; intros budget cur Hs.
  - cbn [split_go]. now rewrite app_nil_r.
  - cbn [contains] in Hs. apply orb_false_iff in Hs. destruct Hs as [Hx Hs].
    pose proof (IH budget (x :: cur) Hs) as Hrec.
    cbn [rev] in Hrec. rewrite <- app_assoc in Hrec. cbn [app] in Hrec.
    cbn [split_go].
    destruct budget as [[|n]|]; [exact Hrec | |]; rewrite Hx; exact Hrec.
Qed.

Lemma split_first_occurrence s t :
  contains sep s = false -> split sep (s ++ sep ++ t) = s :: split sep t.
Proof. intros Hs. unfold split. now rewrite split_go_first. Qed.

Lemma split_absent s : contains sep s = false -> split sep s = [s].
Proof. intros Hs. unfold split. now rewrite split_go_absent. Qed.

Lemma split_once s t :
  contains sep s = false -> contains sep t = false ->
  split sep (s ++ sep ++ t) = [s; t].
Proof.
  intros Hs Ht. now rewrite split_first_occurrence, split_absent.
Qed.

End FirstOccurrence.


Lemma marker_head sep :
  marker sep = true -> exists c sep', sep = c :: sep' /\ ~ In c sep'.
Proof.
  destruct sep as [|c sep']; [discriminate|]. cbn [marker]. intros H.
  exists c, sep'. split; [reflexivity|]. intros Hin.
  apply negb_true_iff in H.
  assert (E : existsb (fun x => if ascii_dec c x then true else false) sep' = true).
  { apply existsb_exists. exists c. split; [exact Hin|].
    destruct (ascii_dec c c); congruence. }
  congruence.
Qed.

Lemma marker_split_first sep s t :
  marker sep = true -> contains sep s = false ->
  split sep (s ++ sep ++ t) = s :: split sep t.
Proof.
  intros Hm. destruct (marker_head _ Hm) as (c & sep' & -> & Hc).
  now apply split_first_occurrence.
Qed.

Lemma marker_split_once sep s t :
  marker sep = true -> occurs_once sep s t -> split sep (s ++ sep ++ t) = [s; t].
Proof.
  intros Hm [Hs Ht]. destruct (marker_head _ Hm) as (c & sep' & -> & Hc).
  now apply split_once.
Qed.

Lemma marker_split_leading sep t :
  marker sep = true -> contains sep t = false -> split sep (sep ++ t) = [[]; t].
Proof.
  intros Hm Ht. apply (marker_split_once sep [] t Hm). split; [|exact Ht].
  destruct sep; [discriminate | reflexivity].
Qed.

Lemma contains_marked sep s t : contains sep (s ++ sep ++ t) = true.
Proof. apply contains_iff. now exists s, t. Qed.

Lemma contains_leading sep t : contains sep (sep ++ t) = true.
Proof. apply (contains_marked sep [] t). Qed.

Lemma explanation_after_answer a :
  contains EXPLANATION (ANSWER ++ a) = contains EXPLANATION a.
Proof. reflexivity. Qed.

(** ** Blocks in which every marker occurs once *)

(** The true/false extraction on a block that reads statement, [ANSWER:],
    answer, [EXPLANATION:], explanation, each marker occurring once *)
Lemma tf_extract_well_formed s a e :
  occurs_once ANSWER s (a ++ EXPLANATION ++ e) ->
  occurs_once EXPLANATION a e ->
  Tf.extract (s ++ ANSWER ++ a ++ EXPLANATION ++ e)
  = Ok (Tf.mk (strip s) (strip a) (strip e) [] [] (lit "tf")).
Proof.
  intros HA [HEa HEe].
  unfold Tf.extract, Tf.extract_statement.
  rewrite contains_marked, (marker_split_once ANSWER _ _ eq_refl HA).
  cbn [index nth_error bind].
  unfold Tf.extract_answer.
  rewrite contains_leading.
  replace (contains EXPLANATION (ANSWER ++ a ++ EXPLANATION ++ e)) with true
    by (symmetry; rewrite app_assoc; apply contains_marked).
  cbn [andb].
  rewrite (marker_split_leading ANSWER _ eq_refl (proj2 HA)).
  cbn [index nth_error bind].
  rewrite (marker_split_first EXPLANATION _ _ eq_refl HEa).
  cbn [index nth_error bind].
  unfold Tf.extract_explanation.
  replace (ANSWER ++ a ++ EXPLANATION ++ e)
    with ((ANSWER ++ a) ++ EXPLANATION ++ e) by now rewrite <- app_assoc.
  rewrite contains_marked.
  rewrite (marker_split_once EXPLANATION (ANSWER ++ a) e eq_refl)
    by (split; [now rewrite explanation_after_answer | exact HEe]).
  reflexivity.
Qed.




Lemma distractor_after_explanation key x :
  In key Mcq.distractor_keys ->
  contains key (EXPLANATION ++ x) = contains key x.
Proof. intros [<-|[<-|[<-|[]]]]; reflexivity. Qed.

Lemma absent_suffix m p x :
  contains m (p ++ x) = false -> contains m x = false.
Proof.
  apply absent_in_substring. exists p, []. now rewrite app_nil_r.
Qed.

(** The multiple-choice extraction on a block that reads question,
    [ANSWER:], answer, [EXPLANATION:], explanation, [DISTRACTOR1:],
    [DISTRACTOR2:], [DISTRACTOR3:] with their texts, each marker occurring
    once and in this order *)
Lemma mcq_extract_well_formed q a e d1 d2 d3 :
  let r3 := d2 ++ Mcq.DISTRACTOR3 ++ d3 in
  let r2 := d1 ++ Mcq.DISTRACTOR2 ++ r3 in
  let r1 := e ++ Mcq.DISTRACTOR1 ++ r2 in
  let r0 := a ++ EXPLANATION ++ r1 in
  occurs_once ANSWER q r0 ->
  occurs_once EXPLANATION a r1 ->
  occurs_once Mcq.DISTRACTOR1 e r2 ->
  occurs_once Mcq.DISTRACTOR2 (e ++ Mcq.DISTRACTOR1 ++ d1) r3 ->
  occurs_once Mcq.DISTRACTOR3
       (e ++ Mcq.DISTRACTOR1 ++ d1 ++ Mcq.DISTRACTOR2 ++ d2) d3 ->
  Mcq.extract (q ++ ANSWER ++ r0)
  = Ok (Mcq.mk (strip q) (strip a) (strip e)
               [strip d1; strip d2; strip d3] [] [] (lit "mcq")).
Proof.
  intros r3 r2 r1 r0 HA HE H1 H2 H3.
  unfold Mcq.extract, Mcq.extract_question.
  rewrite contains_marked, (marker_split_once ANSWER _ _ eq_refl HA).
  cbn [index nth_error bind].
  unfold Mcq.extract_answer.
  rewrite contains_leading.
  assert (HE0 : occurs_once EXPLANATION (ANSWER ++ a) r1).
  { split; [rewrite explanation_after_answer|]; apply HE. }
  assert (E0 : ANSWER ++ r0 = (ANSWER ++ a) ++ EXPLANATION ++ r1)
    by (unfold r0; now rewrite <- app_assoc).
  rewrite E0 at 1. rewrite contains_marked. cbn [andb].
  rewrite (marker_split_leading ANSWER _ eq_refl (proj2 HA)).
  cbn [index nth_error bind].
  unfold r0 at 1.
  rewrite (marker_split_first EXPLANATION _ _ eq_refl (proj1 HE)).
  cbn [index nth_error bind].
  rewrite E0, (marker_split_once EXPLANATION _ _ eq_refl HE0).
  cbn [index nth_error bind].
  unfold Mcq.extract_explanation.
  rewrite contains_leading,
    (marker_split_leading EXPLANATION _ eq_refl (proj2 HE)).
  cbn [index nth_error bind].
  unfold r1 at 1 2. rewrite contains_marked.
  rewrite (marker_split_first Mcq.DISTRACTOR1 _ _ eq_refl (proj1 H1)).
  cbn [index nth_error bind].
  unfold Mcq.extract_distractors, Mcq.distractor_keys.
  cbn [Mcq.distractor_loop].
  (* each distractor marker occurs once in the block that is left *)
  assert (B1 : EXPLANATION ++ r1
               = (EXPLANATION ++ e) ++ Mcq.DISTRACTOR1 ++ r2)
    by (unfold r1; now rewrite <- app_assoc).
  assert (B2 : EXPLANATION ++ r1
               = (EXPLANATION ++ e ++ Mcq.DISTRACTOR1 ++ d1)
                   ++ Mcq.DISTRACTOR2 ++ r3)
    by (unfold r1, r2; now rewrite <- !app_assoc).
  assert (B3 : EXPLANATION ++ r1
               = (EXPLANATION ++ e ++ Mcq.DISTRACTOR1 ++ d1
                              ++ Mcq.DISTRACTOR2 ++ d2)
                   ++ Mcq.DISTRACTOR3 ++ d3)
    by (unfold r1, r2, r3; now rewrite <- !app_assoc).
  assert (O1 : occurs_once Mcq.DISTRACTOR1 (EXPLANATION ++ e) r2).
  { split; [|apply H1].
    rewrite distractor_after_explanation by (simpl; auto). apply H1. }
  assert (O2 : occurs_once Mcq.DISTRACTOR2
                    (EXPLANATION ++ e ++ Mcq.DISTRACTOR1 ++ d1) r3).
  { split; [|apply H2].
    rewrite distractor_after_explanation by (simpl; auto). apply H2. }
  assert (O3 : occurs_once Mcq.DISTRACTOR3
                    (EXPLANATION ++ e ++ Mcq.DISTRACTOR1 ++ d1
                                 ++ Mcq.DISTRACTOR2 ++ d2) d3).
  { split; [|apply H3].
    rewrite distractor_after_explanation by (simpl; auto). apply H3. }
  assert (C1 : contains Mcq.DISTRACTOR1 (EXPLANATION ++ r1) = true)
    by (rewrite B1; apply contains_marked).
  assert (C2 : contains Mcq.DISTRACTOR2 (EXPLANATION ++ r1) = true)
    by (rewrite B2; apply contains_marked).
  assert (C3 : contains Mcq.DISTRACTOR3 (EXPLANATION ++ r1) = true)
    by (rewrite B3; apply contains_marked).
  assert (S1 : split Mcq.DISTRACTOR1 (EXPLANATION ++ r1)
               = [EXPLANATION ++ e; r2])
    by (rewrite B1; now apply marker_split_once).
  assert (S2 : split Mcq.DISTRACTOR2 (EXPLANATION ++ r1)
               = [EXPLANATION ++ e ++ Mcq.DISTRACTOR1 ++ d1; r3])
    by (rewrite B2; now apply marker_split_once).
  assert (S3 : split Mcq.DISTRACTOR3 (EXPLANATION ++ r1)
               = [EXPLANATION ++ e ++ Mcq.DISTRACTOR1 ++ d1
                              ++ Mcq.DISTRACTOR2 ++ d2; d3])
    by (rewrite B3; now apply marker_split_once).
  unfold Mcq.distractor_step.
  assert (F2 : split Mcq.DISTRACTOR2 r2 = d1 :: split Mcq.DISTRACTOR2 r3).
  { apply (marker_split_first Mcq.DISTRACTOR2 d1 r3 eq_refl).
    apply (absent_suffix _ (e ++ Mcq.DISTRACTOR1)).
    rewrite <- app_assoc. apply H2. }
  assert (F3 : split Mcq.DISTRACTOR3 r3 = d2 :: split Mcq.DISTRACTOR3 d3).
  { apply (marker_split_first Mcq.DISTRACTOR3 d2 d3 eq_refl).
    apply (absent_suffix _ (e ++ Mcq.DISTRACTOR1 ++ d1 ++ Mcq.DISTRACTOR2)).
    rewrite <- !app_assoc. apply H3. }
  change (truthy Mcq.DISTRACTOR2) with true.
  change (truthy Mcq.DISTRACTOR3) with true.
  rewrite C1, S1.
  cbn [index nth_error bind Nat.add Nat.ltb Nat.leb List.length
       Mcq.distractor_keys].
  rewrite C2, F2, S2. cbn [andb index nth_error bind].
  rewrite C3, F3, S3. cbn [andb index nth_error bind].
  reflexivity.
Qed.



(** The fill-in-blank extraction on a block that reads question,
    [ANSWER:], answer, [EXPLANATION:], explanation, each marker occurring
    once *)
Lemma fib_extract_well_formed q a e :
  occurs_once ANSWER q (a ++ EXPLANATION ++ e) ->
  occurs_once EXPLANATION a e ->
  exists items,
    Fib.answer_items (strip a) = Ok items
    /\ Fib.extract (q ++ ANSWER ++ a ++ EXPLANATION ++ e)
       = Ok (Fib.mk (strip q) items (strip e) [] [] (lit "fib")).
Proof.
  intros HA [HEa HEe].
  destruct (fib_answer_lines_loop_returns (split Fib.NEWLINE (strip a)) [])
    as [items Hitems].
  exists items. split; [exact Hitems|].
  unfold Fib.extract, Fib.extract_question.
  rewrite contains_marked, (marker_split_once ANSWER _ _ eq_refl HA).
  cbn [index nth_error bind].
  unfold Fib.extract_answer.
  rewrite contains_leading.
  replace (contains EXPLANATION (ANSWER ++ a ++ EXPLANATION ++ e)) with true
    by (symmetry; rewrite app_assoc; apply contains_marked).
  cbn [andb].
  rewrite (marker_split_leading ANSWER _ eq_refl (proj2 HA)).
  cbn [index nth_error bind].
  rewrite (marker_split_first EXPLANATION _ _ eq_refl HEa).
  cbn [index nth_error bind].
  cbn [Fib.answer Fib.set_question Fib.default_obj].
  unfold Fib.answer_items in Hitems. rewrite Hitems. cbn [bind].
  unfold Fib.extract_explanation.
  replace (ANSWER ++ a ++ EXPLANATION ++ e)
    with ((ANSWER ++ a) ++ EXPLANATION ++ e) by now rewrite <- app_assoc.
  rewrite contains_marked.
  rewrite (marker_split_once EXPLANATION (ANSWER ++ a) e eq_refl)
    by (split; [now rewrite explanation_after_answer | exact HEe]).
  reflexivity.
Qed.


(** ** An answer that no explanation follows *)

(** X10: a block that reads text, [ANSWER:], answer, with no
    [EXPLANATION:] in it: the true/false extraction keeps the answer, the
    fill-in-blank and the multiple-choice extractions leave it empty, since
    they read the answer only when both markers occur; all three keep the
    text before [ANSWER:]. *)
Theorem answer_without_explanation s a :
  occurs_once ANSWER s a ->
  contains EXPLANATION (s ++ ANSWER ++ a) = false ->
  Tf.extract (s ++ ANSWER ++ a)
  = Ok (Tf.mk (strip s) (strip a) [] [] [] (lit "tf"))
  /\ Fib.extract (s ++ ANSWER ++ a)
     = Ok (Fib.mk (strip s) [] [] [] [] (lit "fib"))
  /\ exists o,
       Mcq.extract (s ++ ANSWER ++ a) = Ok o
       /\ Mcq.question o = strip s /\ Mcq.answer o = []
       /\ Mcq.explanation o = [].
Proof.
  intros HA HE.
  assert (HE' : contains EXPLANATION (ANSWER ++ a) = false)
    by exact (absent_suffix _ _ _ HE).
  split; [|split].
  - unfold Tf.extract, Tf.extract_statement.
    rewrite contains_marked, (marker_split_once ANSWER _ _ eq_refl HA).
    cbn [index nth_error bind].
    unfold Tf.extract_answer. rewrite contains_leading, HE'. cbn [andb].
    rewrite (marker_split_leading ANSWER _ eq_refl (proj2 HA)).
    cbn [index nth_error bind].
    unfold Tf.extract_explanation. rewrite HE'. reflexivity.
  - unfold Fib.extract, Fib.extract_question.
    rewrite contains_marked, (marker_split_once ANSWER _ _ eq_refl HA).
    cbn [index nth_error bind].
    unfold Fib.extract_answer. rewrite contains_leading, HE'. cbn [andb bind].
    unfold Fib.extract_explanation. rewrite HE'. reflexivity.
  - unfold Mcq.extract, Mcq.extract_question.
    rewrite contains_marked, (marker_split_once ANSWER _ _ eq_refl HA).
    cbn [index nth_error bind].
    unfold Mcq.extract_answer. rewrite contains_leading, HE'. cbn [andb bind].
    unfold Mcq.extract_explanation. rewrite HE'. cbn [bind].
    unfold Mcq.extract_distractors.
    destruct (mcq_distractor_loop_spec
                (ANSWER ++ a) Mcq.distractor_keys
                (Mcq.set_question Mcq.default_obj (strip s)) O
                distractor_keys_nonempty)
      as (o & E & Hq & Ha & He & _).
    exists o. split; [exact E|]. rewrite Hq, Ha, He. now repeat split.
Qed.

Lemma answer_without_explanation_witness :
  Tf.extract (lit " Ice floats. " ++ ANSWER ++ lit " TRUE ")
  = Ok (Tf.mk (lit "Ice floats.") (lit "TRUE") [] [] [] (lit "tf"))
  /\ Fib.extract (lit " Ice floats. " ++ ANSWER ++ lit " TRUE ")
     = Ok (Fib.mk (lit "Ice floats.") [] [] [] [] (lit "fib")).
Proof.
  destruct (answer_without_explanation (lit " Ice floats. ") (lit " TRUE "))
    as (Htf & Hfib & _);
    [split; vm_compute; reflexivity | vm_compute; reflexivity |].
  split; [exact Htf | exact Hfib].
Defined.

(** ** Stripping *)

Lemma lstrip_head s c r : lstrip s = c :: r -> isspace c = false.
Proof.
  induction s as [|x s IH]; cbn [lstrip]; [discriminate|].
  destruct (isspace x) eqn:E; [exact IH|].
  intros H. injection H as <- _. exact E.
Qed.

Lemma lstrip_fixed s : lstrip (lstrip s) = lstrip s.
Proof.
  induction s as [|x s IH]; [reflexivity|]. cbn [lstrip].
  destruct (isspace x) eqn:E; [exact IH|]. cbn [lstrip]. now rewrite E.
Qed.

Lemma lstrip_suffix s : exists p, s = p ++ lstrip s.
Proof.
  induction s as [|x s [p IH]]; [now exists []|]. cbn [lstrip].
  destruct (isspace x).
  - exists (x :: p). cbn [app]. now rewrite <- IH.
  - now exists [].
Qed.

Lemma lstrip_keeps_last r c :
  isspace c = false -> exists r', lstrip (r ++ [c]) = r' ++ [c].
Proof.
  intros Hc. induction r as [|x r IH]; cbn [app lstrip].
  - rewrite Hc. now exists [].
  - destruct (isspace x); [exact IH|]. now exists (x :: r).
Qed.

Lemma lstrip_unchanged s : lstrip s = s -> s = [] \/ exists c r, s = c :: r /\ isspace c = false.
Proof.
  destruct s as [|c r]; [now left|]. intros H. right. exists c, r.
  split; [reflexivity|]. exact (lstrip_head _ _ _ H).
Qed.

Lemma lstrip_nonspace c r : isspace c = false -> lstrip (c :: r) = c :: r.
Proof. intros H. cbn [lstrip]. now rewrite H. Qed.

(** What [strip] returns has no white space at either end. *)
Lemma strip_trimmed s :
  lstrip (strip s) = strip s /\ lstrip (rev (strip s)) = rev (strip s).
Proof.
  unfold strip, rstrip. split.
  - destruct (lstrip_suffix (rev (lstrip s))) as [p Hp].
    set (w := lstrip (rev (lstrip s))) in *.
    assert (Hu : lstrip s = rev w ++ rev p).
    { rewrite <- rev_app_distr, <- Hp. now rewrite rev_involutive. }
    destruct (rev w) as [|c r] eqn:Ew; [reflexivity|].
    cbn [app] in Hu. apply lstrip_head in Hu. now apply lstrip_nonspace.
  - rewrite rev_involutive. apply lstrip_fixed.
Qed.

Lemma strip_of_trimmed s :
  lstrip s = s -> lstrip (rev s) = rev s -> strip s = s.
Proof.
  intros H1 H2. unfold strip, rstrip. rewrite H1, H2. apply rev_involutive.
Qed.

Lemma strip_strip s : strip (strip s) = strip s.
Proof. destruct (strip_trimmed s). now apply strip_of_trimmed. Qed.

(** A non-empty end of a stripped text is not blank. *)
Lemma strip_of_end l p t :
  strip l = l -> l = p ++ t -> t <> [] -> strip t <> [].
Proof.
  intros Hl -> Ht.
  destruct (strip_trimmed (p ++ t)) as [_ H]. rewrite Hl in H.
  destruct (exists_last Ht) as (t' & c & ->).
  rewrite app_assoc, rev_app_distr in H. cbn [rev app] in H.
  apply lstrip_head in H.
  destruct (lstrip_keeps_last t' c H) as [r' E].
  unfold strip, rstrip. rewrite E, rev_app_distr. cbn [rev app].
  rewrite (lstrip_nonspace _ _ H). cbn [rev].
  intros Hnil. now apply app_eq_nil in Hnil as [_ Hnil].
Qed.

(** ** The first occurrence *)

Lemma startswith_app m s t :
  startswith m s = true -> startswith m (s ++ t) = true.
Proof.
  intros H. apply startswith_iff in H. destruct H as [q ->].
  apply startswith_iff. exists (q ++ t). now rewrite app_assoc.
Qed.

Lemma first_occurrence sep : sep <> [] -> forall s,
  contains sep s = true ->
  exists p t, s = p ++ sep ++ t /\ contains sep p = false.
Proof.
  intros Hsep. induction s as [|x s IH]; intros H.
  - cbn [contains] in H. destruct sep; [congruence | discriminate].
  - cbn [contains] in H. destruct (startswith sep (x :: s)) eqn:E.
    + apply startswith_iff in E. destruct E as [q E].
      exists [], q. split; [exact E|]. destruct sep; [congruence | reflexivity].
    + cbn [orb] in H. destruct (IH H) as (p & t & -> & Hp).
      exists (x :: p), t. split; [reflexivity|].
      cbn [contains]. rewrite Hp.
      destruct (startswith sep (x :: p)) eqn:E'; [|reflexivity].
      apply (startswith_app _ _ (sep ++ t)) in E'. cbn [app] in E'. congruence.
Qed.

Lemma split_max_one sep s :
  marker sep = true -> contains sep s = true ->
  exists p t, s = p ++ sep ++ t /\ split_max sep 1 s = [p; t].
Proof.
  intros Hm H. destruct (marker_head _ Hm) as (c & sep' & -> & Hc).
  destruct (first_occurrence (c :: sep') ltac:(discriminate) s H)
    as (p & t & -> & Hp).
  exists p, t. split; [reflexivity|]. unfold split_max.
  rewrite (split_go_first c sep' Hc t p (Some 1%nat) [])
    by (congruence || exact Hp).
  cbn [option_map Nat.pred rev app]. now rewrite split_go_exhausted.
Qed.

(** ** The items of a fill-in-blank answer *)

Section AnswerItems.
Import Fib.

Lemma answer_line_item answer line :
  (nonblank line = false /\ answer_line answer line = Ok answer)
  \/ (nonblank line = true
      /\ exists item, answer_line answer line = Ok (answer ++ [item])
                      /\ item <> [] /\ strip item = item).
Proof.
  unfold answer_line, nonblank.
  destruct (strip line) as [|first l] eqn:El; [now left|]. right.
  split; [reflexivity|]. cbn [truthy index nth_error bind].
  destruct (isdigit first && contains DOT_SPACE (first :: l)) eqn:E.
  - apply andb_true_iff in E. destruct E as [_ E].
    destruct (split_max_one DOT_SPACE _ eq_refl E) as (p & t & Hl & ->).
    cbn [index nth_error bind].
    exists (strip t). split; [reflexivity|]. split; [|apply strip_strip].
    pose proof (strip_strip line) as Hs. rewrite El in Hs.
    assert (Ht : t <> []).
    { intros ->. destruct (strip_trimmed line) as [_ H].
      rewrite El, Hl in H. rewrite !rev_app_distr in H.
      cbn [rev app DOT_SPACE] in H. change (rev (lit ". ")) with (lit " .") in H.
      cbn [lit list_ascii_of_string app] in H. apply lstrip_head in H.
      discriminate. }
    apply (strip_of_end (first :: l) (p ++ DOT_SPACE) t Hs);
      [now rewrite <- app_assoc | exact Ht].
  - exists (first :: l). split; [reflexivity|]. split; [discriminate|].
    rewrite <- El. apply strip_strip.
Qed.

Lemma answer_lines_loop_items answer_lines : forall answer,
  exists items,
    answer_lines_loop answer answer_lines = Ok (answer ++ items)
    /\ List.length items = List.length (filter nonblank answer_lines)
    /\ Forall (fun item => item <> [] /\ strip item = item) items.
Proof.
  induction answer_lines as [|line rest IH]; intros answer.
  - exists []. rewrite app_nil_r. repeat split. constructor.
  - cbn [answer_lines_loop filter].
    destruct (answer_line_item answer line)
      as [[Hb E]|(Hb & item & E & Hne & Hst)]; rewrite E, Hb; cbn [bind].
    + apply IH.
    + destruct (IH (answer ++ [item])) as (items & E' & Hlen & Hall).
      exists (item :: items). rewrite E', <- app_assoc. cbn [app List.length].
      split; [reflexivity|]. split; [now rewrite Hlen|].
      constructor; [now split | exact Hall].
Qed.
End AnswerItems.

(** X11: the list built from the answer text of a fill-in-blank block
    has one item per line that is not blank, and every item is non-empty
    and has no white space at either end: cutting a numbered prefix never
    leaves an empty item. *)
Theorem fib_answer_items_invariant answer_text :
  exists items,
    Fib.answer_items answer_text = Ok items
    /\ List.length items
       = List.length (filter nonblank (split Fib.NEWLINE answer_text))
    /\ Forall (fun item => item <> [] /\ strip item = item) items.
Proof.
  unfold Fib.answer_items.
  destruct (answer_lines_loop_items (split Fib.NEWLINE answer_text) [])
    as (items & E & H).
  exists items. split; [exact E | exact H].
Qed.

Lemma leaf_count_certain N : Utils.leaf_count N 1 1 = N.
Proof.
  unfold Utils.leaf_count.
  rewrite (pyround_comp (inject_Z N * 1 * 1) (inject_Z N)) by ring.
  apply pyround_inject_Z.
Qed.

(** ** One label per dimension *)

(** X12: with distributions that put everything on one difficulty and one
    Bloom's level (the defaults of the generators), the breakdown of a
    positive [num_questions] is the one cell with that count, the breakdown
    of 0 is empty, and a negative [num_questions] raises [ValueError]; the
    sequence of the one cell is the pair of labels, [num_questions]
    times. *)
Theorem one_label_breakdown N d b :
  Utils.question_breakdown N (certain d) (certain b)
  = (if 0 <? N
     then Ok [(Utils.combo_key d b, Utils.mk_specs d b N)]
     else if N =? 0 then Ok [] else Raise ValueError)
  /\ Utils.create_question_sequence
       [(Utils.combo_key d b, Utils.mk_specs d b N)]
     = repeat (d, b) (Z.to_nat N).
Proof.
  split.
  - unfold Utils.question_breakdown, Utils.difficulty_loop, Utils.blooms_loop,
      certain, items. cbn [fold_left]. rewrite leaf_count_certain.
    destruct (0 <? N) eqn:E.
    + cbn [dict_set values map Utils.count]. rewrite zsum_cons.
      change (zsum []) with 0. rewrite Z.add_0_r, Z.eqb_refl. reflexivity.
    + cbn [values map]. change (zsum []) with 0.
      rewrite Z.eqb_sym. destruct (N =? 0); reflexivity.
  - rewrite create_question_sequence_runs. cbn [flat_map]. unfold cell_run.
    cbn [snd Utils.count Utils.labels Utils.difficulty Utils.blooms_level].
    apply app_nil_r.
Qed.

Lemma suffix_known t :
  In t known_types ->
  (t = lit "mcq" /\ Helpers.suffix t = lit "mcqs")
  \/ (t = lit "fib" /\ Helpers.suffix t = lit "fib")
  \/ (t = lit "tf" /\ Helpers.suffix t = lit "tf").
Proof. intros [<-|[<-|[<-|[]]]]; auto. Qed.

Lemma file_name_end fv ds t :
  rev (Helpers.generate_file_name fv ds t)
  = rev (lit ".json") ++ rev (Helpers.suffix t) ++ rev (lit "_")
        ++ rev ds ++ rev (lit "_") ++ rev fv.
Proof.
  unfold Helpers.generate_file_name.
  now rewrite !rev_app_distr, <- !app_assoc.
Qed.

(** X13: [generate_file_name] gives different names to different known
    question types, whatever the filter values and the distribution
    strings: the name ends with the suffix of the type. *)
Theorem file_names_tell_types_apart fv ds t fv' ds' t' :
  In t known_types -> In t' known_types -> t <> t' ->
  Helpers.generate_file_name fv ds t <> Helpers.generate_file_name fv' ds' t'.
Proof.
  intros Ht Ht' NE E. apply NE. apply (f_equal (@rev ascii)) in E.
  rewrite !file_name_end in E.
  destruct (suffix_known t Ht) as [[-> S]|[[-> S]|[-> S]]];
    destruct (suffix_known t' Ht') as [[-> S']|[[-> S']|[-> S']]];
    try reflexivity; rewrite S, S' in E; cbn in E; discriminate.
Qed.

Lemma file_names_tell_types_apart_witness :
  Helpers.generate_file_name (lit "ch01") (lit "basic100") (lit "mcq")
  <> Helpers.generate_file_name (lit "ch01") (lit "basic100") (lit "tf").
Proof.
  apply (file_names_tell_types_apart
           (lit "ch01") (lit "basic100") (lit "mcq")
           (lit "ch01") (lit "basic100") (lit "tf"));
    [simpl; auto | simpl; auto | discriminate].
Defined.

(** X14: the name that a job reads its file under is the name
    [generate_file_name] gives for the two distribution strings joined by
    an underscore when the question type is one of [mcq], [fib], [tf]; for
    any other type the job binds no name at all, where the helper gives a
    name with an empty suffix. *)
Theorem job_file_name_agrees fv ds bs t :
  job_file_name fv ds bs t
  = if existsb (str_eqb t) known_types
    then Some (Helpers.generate_file_name fv (ds ++ lit "_" ++ bs) t)
    else None.
Proof.
  unfold job_file_name, Helpers.generate_file_name, Helpers.suffix,
    known_types. cbn [existsb].
  destruct (str_eqb t (lit "mcq")); cbn [orb];
    [now rewrite <- !app_assoc|].
  destruct (str_eqb t (lit "fib")); cbn [orb];
    [now rewrite <- !app_assoc|].
  destruct (str_eqb t (lit "tf")); cbn [orb];
    [now rewrite <- !app_assoc | reflexivity].
Qed.

(** ** Requests for no question, or for fewer *)

Lemma pyround_nonpos x : (x <= 0)%Q -> pyround x <= 0.
Proof.
  intros Hx. unfold pyround.
  assert (Hf : Qfloor x <= 0).
  { change 0 with (Qfloor 0). now apply Qfloor_resp_le. }
  destruct (Z.eq_dec (Qfloor x) 0) as [E|NE].
  - rewrite E.
    assert (Hlt : (x - inject_Z 0 < 1 # 2)%Q).
    { apply Qle_lt_trans with (y := 0%Q); [|reflexivity].
      setoid_replace (x - inject_Z 0)%Q with x by (unfold inject_Z; ring).
      exact Hx. }
    rewrite Qlt_alt in Hlt. rewrite Hlt. lia.
  - destruct (Qcompare (x - inject_Z (Qfloor x)) (1 # 2)); try lia.
    destruct (Z.even (Qfloor x)); lia.
Qed.

Lemma scaled_nonpos n r : n <= 0 -> (0 <= r)%Q -> (inject_Z n * r <= 0)%Q.
Proof.
  intros Hn Hr.
  setoid_replace 0%Q with (0 * r)%Q by ring.
  apply Qmult_le_compat_r; [|exact Hr].
  change 0%Q with (inject_Z 0). now rewrite <- Zle_Qle.
Qed.

Lemma app_negative_no_survivor T qd dd bd :
  T <= 0 -> proportions_nonneg qd -> proportions_nonneg dd ->
  proportions_nonneg bd -> ~ App.survives T qd dd bd.
Proof.
  unfold proportions_nonneg, values, items.
  intros HT Hq Hd Hb (q & d & b & Iq & Id & Ib & Hpos).
  rewrite Forall_forall in Hq, Hd, Hb.
  pose proof (Hq _ (in_map snd _ _ Iq)) as Pq.
  pose proof (Hd _ (in_map snd _ _ Id)) as Pd.
  pose proof (Hb _ (in_map snd _ _ Ib)) as Pb.
  unfold App.b_count, App.d_count, App.q_count in Hpos.
  pose proof (pyround_nonpos _ (scaled_nonpos T _ HT Pq)) as H1.
  pose proof (pyround_nonpos _ (scaled_nonpos _ _ H1 Pd)) as H2.
  pose proof (pyround_nonpos _ (scaled_nonpos _ _ H2 Pb)) as H3.
  lia.
Qed.

Lemma utils_negative_no_survivor N dd bd :
  N <= 0 -> proportions_nonneg dd -> proportions_nonneg bd ->
  ~ Utils.survives N dd bd.
Proof.
  unfold proportions_nonneg, values, items.
  intros HN Hd Hb (d & b & Id & Ib & Hpos).
  rewrite Forall_forall in Hd, Hb.
  pose proof (Hd _ (in_map snd _ _ Id)) as Pd.
  pose proof (Hb _ (in_map snd _ _ Ib)) as Pb.
  unfold Utils.leaf_count in Hpos.
  assert (H : (inject_Z N * snd d * snd b <= 0)%Q).
  { setoid_replace 0%Q with (0 * snd b)%Q by ring.
    apply Qmult_le_compat_r; [|exact Pb]. now apply scaled_nonpos. }
  apply pyround_nonpos in H. lia.
Qed.

(** X15: a negative total with proportions none of which is negative
    leaves no cell, in the allocator of the handler and in the breakdown of
    the generators alike: both raise [ValueError], and the request ends in
    an [HTTPException] with status 500 whatever the jobs would do. *)
Theorem negative_total_raises T qd dd bd :
  T < 0 -> proportions_nonneg qd -> proportions_nonneg dd ->
  proportions_nonneg bd ->
  App.calculate_question_distribution T qd dd bd = Raise ValueError
  /\ Utils.question_breakdown T dd bd = Raise ValueError
  /\ forall (question_data : Type)
            (backend : str -> Z -> dict Q -> dict Q
                       -> Orchestrator.job_run question_data)
            content_summary,
       Orchestrator.generate_questions backend content_summary T qd dd bd
       = Orchestrator.HTTPException question_data 500.
Proof.
  intros HT Hq Hd Hb.
  assert (HA : App.calculate_question_distribution T qd dd bd
               = Raise ValueError).
  { apply app_distribution_raises; [lia|].
    apply app_negative_no_survivor; (lia || assumption). }
  split; [exact HA|]. split.
  - apply utils_breakdown_raises; [lia|].
    apply utils_negative_no_survivor; (lia || assumption).
  - intros question_data backend content_summary.
    unfold Orchestrator.generate_questions. rewrite HA.
    destruct content_summary; reflexivity.
Qed.

Lemma negative_total_raises_witness :
  App.calculate_question_distribution
    (-1) default_question_type_distribution default_difficulty_distribution
    default_blooms_taxonomy_distribution = Raise ValueError.
Proof.
  apply (negative_total_raises
           (-1) default_question_type_distribution
           default_difficulty_distribution
           default_blooms_taxonomy_distribution);
    [lia | repeat constructor; discriminate ..].
Defined.

(** X16: a request for 0 questions is answered: the allocation and the
    breakdown are empty whatever the distributions, no job is submitted,
    and the response holds no file and no data. *)
Theorem zero_questions_empty_response
        (question_data : Type)
        (backend : str -> Z -> dict Q -> dict Q
                   -> Orchestrator.job_run question_data)
        (content_summary : str) (qd dd bd : dict Q) :
  App.calculate_question_distribution 0 qd dd bd = Ok []
  /\ Utils.question_breakdown 0 dd bd = Ok []
  /\ Orchestrator.generate_questions backend (Ok content_summary) 0 qd dd bd
     = Orchestrator.Response [] [].
Proof.
  assert (HA : App.calculate_question_distribution 0 qd dd bd = Ok []).
  { unfold App.calculate_question_distribution.
    rewrite app_type_loop_none by apply app_zero_no_survivor. reflexivity. }
  split; [exact HA|]. split.
  - unfold Utils.question_breakdown.
    rewrite utils_difficulty_loop_none by apply utils_zero_no_survivor.
    reflexivity.
  - unfold Orchestrator.generate_questions. cbn [bind]. rewrite HA.
    reflexivity.
Qed.

(** ** Stripping around a text without white space at its ends *)

Lemma lstrip_app_nonspace s c t :
  isspace c = false -> lstrip (s ++ c :: t) = lstrip s ++ c :: t.
Proof.
  intros Hc. induction s as [|x s IH]; cbn [app lstrip].
  - now rewrite Hc.
  - destruct (isspace x); [exact IH | reflexivity].
Qed.

Lemma lstrip_app_last l x :
  lstrip (l ++ [x])
  = match lstrip l with [] => lstrip [x] | _ :: _ => lstrip l ++ [x] end.
Proof.
  induction l as [|y l IH]; [reflexivity|]. cbn [app lstrip].
  destruct (isspace y); [exact IH | reflexivity].
Qed.

Lemma rstrip_cons x s :
  rstrip (x :: s)
  = match rstrip s with
    | [] => if isspace x then [] else [x]
    | _ :: _ => x :: rstrip s
    end.
Proof.
  unfold rstrip. cbn [rev]. rewrite lstrip_app_last.
  destruct (lstrip (rev s)) as [|c r] eqn:E.
  - cbn [rev lstrip]. destruct (isspace x); reflexivity.
  - rewrite rev_app_distr. cbn [rev app].
    destruct (rev r ++ [c]) eqn:E'; [|reflexivity].
    now apply app_eq_nil in E' as [_ E'].
Qed.

Lemma lstrip_rstrip s : lstrip (rstrip s) = rstrip (lstrip s).
Proof.
  induction s as [|x s IH]; [reflexivity|].
  rewrite rstrip_cons. cbn [lstrip]. destruct (isspace x) eqn:E.
  - rewrite <- IH. destruct (rstrip s) as [|c r]; [reflexivity|].
    cbn [lstrip]. now rewrite E.
  - rewrite rstrip_cons.
    destruct (rstrip s); rewrite ?E; cbn [lstrip]; now rewrite ?E.
Qed.

Lemma rstrip_fixed s : rstrip (rstrip s) = rstrip s.
Proof. unfold rstrip. now rewrite rev_involutive, lstrip_fixed. Qed.

Lemma strip_lstrip s : strip (lstrip s) = strip s.
Proof. unfold strip. now rewrite lstrip_fixed. Qed.

Lemma strip_rstrip s : strip (rstrip s) = strip s.
Proof. unfold strip. now rewrite lstrip_rstrip, rstrip_fixed. Qed.

Lemma rstrip_prefix s : exists q, s = rstrip s ++ q.
Proof.
  unfold rstrip. destruct (lstrip_suffix (rev s)) as [p Hp].
  exists (rev p). rewrite <- rev_app_distr, <- Hp. now rewrite rev_involutive.
Qed.

(** A text [K] that starts and ends with a character that is not white
    space stays whole when what surrounds it is stripped. *)
Lemma strip_around K s e :
  K <> [] -> lstrip K = K -> lstrip (rev K) = rev K ->
  strip (s ++ K ++ e) = lstrip s ++ K ++ rstrip e.
Proof.
  intros HK Hl Hr. unfold strip.
  destruct K as [|c K']; [congruence|].
  pose proof (lstrip_head _ _ _ Hl) as Hc.
  cbn [app]. rewrite (lstrip_app_nonspace s c (K' ++ e) Hc).
  destruct (exists_last HK) as (K0 & c' & EK).
  assert (Hc' : isspace c' = false).
  { rewrite EK, rev_app_distr in Hr. cbn [rev app] in Hr.
    exact (lstrip_head _ _ _ Hr). }
  change (c :: K' ++ e) with ((c :: K') ++ e). rewrite EK.
  unfold rstrip. rewrite !rev_app_distr. cbn [rev app].
  rewrite <- !app_assoc. cbn [app].
  rewrite (lstrip_app_nonspace (rev e) c' _ Hc').
  rewrite rev_app_distr. cbn [rev]. rewrite !rev_app_distr, !rev_involutive.
  cbn [rev app].
  change (c :: K' ++ rev (lstrip (rev e)))
    with ((c :: K') ++ rev (lstrip (rev e))).
  rewrite EK. now rewrite <- !app_assoc.
Qed.

(** ** The blocks of a response *)

Lemma marker_split_absent sep s :
  marker sep = true -> contains sep s = false -> split sep s = [s].
Proof.
  intros Hm Hs. destruct (marker_head _ Hm) as (c & sep' & -> & Hc).
  now apply split_absent.
Qed.

Lemma split_response boundary : marker boundary = true ->
  forall blocks pre,
    contains boundary pre = false ->
    Forall (fun b => contains boundary b = false) blocks ->
    split boundary (response boundary pre blocks) = pre :: blocks.
Proof.
  intros Hm. induction blocks as [|b blocks IH]; intros pre Hpre Hall.
  - unfold response. cbn [map List.concat]. rewrite app_nil_r.
    now apply marker_split_absent.
  - inversion Hall as [|? ? Hb Hbs]; subst.
    unfold response. cbn [map List.concat]. rewrite <- app_assoc.
    rewrite (marker_split_first boundary pre _ Hm Hpre).
    f_equal. apply (IH b Hb Hbs).
Qed.

Lemma stripped_response boundary pre blocks :
  marker boundary = true -> contains boundary pre = false ->
  Forall (fun b => contains boundary b = false /\ nonblank b = true) blocks ->
  stripped_blocks (split boundary (response boundary pre blocks))
  = firstn (preamble_records pre) [strip pre] ++ map strip blocks.
Proof.
  intros Hm Hpre Hall.
  rewrite (split_response boundary Hm blocks pre Hpre)
    by (eapply Forall_impl; [|exact Hall]; now intros b [H _]).
  unfold stripped_blocks, preamble_records. cbn [filter].
  assert (E : filter nonblank blocks = blocks).
  { induction Hall as [|b blocks [_ Hb] _ IH]; [reflexivity|].
    cbn [filter]. rewrite Hb. now f_equal. }
  rewrite E. destruct (nonblank pre); reflexivity.
Qed.

Section ResponseBlocks.
Variable question_obj : Type.
Variable extract : str -> result question_obj.
Variable assign : question_obj -> str -> str -> question_obj.
Hypothesis extract_returns : forall block, returns (extract block).

Lemma parse_response_blocks boundary pre blocks question_breakdown :
  marker boundary = true -> contains boundary pre = false ->
  Forall (fun b => contains boundary b = false /\ nonblank b = true) blocks ->
  exists records,
    parse_response extract assign boundary (response boundary pre blocks)
                   question_breakdown = Ok records
    /\ List.length records
       = (preamble_records pre + List.length blocks)%nat
    /\ forall i b,
         nth_error blocks i = Some b ->
         exists o,
           extract (strip b) = Ok o
           /\ nth_error records (preamble_records pre + i)
              = Some (attach assign
                        (Utils.create_question_sequence question_breakdown)
                        (preamble_records pre + i) o).
Proof.
  intros Hm Hpre Hall.
  destruct (parse_response_spec _ extract assign extract_returns boundary
              (response boundary pre blocks) question_breakdown)
    as (records & Hrun & Hlen & Hrec).
  rewrite (stripped_response boundary pre blocks Hm Hpre Hall) in Hlen, Hrec.
  assert (Hpl : List.length (firstn (preamble_records pre) [strip pre])
                = preamble_records pre).
  { unfold preamble_records. destruct (nonblank pre); reflexivity. }
  exists records. split; [exact Hrun|].
  split; [now rewrite Hlen, length_app, length_map, Hpl|].
  intros i b Hb. apply (Hrec (preamble_records pre + i)%nat (strip b)).
  rewrite nth_error_app2 by lia. rewrite Hpl.
  replace (preamble_records pre + i - preamble_records pre)%nat with i by lia.
  now rewrite nth_error_map, Hb.
Qed.
End ResponseBlocks.

(** ** The parsers on a response made of blocks *)

Lemma strip_between A m Z s e :
  A <> [] -> strip A = A -> Z <> [] -> strip Z = Z ->
  strip (s ++ A ++ m ++ Z ++ e) = lstrip s ++ A ++ m ++ Z ++ rstrip e.
Proof.
  intros HA SA HZ SZ.
  destruct (strip_trimmed A) as [HlA _]. rewrite SA in HlA.
  destruct (strip_trimmed Z) as [_ HrZ]. rewrite SZ in HrZ.
  replace (s ++ A ++ m ++ Z ++ e) with (s ++ (A ++ m ++ Z) ++ e)
    by now rewrite <- !app_assoc.
  rewrite strip_around.
  - now rewrite <- !app_assoc.
  - destruct A; [congruence | discriminate].
  - destruct A as [|c A']; [congruence|].
    pose proof (lstrip_head _ _ _ HlA) as Hc. cbn [app lstrip]. now rewrite Hc.
  - rewrite !rev_app_distr, <- !app_assoc.
    destruct (rev Z) as [|c Z'] eqn:E.
    + apply (f_equal (@rev ascii)) in E. rewrite rev_involutive in E.
      cbn in E. congruence.
    + pose proof (lstrip_head _ _ _ HrZ) as Hc. cbn [app lstrip].
      now rewrite Hc.
Qed.

Lemma absent_prefix m x q :
  contains m (x ++ q) = false -> contains m x = false.
Proof. apply absent_in_substring. now exists [], q. Qed.

Lemma occurs_once_stripped sep s mid e :
  occurs_once sep s (mid ++ e) -> occurs_once sep (lstrip s) (mid ++ rstrip e).
Proof.
  intros [Hs He]. split.
  - destruct (lstrip_suffix s) as [p Hp]. rewrite Hp in Hs.
    exact (absent_suffix _ _ _ Hs).
  - destruct (rstrip_prefix e) as [q Hq]. rewrite Hq, app_assoc in He.
    exact (absent_prefix _ _ _ He).
Qed.

Lemma occurs_once_rstrip sep s e :
  occurs_once sep s e -> occurs_once sep s (rstrip e).
Proof.
  intros [Hs He]. split; [exact Hs|].
  destruct (rstrip_prefix e) as [q Hq]. rewrite Hq in He.
  exact (absent_prefix _ _ _ He).
Qed.

Lemma tf_extract_stripped s a e :
  occurs_once ANSWER s (a ++ EXPLANATION ++ e) ->
  occurs_once EXPLANATION a e ->
  Tf.extract (strip (s ++ ANSWER ++ a ++ EXPLANATION ++ e))
  = Ok (Tf.mk (strip s) (strip a) (strip e) [] [] (lit "tf")).
Proof.
  intros HA HE.
  rewrite (strip_between ANSWER a EXPLANATION s e)
    by (discriminate || reflexivity).
  rewrite tf_extract_well_formed.
  - now rewrite strip_lstrip, strip_rstrip.
  - replace (a ++ EXPLANATION ++ rstrip e)
      with ((a ++ EXPLANATION) ++ rstrip e) by now rewrite <- app_assoc.
    apply occurs_once_stripped. now rewrite <- app_assoc.
  - now apply occurs_once_rstrip.
Qed.

Lemma fib_extract_stripped q a e items :
  occurs_once ANSWER q (a ++ EXPLANATION ++ e) ->
  occurs_once EXPLANATION a e ->
  Fib.answer_items (strip a) = Ok items ->
  Fib.extract (strip (q ++ ANSWER ++ a ++ EXPLANATION ++ e))
  = Ok (Fib.mk (strip q) items (strip e) [] [] (lit "fib")).
Proof.
  intros HA HE Hitems.
  rewrite (strip_between ANSWER a EXPLANATION q e)
    by (discriminate || reflexivity).
  destruct (fib_extract_well_formed (lstrip q) a (rstrip e))
    as (items' & Hitems' & E).
  - replace (a ++ EXPLANATION ++ rstrip e)
      with ((a ++ EXPLANATION) ++ rstrip e) by now rewrite <- app_assoc.
    apply occurs_once_stripped. now rewrite <- app_assoc.
  - now apply occurs_once_rstrip.
  - rewrite Hitems in Hitems'. inv_ok Hitems'.
    now rewrite E, strip_lstrip, strip_rstrip.
Qed.

Lemma mcq_extract_stripped q a e d1 d2 d3 :
  occurs_once ANSWER q
    (a ++ EXPLANATION ++ e ++ Mcq.DISTRACTOR1 ++ d1 ++ Mcq.DISTRACTOR2
       ++ d2 ++ Mcq.DISTRACTOR3 ++ d3) ->
  occurs_once EXPLANATION a
    (e ++ Mcq.DISTRACTOR1 ++ d1 ++ Mcq.DISTRACTOR2 ++ d2
       ++ Mcq.DISTRACTOR3 ++ d3) ->
  occurs_once Mcq.DISTRACTOR1 e
    (d1 ++ Mcq.DISTRACTOR2 ++ d2 ++ Mcq.DISTRACTOR3 ++ d3) ->
  occurs_once Mcq.DISTRACTOR2 (e ++ Mcq.DISTRACTOR1 ++ d1)
    (d2 ++ Mcq.DISTRACTOR3 ++ d3) ->
  occurs_once Mcq.DISTRACTOR3
    (e ++ Mcq.DISTRACTOR1 ++ d1 ++ Mcq.DISTRACTOR2 ++ d2) d3 ->
  Mcq.extract
    (strip (q ++ ANSWER ++ a ++ EXPLANATION ++ e ++ Mcq.DISTRACTOR1 ++ d1
              ++ Mcq.DISTRACTOR2 ++ d2 ++ Mcq.DISTRACTOR3 ++ d3))
  = Ok (Mcq.mk (strip q) (strip a) (strip e)
               [strip d1; strip d2; strip d3] [] [] (lit "mcq")).
Proof.
  intros HA HE H1 H2 H3.
  pose proof (strip_between
                ANSWER
                (a ++ EXPLANATION ++ e ++ Mcq.DISTRACTOR1 ++ d1
                   ++ Mcq.DISTRACTOR2 ++ d2)
                Mcq.DISTRACTOR3 q d3
                ltac:(discriminate) eq_refl ltac:(discriminate) eq_refl)
    as E.
  rewrite <- !app_assoc in E. rewrite E.
  rewrite mcq_extract_well_formed.
  - now rewrite strip_lstrip, strip_rstrip.
  - pose proof (occurs_once_stripped
                  ANSWER q
                  (a ++ EXPLANATION ++ e ++ Mcq.DISTRACTOR1 ++ d1
                     ++ Mcq.DISTRACTOR2 ++ d2 ++ Mcq.DISTRACTOR3) d3) as H.
    rewrite <- !app_assoc in H. now apply H.
  - pose proof (occurs_once_stripped
                  EXPLANATION a
                  (e ++ Mcq.DISTRACTOR1 ++ d1 ++ Mcq.DISTRACTOR2 ++ d2
                     ++ Mcq.DISTRACTOR3) d3) as H.
    rewrite <- !app_assoc in H.
    destruct (H HE) as [_ H']. split; [apply HE | exact H'].
  - pose proof (occurs_once_stripped
                  Mcq.DISTRACTOR1 e
                  (d1 ++ Mcq.DISTRACTOR2 ++ d2 ++ Mcq.DISTRACTOR3) d3) as H.
    rewrite <- !app_assoc in H.
    destruct (H H1) as [_ H']. split; [apply H1 | exact H'].
  - pose proof (occurs_once_stripped
                  Mcq.DISTRACTOR2 (e ++ Mcq.DISTRACTOR1 ++ d1)
                  (d2 ++ Mcq.DISTRACTOR3) d3) as H.
    rewrite <- !app_assoc in H.
    destruct (H H2) as [_ H']. split; [apply H2 | exact H'].
  - now apply occurs_once_rstrip.
Qed.

(** X17: the true/false parser on a response made of some text without
    the boundary token followed by blocks, each after [STATEMENT:], none
    blank: there is one record per block, after one record for the leading
    text unless that is blank, and a block that reads statement,
    [ANSWER:], answer, [EXPLANATION:], explanation with each marker once
    gives the record of the three stripped texts, labelled by its position
    among the records; a leading text thus shifts the labels by one. *)
Theorem tf_parse_well_formed pre blocks question_breakdown :
  contains Tf.BOUNDARY pre = false ->
  Forall (fun b => contains Tf.BOUNDARY b = false /\ nonblank b = true)
         blocks ->
  exists records,
    Tf.parse_true_false (response Tf.BOUNDARY pre blocks) question_breakdown
    = Ok records
    /\ List.length records = (preamble_records pre + List.length blocks)%nat
    /\ forall i s a e,
         nth_error blocks i = Some (s ++ ANSWER ++ a ++ EXPLANATION ++ e) ->
         occurs_once ANSWER s (a ++ EXPLANATION ++ e) ->
         occurs_once EXPLANATION a e ->
         nth_error records (preamble_records pre + i)
         = Some (attach Tf.assign
                        (Utils.create_question_sequence question_breakdown)
                        (preamble_records pre + i)
                        (Tf.mk (strip s) (strip a) (strip e) [] []
                               (lit "tf"))).
Proof.
  intros Hpre Hall.
  destruct (parse_response_blocks
              _ Tf.extract Tf.assign tf_extract_returns Tf.BOUNDARY pre
              blocks question_breakdown eq_refl Hpre Hall)
    as (records & Hrun & Hlen & Hrec).
  exists records. split; [exact Hrun|]. split; [exact Hlen|].
  intros i s a e Hb HA HE.
  destruct (Hrec i _ Hb) as (o & Ho & Hn).
  rewrite (tf_extract_stripped s a e HA HE) in Ho. inv_ok Ho. exact Hn.
Qed.

(** X18: the fill-in-blank parser on a response made of some text without
    the boundary token followed by blocks, each after [QUESTION:], none
    blank: one record per block, after one for the leading text unless that
    is blank, and a block that reads question, [ANSWER:], answer,
    [EXPLANATION:], explanation with each marker once gives the record of
    the stripped question and explanation and of the list of answer items,
    labelled by its position among the records. *)
Theorem fib_parse_well_formed pre blocks question_breakdown :
  contains Fib.BOUNDARY pre = false ->
  Forall (fun b => contains Fib.BOUNDARY b = false /\ nonblank b = true)
         blocks ->
  exists records,
    Fib.parse_fill_in_blank (response Fib.BOUNDARY pre blocks)
                            question_breakdown
    = Ok records
    /\ List.length records = (preamble_records pre + List.length blocks)%nat
    /\ forall i q a e items,
         nth_error blocks i = Some (q ++ ANSWER ++ a ++ EXPLANATION ++ e) ->
         occurs_once ANSWER q (a ++ EXPLANATION ++ e) ->
         occurs_once EXPLANATION a e ->
         Fib.answer_items (strip a) = Ok items ->
         nth_error records (preamble_records pre + i)
         = Some (attach Fib.assign
                        (Utils.create_question_sequence question_breakdown)
                        (preamble_records pre + i)
                        (Fib.mk (strip q) items (strip e) [] []
                                (lit "fib"))).
Proof.
  intros Hpre Hall.
  destruct (parse_response_blocks
              _ Fib.extract Fib.assign fib_extract_returns Fib.BOUNDARY pre
              blocks question_breakdown eq_refl Hpre Hall)
    as (records & Hrun & Hlen & Hrec).
  exists records. split; [exact Hrun|]. split; [exact Hlen|].
  intros i q a e items Hb HA HE Hitems.
  destruct (Hrec i _ Hb) as (o & Ho & Hn).
  rewrite (fib_extract_stripped q a e items HA HE Hitems) in Ho.
  inv_ok Ho. exact Hn.
Qed.

(** X19: the multiple-choice parser on a response made of some text
    without the boundary token followed by blocks, each after [QUESTION:],
    none blank: one record per block, after one for the leading text unless
    that is blank, and a block that reads question, [ANSWER:], answer,
    [EXPLANATION:], explanation and the three distractors after their
    markers, each marker once and in this order, gives the record of the
    stripped texts with the three distractors in order, labelled by its
    position among the records. *)
Theorem mcq_parse_well_formed pre blocks question_breakdown :
  contains Mcq.BOUNDARY pre = false ->
  Forall (fun b => contains Mcq.BOUNDARY b = false /\ nonblank b = true)
         blocks ->
  exists records,
    Mcq.parse_mcq (response Mcq.BOUNDARY pre blocks) question_breakdown
    = Ok records
    /\ List.length records = (preamble_records pre + List.length blocks)%nat
    /\ forall i q a e d1 d2 d3,
         nth_error blocks i
         = Some (q ++ ANSWER ++ a ++ EXPLANATION ++ e
                   ++ Mcq.DISTRACTOR1 ++ d1 ++ Mcq.DISTRACTOR2 ++ d2
                   ++ Mcq.DISTRACTOR3 ++ d3) ->
         occurs_once ANSWER q
           (a ++ EXPLANATION ++ e ++ Mcq.DISTRACTOR1 ++ d1
              ++ Mcq.DISTRACTOR2 ++ d2 ++ Mcq.DISTRACTOR3 ++ d3) ->
         occurs_once EXPLANATION a
           (e ++ Mcq.DISTRACTOR1 ++ d1 ++ Mcq.DISTRACTOR2 ++ d2
              ++ Mcq.DISTRACTOR3 ++ d3) ->
         occurs_once Mcq.DISTRACTOR1 e
           (d1 ++ Mcq.DISTRACTOR2 ++ d2 ++ Mcq.DISTRACTOR3 ++ d3) ->
         occurs_once Mcq.DISTRACTOR2 (e ++ Mcq.DISTRACTOR1 ++ d1)
           (d2 ++ Mcq.DISTRACTOR3 ++ d3) ->
         occurs_once Mcq.DISTRACTOR3
           (e ++ Mcq.DISTRACTOR1 ++ d1 ++ Mcq.DISTRACTOR2 ++ d2) d3 ->
         nth_error records (preamble_records pre + i)
         = Some (attach Mcq.assign
                        (Utils.create_question_sequence question_breakdown)
                        (preamble_records pre + i)
                        (Mcq.mk (strip q) (strip a) (strip e)
                                [strip d1; strip d2; strip d3] [] []
                                (lit "mcq"))).
Proof.
  intros Hpre Hall.
  destruct (parse_response_blocks
              _ Mcq.extract Mcq.assign mcq_extract_returns Mcq.BOUNDARY pre
              blocks question_breakdown eq_refl Hpre Hall)
    as (records & Hrun & Hlen & Hrec).
  exists records. split; [exact Hrun|]. split; [exact Hlen|].
  intros i q a e d1 d2 d3 Hb HA HE H1 H2 H3.
  destruct (Hrec i _ Hb) as (o & Ho & Hn).
  rewrite (mcq_extract_stripped q a e d1 d2 d3 HA HE H1 H2 H3) in Ho.
  inv_ok Ho. exact Hn.
Qed.

Lemma tf_parse_well_formed_witness :
  exists records,
    Tf.parse_true_false (response Tf.BOUNDARY (lit "Here you are: ") tf_blocks)
                        Utils.three_units = Ok records
    /\ List.length records = 3%nat
    /\ nth_error records 2
       = Some (Tf.mk (lit "Iron floats.") (lit "FALSE") (lit "It is denser.")
                     (lit "advanced") (lit "analyze") (lit "tf")).
Proof.
  destruct (tf_parse_well_formed (lit "Here you are: ") tf_blocks
                                 Utils.three_units)
    as (records & Hrun & Hlen & Hrec);
    [vm_compute; reflexivity
    | repeat constructor; vm_compute; reflexivity |].
  exists records. split; [exact Hrun|]. split; [exact Hlen|].
  apply (Hrec 1%nat (lit " Iron floats. ") (lit " FALSE ")
              (lit " It is denser."));
    [reflexivity | split; vm_compute; reflexivity ..].
Defined.

Lemma mcq_parse_well_formed_witness :
  exists records,
    Mcq.parse_mcq (response Mcq.BOUNDARY [] mcq_blocks) Utils.three_units
    = Ok records
    /\ List.length records = 2%nat
    /\ nth_error records 1
       = Some (Mcq.mk (lit "3 * 3?") (lit "9") (lit "product")
                      [lit "6"; lit "33"; lit "0"]
                      (lit "advanced") (lit "analyze") (lit "mcq")).
Proof.
  destruct (mcq_parse_well_formed [] mcq_blocks Utils.three_units)
    as (records & Hrun & Hlen & Hrec);
    [vm_compute; reflexivity
    | repeat constructor; vm_compute; reflexivity |].
  exists records. split; [exact Hrun|]. split; [exact Hlen|].
  apply (Hrec 1%nat (lit " 3 * 3? ") (lit " 9 ") (lit " product ")
              (lit " 6 ") (lit " 33 ") (lit " 0"));
    [reflexivity | split; vm_compute; reflexivity ..].
Defined.

Lemma fib_parse_well_formed_witness :
  exists records,
    Fib.parse_fill_in_blank (response Fib.BOUNDARY (lit " ") fib_blocks)
                            Utils.three_units
    = Ok records
    /\ List.length records = 1%nat
    /\ nth_error records 0
       = Some (Fib.mk (lit "The ___ is red and the ___ is blue.")
                      [lit "rose"; lit "sky"] (lit "colours")
                      (lit "basic") (lit "remember") (lit "fib")).
Proof.
  destruct (fib_parse_well_formed (lit " ") fib_blocks Utils.three_units)
    as (records & Hrun & Hlen & Hrec);
    [vm_compute; reflexivity
    | repeat constructor; vm_compute; reflexivity |].
  exists records. split; [exact Hrun|]. split; [exact Hlen|].
  apply (Hrec 0%nat (lit " The ___ is red and the ___ is blue. ")
              (lit " 1. rose" ++ Fib.NEWLINE ++ lit "2. sky ")
              (lit " colours ") [lit "rose"; lit "sky"]);
    [reflexivity | split; vm_compute; reflexivity .. | vm_compute; reflexivity].
Defined.

(** ** What the jobs are asked for *)

Lemma app_returned_total T qd dd bd dist :
  App.calculate_question_distribution T qd dd bd = Ok dist ->
  App.total dist = T.
Proof.
  intros H. destruct (app_uncorrected_raw T qd dd bd) as [Hnd _].
  destruct (corrected_shape _ App.count App.add_count
              (app_uncorrected T qd dd bd) T Hnd
              (app_raw_positive T qd dd bd) dist H)
    as [[E ->]|(_ & k & e & Hin & _ & ->)]; [exact E|].
  apply (dict_get_in_iff _ _ _ _ Hnd) in Hin. unfold App.total.
  rewrite (zsum_dict_set _ App.count _ _ _ _ Hin). cbn. lia.
Qed.

(** X20: when the allocation returns, the numbers of questions that the
    jobs are asked for (the totals of the groups) add up to the requested
    total, and the breakdown that the job of a group computes from the
    combined distributions, when it returns, holds exactly the total of its
    group. *)
Theorem jobs_share_the_total T qd dd bd dist :
  App.calculate_question_distribution T qd dd bd = Ok dist ->
  exists type_groups,
    Orchestrator.group_by_type dist = Ok type_groups
    /\ zsum (map Orchestrator.total_for_type (values type_groups)) = T
    /\ forall t configs qb,
         In (t, configs) type_groups ->
         Orchestrator.job_breakdown configs = Ok qb ->
         Utils.total qb = Orchestrator.total_for_type configs.
Proof.
  intros H. unfold Orchestrator.group_by_type, items.
  rewrite group_loop_grouped. eexists. split; [reflexivity|]. split.
  - rewrite grouped_total. change (zsum (map _ (values []))) with 0.
    rewrite <- (app_returned_total _ _ _ _ _ H).
    unfold App.total, values. rewrite map_map. lia.
  - intros t configs qb _ Hjob. unfold Orchestrator.job_breakdown in Hjob.
    destruct (Orchestrator.local_distributions configs) as [[d b]|];
      [|discriminate].
    cbn [bind] in Hjob. exact (breakdown_returned_total _ _ _ _ Hjob).
Qed.

Lemma jobs_share_the_total_witness :
  exists type_groups,
    Orchestrator.group_by_type
      [(App.cell_key (lit "mcq") (lit "advanced") (lit "remember"),
        App.mk_config (lit "mcq") (lit "advanced") (lit "remember") 8);
       (App.cell_key (lit "mcq") (lit "advanced") (lit "apply"),
        App.mk_config (lit "mcq") (lit "advanced") (lit "apply") 1);
       (App.cell_key (lit "mcq") (lit "advanced") (lit "analyze"),
        App.mk_config (lit "mcq") (lit "advanced") (lit "analyze") 1)]
    = Ok type_groups
    /\ zsum (map Orchestrator.total_for_type (values type_groups)) = 10.
Proof.
  destruct (jobs_share_the_total
              10 default_question_type_distribution
              default_difficulty_distribution
              default_blooms_taxonomy_distribution _ eq_refl)
    as (type_groups & Hg & Hsum & _).
  exists type_groups. split; [exact Hg | exact Hsum].
Defined.

(** ** The settings *)

(** X21: whatever the environment, the settings have the keys of the base
    configuration in its order and its values, except for [debug], which is
    on exactly in the development environment; an environment that is not
    known gets the base configuration. *)
Theorem settings_differ_in_debug_only ENV aws_region :
  keys (Settings.get_settings ENV aws_region)
  = keys (Settings.BASE_CONFIG aws_region)
  /\ dict_get (Settings.get_settings ENV aws_region) (lit "debug")
     = Some (Settings.Flag (str_eqb Settings.DEV ENV))
  /\ forall k, k <> lit "debug" ->
               dict_get (Settings.get_settings ENV aws_region) k
               = dict_get (Settings.BASE_CONFIG aws_region) k.
Proof.
  unfold Settings.get_settings, Settings.ENV_CONFIGS. cbn [dict_get].
  destruct (str_eqb Settings.DEV ENV);
    [|destruct (str_eqb Settings.STAGING ENV);
      [|destruct (str_eqb Settings.PROD ENV)]];
    (split; [reflexivity|]; split; [reflexivity|]);
    intros k Hk; unfold Settings.update, items; cbn [fold_left];
    try reflexivity; apply dict_get_set_other; congruence.
Qed.

(** * The float arithmetic *)

(** ** The exact instance *)

Lemma exact_allocation T qd dd bd :
  Generic.calculate_question_distribution App.q_count T qd dd bd
  = App.calculate_question_distribution T qd dd bd.
Proof. reflexivity. Qed.

Lemma exact_breakdown N dd bd :
  Generic.question_breakdown Utils.leaf_count N dd bd
  = Utils.question_breakdown N dd bd.
Proof. reflexivity. Qed.

Lemma exact_local_distributions configs :
  Generic.local_distributions
    (fun a b => (inject_Z a / inject_Z b)%Q) Qplus configs
  = Orchestrator.local_distributions configs.
Proof. reflexivity. Qed.

Lemma exact_job_breakdown configs :
  Generic.job_breakdown Utils.leaf_count
                        (fun a b => (inject_Z a / inject_Z b)%Q) Qplus configs
  = Orchestrator.job_breakdown configs.
Proof. reflexivity. Qed.

(** ** The allocations, whatever the arithmetic *)


Section AnyArithmetic.
Variable scale : Z -> Q -> Z.
Variable leaf : Z -> Q -> Q -> Z.




End AnyArithmetic.

(** ** The combined distributions, whatever the arithmetic *)


Section AnyDivision.
Variable quot : Z -> Z -> Q.
Variable add : Q -> Q -> Q.
Variable total : Z.
Hypothesis total_nonzero : total <> 0.

Lemma generic_add_share d k c :
  Generic.add_share quot add (Orchestrator.ensure_key d k) k c total
  = Ok (accumulated_by add d k (quot c total)).
Proof.
  unfold Generic.add_share, Generic.true_div, Orchestrator.ensure_key,
    accumulated_by, dict_lookup.
  destruct (Z.eqb_spec total 0) as [E|_]; [contradiction|].
  destruct (dict_get d k) as [v|] eqn:E.
  - rewrite E. reflexivity.
  - rewrite dict_get_set_same. cbn [bind]. now rewrite dict_set_set.
Qed.

Lemma generic_local_loop configs : forall dd bd,
  Generic.local_loop quot add total configs (dd, bd)
  = Ok (fold_left (fun d c => accumulated_by add d (App.difficulty c)
                                             (quot (App.count c) total))
                  configs dd,
        fold_left (fun d c => accumulated_by add d (App.blooms_level c)
                                             (quot (App.count c) total))
                  configs bd).
Proof.
  induction configs as [|config rest IH]; intros dd bd; [reflexivity|].
  cbn [Generic.local_loop fold_left]. unfold Generic.local_step.
  rewrite !generic_add_share. cbn [bind]. apply IH.
Qed.

Variable label : App.config -> str.

Lemma accumulated_by_keys configs : forall d0,
  keys (fold_left (fun d c => accumulated_by add d (label c)
                                             (quot (App.count c) total))
                  configs d0)
  = fold_left seen (map label configs) (keys d0).
Proof.
  induction configs as [|c rest IH]; intros d0; [reflexivity|].
  cbn [fold_left map]. rewrite IH. f_equal.
  unfold accumulated_by. destruct (dict_get d0 (label c));
    apply keys_dict_set.
Qed.

Lemma accumulated_by_value configs : forall d0 k,
  dict_get (fold_left (fun d c => accumulated_by add d (label c)
                                                 (quot (App.count c) total))
                      configs d0) k
  = match filter (fun c => str_eqb (label c) k) configs with
    | [] => dict_get d0 k
    | cells =>
        Some (fold_left (fun v c => add v (quot (App.count c) total))
                        cells (proportion_of d0 k))
    end.
Proof.
  induction configs as [|c rest IH]; intros d0 k; [reflexivity|].
  cbn [fold_left filter]. rewrite IH.
  destruct (str_eqb (label c) k) eqn:E.
  - apply str_eqb_eq in E. subst k.
    assert (Hget : dict_get (accumulated_by add d0 (label c)
                                            (quot (App.count c) total))
                            (label c)
                   = Some (add (proportion_of d0 (label c))
                               (quot (App.count c) total))).
    { unfold accumulated_by, proportion_of.
      destruct (dict_get d0 (label c)); apply dict_get_set_same. }
    cbn [fold_left]. unfold proportion_of at 1. rewrite Hget.
    destruct (filter _ rest); reflexivity.
  - apply str_eqb_neq in E.
    assert (Hget : dict_get (accumulated_by add d0 (label c)
                                            (quot (App.count c) total)) k
                   = dict_get d0 k).
    { unfold accumulated_by.
      destruct (dict_get d0 (label c)); now apply dict_get_set_other. }
    unfold proportion_of. rewrite Hget. reflexivity.
Qed.
End AnyDivision.

(** ** Doubles against exact products *)

Example double_products :
  Double.fl (1 # 10) = (3602879701896397 # 36028797018963968)%Q
  /\ Double.scale 45 (Double.fl (7 # 10)) = 31
  /\ App.q_count 45 (7 # 10) = 32
  /\ Double.leaf 90 (Double.fl (7 # 10)) (1 # 2) = 31
  /\ Utils.leaf_count 90 (7 # 10) (1 # 2) = 32.
Proof. repeat split; vm_compute; reflexivity. Qed.

Example twelve_questions_in_doubles :
  exists dist,
    Double.calculate_question_distribution
      12 (Double.literals twelve_types)
      (Double.literals default_difficulty_distribution)
      (Double.literals default_blooms_taxonomy_distribution) = Ok dist
    /\ values dist = twelve_mcq_group
    /\ (exists qb, Double.job_breakdown twelve_mcq_group = Ok qb
                   /\ map Utils.count (values qb) = [4; 1; 1; 1; 1; 1; 1; 1; 1])
    /\ (exists qb, Orchestrator.job_breakdown twelve_mcq_group = Ok qb
                   /\ map Utils.count (values qb) = [0; 2; 2; 2; 1; 1; 2; 1; 1]).
Proof.
  eexists. split; [vm_compute; reflexivity|]. split; [reflexivity|].
  split; eexists; (split; [vm_compute; reflexivity | reflexivity]).
Qed.

Example nine_questions_in_doubles :
  exists dist configs qb,
    Double.calculate_question_distribution
      9 (Double.literals Orchestrator.nine_types)
      (Double.literals Orchestrator.nine_difficulty)
      (Double.literals Orchestrator.nine_blooms) = Ok dist
    /\ Orchestrator.group_by_type dist = Ok [(lit "mcq", configs)]
    /\ Orchestrator.group_count configs (lit "basic") (lit "remember") = 3
    /\ Double.job_breakdown configs = Ok qb
    /\ Orchestrator.breakdown_count qb (lit "basic") (lit "remember") = -1.
Proof.
  do 3 eexists. split; [vm_compute; reflexivity|].
  split; [vm_compute; reflexivity|]. split; [vm_compute; reflexivity|].
  split; [vm_compute; reflexivity|]. vm_compute. reflexivity.
Qed.

(** ** The combined distributions in float arithmetic *)

(** X4: for a group whose total is not 0 the combined distributions are
    created, whatever the quotient and the sum of the floats are: their
    labels are the distinct difficulties (Bloom's levels) of the cells in
    the order of first occurrence, and the proportion of a label is what
    the accumulation leaves: the quotients count / total of the cells that
    carry the label, added up in the order of the cells, from 0.  In
    doubles that need not be the marginal: the counts 4, 1, 1 of 12 leave
    0.49999999999999994 where the marginal is 1/2. *)
Theorem local_distributions_accumulate
        (quot : Z -> Z -> Q) (add : Q -> Q -> Q)
        (configs : list App.config) :
  Orchestrator.total_for_type configs <> 0 ->
  exists dd bd,
    Generic.local_distributions quot add configs = Ok (dd, bd)
    /\ keys dd = first_seen (map App.difficulty configs)
    /\ keys bd = first_seen (map App.blooms_level configs)
    /\ (forall d v,
           dict_get dd d = Some v ->
           v = Generic.accumulation
                 quot add (Orchestrator.total_for_type configs)
                 (filter (of_difficulty d) configs))
    /\ (forall b v,
           dict_get bd b = Some v ->
           v = Generic.accumulation
                 quot add (Orchestrator.total_for_type configs)
                 (filter (of_blooms b) configs)).
Proof.
  intros Htotal. unfold Generic.local_distributions.
  rewrite (generic_local_loop quot add _ Htotal).
  do 2 eexists. split; [reflexivity|].
  split; [apply accumulated_by_keys|]. split; [apply accumulated_by_keys|].
  split.
  - intros d v Hv. rewrite accumulated_by_value in Hv.
    unfold Generic.accumulation, of_difficulty.
    destruct (filter _ configs) as [|c cells]; [discriminate|].
    now inv_ok Hv.
  - intros b v Hv. rewrite accumulated_by_value in Hv.
    unfold Generic.accumulation, of_blooms.
    destruct (filter _ configs) as [|c cells]; [discriminate|].
    now inv_ok Hv.
Qed.

Lemma local_distributions_accumulate_witness :
  exists dd bd,
    Double.local_distributions twelve_mcq_group = Ok (dd, bd)
    /\ keys dd = [lit "basic"; lit "intermediate"; lit "advanced"]
    /\ dict_get dd (lit "basic")
       = Some (9007199254740991 # 18014398509481984)%Q
    /\ marginal (of_difficulty (lit "basic")) twelve_mcq_group == 1 # 2.
Proof.
  destruct (local_distributions_accumulate
              Double.quot Double.add twelve_mcq_group)
    as (dd & bd & E & Hkd & _ & Hd & _); [vm_compute; discriminate|].
  exists dd, bd. split; [exact E|]. split; [rewrite Hkd; reflexivity|].
  split; [|vm_compute; reflexivity].
  destruct (dict_get dd (lit "basic")) as [v|] eqn:Hv.
  - rewrite (Hd _ _ Hv). vm_compute. reflexivity.
  - apply dict_get_none_iff in Hv. exfalso. apply Hv. rewrite Hkd. now left.
Defined.

Section AnyLocalDistributions.
Variable quot : Z -> Z -> Q.
Variable add : Q -> Q -> Q.



End AnyLocalDistributions.

(** ** What a job reproduces of its group *)



